(** * Experience page controller (Experience.js): a shallow embedding

    The controller of the Experience page is modelled as a state machine over
    an explicit page state: the booking form is a tree of DOM nodes, timers
    and animation-frame requests are queues of defunctionalised callbacks,
    the widget registries are finite maps keyed by strings.

    Strings are sequences of code units below 256 (Rocq's [string]); the
    whitespace class of [trim] and of the regular-expression escape [\s] is
    the part of the ECMAScript class that lies in that range. *)

From Stdlib Require Import ZArith QArith Ascii String List Bool Lia.
From stdpp Require Import gmap strings list.
Import ListNotations.

Local Open Scope Z_scope.
Set Warnings "-register-all".

(** ** Characters and strings *)

Definition chars (s : string) : list ascii := list_ascii_of_string s.
Definition unchars (l : list ascii) : string := string_of_list_ascii l.

Definition code (c : ascii) : nat := nat_of_ascii c.

Definition in_range (lo hi : nat) (c : ascii) : bool :=
  (lo <=? code c)%nat && (code c <=? hi)%nat.

Definition is_char (d c : ascii) : bool := Ascii.eqb c d.

(** [\s]: TAB, LF, VT, FF, CR, SPACE and NO-BREAK SPACE. *)
Definition is_space (c : ascii) : bool :=
  in_range 9 13 c || (code c =? 32)%nat || (code c =? 160)%nat.

(** [\d] *)
Definition is_digit (c : ascii) : bool := in_range 48 57 c.

(** [[1-9]] *)
Definition is_digit19 (c : ascii) : bool := in_range 49 57 c.

(** [[^\s@]] *)
Definition not_space_at (c : ascii) : bool :=
  negb (is_space c || is_char "@" c).

(** [[\s\-\(\)]] *)
Definition is_phone_filler (c : ascii) : bool :=
  is_space c || is_char "-" c || is_char "(" c || is_char ")" c.

Fixpoint drop_while {A} (p : A -> bool) (l : list A) : list A :=
  match l with
  | [] => []
  | x :: r => if p x then drop_while p r else l
  end.

(** [String.prototype.trim] *)
Definition trim_chars (l : list ascii) : list ascii :=
  rev (drop_while is_space (rev (drop_while is_space l))).

Definition trim (s : string) : string := unchars (trim_chars (chars s)).

(** JavaScript truthiness of a string: it is not empty. *)
Definition truthy (s : string) : bool :=
  match s with EmptyString => false | String _ _ => true end.

(** [s.replace(/[...]/g, '')] for a character class. *)
Definition remove_class (p : ascii -> bool) (l : list ascii) : list ascii :=
  List.filter (fun c => negb (p c)) l.

(** ** Regular expressions

    The patterns of the controller use character classes, concatenation, the
    postfix operators [?], [+] and a bounded repetition, and are anchored at
    both ends, so [test] decides membership of the whole string in the
    language of the pattern.  Matching is by derivatives. *)

Inductive regex : Type :=
| Void
| Eps
| Class (p : ascii -> bool)
| Cat (r s : regex)
| Alt (r s : regex)
| Star (r : regex).

Definition Opt (r : regex) : regex := Alt r Eps.
Definition Plus (r : regex) : regex := Cat r (Star r).

(** [r{0,n}] *)
Fixpoint Upto (n : nat) (r : regex) : regex :=
  match n with
  | O => Eps
  | S k => Opt (Cat r (Upto k r))
  end.

Fixpoint nullable (r : regex) : bool :=
  match r with
  | Void => false
  | Eps => true
  | Class _ => false
  | Cat r s => nullable r && nullable s
  | Alt r s => nullable r || nullable s
  | Star _ => true
  end.

Fixpoint deriv (c : ascii) (r : regex) : regex :=
  match r with
  | Void => Void
  | Eps => Void
  | Class p => if p c then Eps else Void
  | Cat r s =>
      if nullable r then Alt (Cat (deriv c r) s) (deriv c s)
      else Cat (deriv c r) s
  | Alt r s => Alt (deriv c r) (deriv c s)
  | Star r => Cat (deriv c r) (Star r)
  end.

Fixpoint matches (r : regex) (l : list ascii) : bool :=
  match l with
  | [] => nullable r
  | c :: l' => matches (deriv c r) l'
  end.

(** [re.test(s)] for a pattern anchored with [^] and [$]. *)
Definition test (r : regex) (s : string) : bool := matches r (chars s).

(** The language of a pattern. *)
Inductive lang : regex -> list ascii -> Prop :=
| L_eps : lang Eps []
| L_class p c : p c = true -> lang (Class p) [c]
| L_cat r s u v : lang r u -> lang s v -> lang (Cat r s) (u ++ v)
| L_alt_l r s u : lang r u -> lang (Alt r s) u
| L_alt_r r s u : lang s u -> lang (Alt r s) u
| L_star_nil r : lang (Star r) []
| L_star_cons r u v : lang r u -> lang (Star r) v -> lang (Star r) (u ++ v).

(** [/^[^\s@]+@[^\s@]+\.[^\s@]+$/] *)
Definition emailRegex : regex :=
  Cat (Plus (Class not_space_at))
    (Cat (Class (is_char "@"))
       (Cat (Plus (Class not_space_at))
          (Cat (Class (is_char "."))
             (Plus (Class not_space_at))))).

(** [/^[\+]?[1-9][\d]{0,15}$/] *)
Definition phoneRegex : regex :=
  Cat (Opt (Class (is_char "+")))
    (Cat (Class is_digit19) (Upto 15 (Class is_digit))).

(** ** Markup assigned to [innerHTML]

    The banner of a notification is built by assigning a template string with
    the message spliced in to [innerHTML].  The fragment parser of the page is
    modelled for the markup the template uses: character data, start tags with
    attributes, end tags, comments up to their [-->], other declarations
    skipped up to the next [>], the character references [&amp;] [&lt;]
    [&gt;] [&quot;], NUL dropped and CR read as LF.  Elements are nested by a
    stack of open elements; an end tag closes the nearest open element of its
    name.  Left out, and so read here as ordinary markup, are the elements
    whose content is raw text or escapable raw text ([script], [style],
    [textarea], [title] and the like), [select], foreign content, the
    special nesting rules of tables and formatting elements, and every
    character reference but the four above, numeric ones included: on a
    message that holds any of these the model and a browser can part.  The
    properties below read the parse only of messages free of [<] and [&]
    and of the one message [<b>Saved</b>], where they agree, or take what
    they need of it as a hypothesis. *)

Inductive hnode : Type :=
| HText (c : ascii)
| HElem (tag : string) (attrs : list (string * string)) (kids : list hnode).

Inductive token : Type :=
| TChar (c : ascii)
| TOpen (tag : string) (attrs : list (string * string))
| TClose (tag : string).

Inductive lexmode : Type :=
| LData
| LSkip
| LComment
| LTagName (closing : bool) (name : list ascii)
| LEndRest (tag : string)
| LBeforeAttr (tag : string) (attrs : list (string * string))
| LAttrName (tag : string) (attrs : list (string * string)) (name : list ascii)
| LBeforeValue (tag : string) (attrs : list (string * string)) (name : string)
| LValue (tag : string) (attrs : list (string * string)) (name : string)
    (quote : option ascii) (val : list ascii).

Definition is_letter (c : ascii) : bool := in_range 65 90 c || in_range 97 122 c.

Definition lower (c : ascii) : ascii :=
  if in_range 65 90 c then ascii_of_nat (code c + 32) else c.

(** Whitespace inside a tag: TAB, LF, FF, CR, SPACE. *)
Definition is_tag_space (c : ascii) : bool :=
  (code c =? 9)%nat || (code c =? 10)%nat || (code c =? 12)%nat
  || (code c =? 13)%nat || (code c =? 32)%nat.

Definition acc_string (racc : list ascii) : string := unchars (rev racc).

Fixpoint lex (m : lexmode) (s : list ascii) : list token :=
  match s with
  | [] => []
  | c :: r =>
      match m with
      | LData =>
          if is_char "<" c then
            match r with
            | d :: r' =>
                if is_letter d then lex (LTagName false [lower d]) r'
                else if is_char "/" d then
                  match r' with
                  | e :: r'' =>
                      if is_letter e then lex (LTagName true [lower e]) r''
                      else if is_char ">" e then lex LData r''
                      else lex LSkip r''
                  | [] => [TChar c; TChar d]
                  end
                else if is_char "!" d then
                  match r' with
                  | "-"%char :: "-"%char :: ">"%char :: r'' => lex LData r''
                  | "-"%char :: "-"%char :: "-"%char :: ">"%char :: r'' => lex LData r''
                  | "-"%char :: "-"%char :: r'' => lex LComment r''
                  | _ => lex LSkip r'
                  end
                else if is_char "?" d then lex LSkip r'
                else TChar c :: lex LData r
            | [] => [TChar c]
            end
          else if is_char "&" c then
            match r with
            | "a"%char :: "m"%char :: "p"%char :: ";"%char :: r' =>
                TChar "&" :: lex LData r'
            | "l"%char :: "t"%char :: ";"%char :: r' => TChar "<" :: lex LData r'
            | "g"%char :: "t"%char :: ";"%char :: r' => TChar ">" :: lex LData r'
            | "q"%char :: "u"%char :: "o"%char :: "t"%char :: ";"%char :: r' =>
                TChar "034" :: lex LData r'
            | _ => TChar c :: lex LData r
            end
          else if (code c =? 0)%nat then lex LData r
          else if (code c =? 13)%nat then
            match r with
            | d :: r' =>
                if (code d =? 10)%nat then TChar "010" :: lex LData r'
                else TChar "010" :: lex LData r
            | [] => [TChar "010"]
            end
          else TChar c :: lex LData r
      | LSkip => if is_char ">" c then lex LData r else lex LSkip r
      | LComment =>
          if is_char "-" c then
            match r with
            | "-"%char :: ">"%char :: r' => lex LData r'
            | "-"%char :: "!"%char :: ">"%char :: r' => lex LData r'
            | _ => lex LComment r
            end
          else lex LComment r
      | LTagName closing name =>
          if is_char ">" c then
            (if closing then TClose (acc_string name)
             else TOpen (acc_string name) []) :: lex LData r
          else if is_tag_space c || is_char "/" c then
            if closing then lex (LEndRest (acc_string name)) r
            else lex (LBeforeAttr (acc_string name) []) r
          else lex (LTagName closing (lower c :: name)) r
      | LEndRest tag =>
          if is_char ">" c then TClose tag :: lex LData r
          else lex (LEndRest tag) r
      | LBeforeAttr tag attrs =>
          if is_char ">" c then TOpen tag attrs :: lex LData r
          else if is_tag_space c || is_char "/" c then lex (LBeforeAttr tag attrs) r
          else lex (LAttrName tag attrs [lower c]) r
      | LAttrName tag attrs name =>
          if is_char "=" c then lex (LBeforeValue tag attrs (acc_string name)) r
          else if is_char ">" c then
            TOpen tag (attrs ++ [(acc_string name, EmptyString)]) :: lex LData r
          else if is_tag_space c || is_char "/" c then
            lex (LBeforeAttr tag (attrs ++ [(acc_string name, EmptyString)])) r
          else lex (LAttrName tag attrs (lower c :: name)) r
      | LBeforeValue tag attrs name =>
          if is_tag_space c then lex (LBeforeValue tag attrs name) r
          else if is_char "034" c || is_char "'" c then
            lex (LValue tag attrs name (Some c) []) r
          else if is_char ">" c then
            TOpen tag (attrs ++ [(name, EmptyString)]) :: lex LData r
          else lex (LValue tag attrs name None [c]) r
      | LValue tag attrs name (Some q) val =>
          if is_char q c then lex (LBeforeAttr tag (attrs ++ [(name, acc_string val)])) r
          else lex (LValue tag attrs name (Some q) (c :: val)) r
      | LValue tag attrs name None val =>
          if is_char ">" c then
            TOpen tag (attrs ++ [(name, acc_string val)]) :: lex LData r
          else if is_tag_space c then
            lex (LBeforeAttr tag (attrs ++ [(name, acc_string val)])) r
          else lex (LValue tag attrs name None (c :: val)) r
      end
  end.

Definition void_tags : list string :=
  ["area"; "base"; "br"; "col"; "embed"; "hr"; "img"; "input"; "link";
   "meta"; "source"; "track"; "wbr"].

Definition is_void (tag : string) : bool :=
  existsb (String.eqb tag) void_tags.

(** An open element: its tag, its attributes and the children read so far,
    last first. *)
Definition open_elem : Type := string * list (string * string) * list hnode.

(** The stack of open elements, innermost first, above the children of the
    fragment root read so far. *)
Definition builder : Type := list open_elem * list hnode.

Definition add_node (n : hnode) (b : builder) : builder :=
  match b with
  | ([], root) => ([], n :: root)
  | ((t, a, k) :: rest, root) => ((t, a, n :: k) :: rest, root)
  end.

Definition close_top (b : builder) : builder :=
  match b with
  | ([], root) => b
  | ((t, a, k) :: rest, root) => add_node (HElem t a (rev k)) (rest, root)
  end.

Fixpoint close_until (tag : string) (fuel : list open_elem) (b : builder) : builder :=
  match fuel with
  | [] => b
  | (t, _, _) :: fuel' =>
      if String.eqb t tag then close_top b
      else close_until tag fuel' (close_top b)
  end.

Definition is_open (tag : string) (b : builder) : bool :=
  existsb (fun o => String.eqb (fst (fst o)) tag) (fst b).

Fixpoint close_all (fuel : list open_elem) (b : builder) : builder :=
  match fuel with
  | [] => b
  | _ :: fuel' => close_all fuel' (close_top b)
  end.

(** What one token does to the open elements. *)
Definition feed (b : builder) (t : token) : builder :=
  match t with
  | TChar c => add_node (HText c) b
  | TOpen tag attrs =>
      if is_void tag then add_node (HElem tag attrs []) b
      else ((tag, attrs, []) :: fst b, snd b)
  | TClose tag =>
      if is_open tag b then close_until tag (fst b) b else b
  end.

(** At the end of the input the elements still open are closed. *)
Definition finish (b : builder) : list hnode := rev (snd (close_all (fst b) b)).

Definition build (ts : list token) : list hnode :=
  finish (fold_left feed ts ([], [])).

Definition parse_fragment (html : string) : list hnode :=
  build (lex LData (chars html)).

Section HNodeTraversal.
Context {R : Type} (of_node : hnode -> list R).

Fixpoint flat_nodes (l : list hnode) : list R :=
  match l with
  | [] => []
  | n :: r => of_node n ++ flat_nodes r
  end.
End HNodeTraversal.

(** [node.textContent] *)
Fixpoint text_content (n : hnode) : list ascii :=
  match n with
  | HText c => [c]
  | HElem _ _ kids => flat_nodes text_content kids
  end.

(** The element and its descendant elements, in document order. *)
Fixpoint elements_of (n : hnode) : list hnode :=
  match n with
  | HText _ => []
  | HElem _ _ kids => n :: flat_nodes elements_of kids
  end.

Fixpoint split_on (p : ascii -> bool) (cur : list ascii) (s : list ascii)
  : list string :=
  match s with
  | [] => [acc_string cur]
  | c :: r => if p c then acc_string cur :: split_on p [] r
              else split_on p (c :: cur) r
  end.

Definition class_list (n : hnode) : list string :=
  match n with
  | HText _ => []
  | HElem _ attrs _ =>
      match List.find (fun a => String.eqb (fst a) "class") attrs with
      | Some (_, v) => split_on is_tag_space [] (chars v)
      | None => []
      end
  end.

Definition has_class (c : string) (n : hnode) : bool :=
  existsb (String.eqb c) (class_list n).

(** [root.querySelector('.c')] over the children of [root]. *)
Definition query_class (c : string) (kids : list hnode) : option hnode :=
  List.find (has_class c) (flat_nodes elements_of kids).

(** ** Form elements

    A form is a tree of elements.  The controller distinguishes the controls
    ([input] and [select] elements), the elements of class [invalid-feedback]
    that annotate an error, and everything else (wrappers, labels, rows). *)

Inductive ftag : Type := TagInput | TagSelect.

Record field : Type := mkField {
  f_tag : ftag;
  f_type : string;          (* [field.type] *)
  f_name : string;
  f_id : string;
  f_required : bool;        (* the [required] attribute *)
  f_value : string;
  f_default : string;       (* the value [form.reset()] restores *)
  f_invalid : bool          (* [classList] holds [is-invalid] *)
}.

Definition with_value (v : string) (f : field) : field :=
  mkField (f_tag f) (f_type f) (f_name f) (f_id f) (f_required f) v
    (f_default f) (f_invalid f).

Definition with_invalid (b : bool) (f : field) : field :=
  mkField (f_tag f) (f_type f) (f_name f) (f_id f) (f_required f) (f_value f)
    (f_default f) b.

(** Controls carry a key, their identity as a DOM object. *)
Inductive node : Type :=
| Field (key : nat) (f : field)
| Feedback (msg : string)
| Box (kids : list node).

Section NodeTraversal.
Context {R : Type} (of_node : node -> list R).

Fixpoint flat_kids (l : list node) : list R :=
  match l with
  | [] => []
  | n :: r => of_node n ++ flat_kids r
  end.
End NodeTraversal.

(** [root.querySelectorAll('input, select')], in document order. *)
Fixpoint fields (n : node) : list (nat * field) :=
  match n with
  | Field k f => [(k, f)]
  | Feedback _ => []
  | Box kids => flat_kids fields kids
  end.

(** The annotations of a subtree, in document order. *)
Fixpoint feedbacks (n : node) : list string :=
  match n with
  | Field _ _ => []
  | Feedback m => [m]
  | Box kids => flat_kids feedbacks kids
  end.

Definition field_of (k : nat) (t : node) : option field :=
  snd <$> List.find (fun kf => Nat.eqb (fst kf) k) (fields t).

Fixpoint update_field (k : nat) (g : field -> field) (t : node) : node :=
  match t with
  | Field k' f => if Nat.eqb k' k then Field k' (g f) else t
  | Feedback _ => t
  | Box kids => Box (List.map (update_field k g) kids)
  end.

Definition is_field_key (k : nat) (n : node) : bool :=
  match n with
  | Field k' _ => Nat.eqb k' k
  | _ => false
  end.

(** Rewrite the children of [field.parentNode]. *)
Fixpoint in_parent (k : nat) (g : list node -> list node) (t : node) : node :=
  match t with
  | Box kids =>
      let kids' := List.map (in_parent k g) kids in
      if existsb (is_field_key k) kids then Box (g kids') else Box kids'
  | _ => t
  end.

Section CutFirst.
Variable cut : node -> option node.

(** Remove the first annotation among the nodes [l] and their descendants. *)
Fixpoint cut_kids (l : list node) : option (list node) :=
  match l with
  | [] => None
  | Feedback _ :: r => Some r
  | n :: r =>
      match cut n with
      | Some n' => Some (n' :: r)
      | None => cons n <$> cut_kids r
      end
  end.
End CutFirst.

Fixpoint cut_feedback (t : node) : option node :=
  match t with
  | Box kids => Box <$> cut_kids cut_feedback kids
  | _ => None
  end.

(** [const e = parent.querySelector('.invalid-feedback'); if (e) e.remove()] *)
Definition remove_first_feedback (kids : list node) : list node :=
  match cut_kids cut_feedback kids with
  | Some kids' => kids'
  | None => kids
  end.

Definition clearFieldError (k : nat) (t : node) : node :=
  in_parent k remove_first_feedback (update_field k (with_invalid false) t).

Definition showFieldError (k : nat) (message : string) (t : node) : node :=
  in_parent k (fun kids => kids ++ [Feedback message])
    (update_field k (with_invalid true) (clearFieldError k t)).

(** *** The selectors of the date range

    [:first-of-type] holds of an element with no earlier sibling of its tag,
    [:last-of-type] of one with no later sibling of its tag: the compound
    selector [input[type="datetime-local"]:first-of-type] picks a date input
    that is the first [input] among the children of its parent. *)

Definition is_input (n : node) : bool :=
  match n with
  | Field _ f => match f_tag f with TagInput => true | TagSelect => false end
  | _ => false
  end.

Definition is_date_input (n : node) : bool :=
  match n with
  | Field _ f => is_input n && String.eqb (f_type f) "datetime-local"
  | _ => false
  end.

Definition date_first_of_type (before : list node) (n : node) (after : list node) : bool :=
  is_date_input n && forallb (fun m => negb (is_input m)) before.

Definition date_last_of_type (before : list node) (n : node) (after : list node) : bool :=
  is_date_input n && forallb (fun m => negb (is_input m)) after.

Section QuerySiblings.
Variable sel : list node -> node -> list node -> bool.
Variable inside : node -> option (nat * field).

Fixpoint query_kids (before l : list node) : option (nat * field) :=
  match l with
  | [] => None
  | n :: after =>
      match (if sel before n after
             then match n with Field k f => Some (k, f) | _ => None end
             else None) with
      | Some r => Some r
      | None =>
          match inside n with
          | Some r => Some r
          | None => query_kids (before ++ [n]) after
          end
      end
  end.
End QuerySiblings.

(** [root.querySelector(sel)] for a selector on controls that looks at the
    siblings: the first match among the descendants, in document order. *)
Fixpoint query_sel (sel : list node -> node -> list node -> bool) (t : node)
  : option (nat * field) :=
  match t with
  | Box kids => query_kids sel (query_sel sel) [] kids
  | _ => None
  end.

(** ** The host environment

    [Date_parse s] is the time value of [new Date(s)], [None] for an invalid
    date; [startOfDay t] is the time value after [setHours(0,0,0,0)] on the
    date of time value [t]. *)
Class Host : Type := {
  Date_parse : string -> option Z;
  startOfDay : Z -> Z
}.

(** [a < b] and [a <= b] on dates: false as soon as one of them is invalid. *)
Definition date_lt (a b : option Z) : bool :=
  match a, b with
  | Some x, Some y => x <? y
  | _, _ => false
  end.

Definition date_le (a b : option Z) : bool :=
  match a, b with
  | Some x, Some y => x <=? y
  | _, _ => false
  end.

Definition msg_required : string := "This field is required".
Definition msg_email : string := "Please enter a valid email address".
Definition msg_phone : string := "Please enter a valid phone number".
Definition msg_date : string := "Please select a future date".
Definition msg_range : string := "Check-out date must be after check-in date".

Section Validation.
Context `{Host}.

(** The verdict of [validateField]: the flag [isValid] and [errorMessage]
    after the four rules have run in order. *)
Definition checkField (clock : Z) (f : field) : bool * string :=
  let value := trim (f_value f) in
  let r0 := (true, EmptyString) in
  let r1 :=
    if f_required f && negb (truthy value) then (false, msg_required) else r0 in
  let r2 :=
    if String.eqb (f_type f) "email" && truthy value then
      if negb (test emailRegex value) then (false, msg_email) else r1
    else r1 in
  let r3 :=
    if String.eqb (f_type f) "tel" && truthy value then
      if negb (test phoneRegex
                 (unchars (remove_class is_phone_filler (chars value))))
      then (false, msg_phone) else r2
    else r2 in
  let r4 :=
    if String.eqb (f_type f) "datetime-local" && truthy value then
      if date_lt (Date_parse value) (Some (startOfDay clock))
      then (false, msg_date) else r3
    else r3 in
  r4.

Definition validateField (clock : Z) (k : nat) (t : node) : node * bool :=
  match field_of k t with
  | None => (t, true)
  | Some f =>
      let (isValid, errorMessage) := checkField clock f in
      if isValid then (clearFieldError k t, true)
      else (showFieldError k errorMessage t, false)
  end.

(** [querySelectorAll('input[required], select[required]')] *)
Definition requiredFields (t : node) : list nat :=
  List.map fst (List.filter (fun kf => f_required (snd kf)) (fields t)).

Fixpoint validateAll (clock : Z) (ks : list nat) (t : node) (isValid : bool)
  : node * bool :=
  match ks with
  | [] => (t, isValid)
  | k :: ks' =>
      let (t', ok) := validateField clock k t in
      validateAll clock ks' t' (if ok then isValid else false)
  end.

Definition checkinInput (t : node) : option (nat * field) :=
  query_sel date_first_of_type t.

Definition checkoutInput (t : node) : option (nat * field) :=
  query_sel date_last_of_type t.

(** The key of the check-out input when the date-range test of
    [validateBookingForm] reports an error. *)
Definition dateRangeError (t : node) : option nat :=
  match checkinInput t, checkoutInput t with
  | Some (_, ci), Some (ko, co) =>
      if truthy (f_value ci) && truthy (f_value co) then
        if date_le (Date_parse (f_value co)) (Date_parse (f_value ci))
        then Some ko else None
      else None
  | _, _ => None
  end.

Definition validateBookingForm (clock : Z) (form : node) : node * bool :=
  let (t, isValid) := validateAll clock (requiredFields form) form true in
  match dateRangeError t with
  | Some ko => (showFieldError ko msg_range t, false)
  | None => (t, isValid)
  end.
End Validation.

(** ** Page state *)

Record button : Type := mkButton {
  b_text : string;          (* [textContent] *)
  b_disabled : bool
}.

(** A banner appended to the body by [showNotification]. *)
Record notification : Type := mkNote {
  n_key : nat;
  n_class : string;         (* [className] *)
  n_kids : list hnode;      (* the children parsed from [innerHTML] *)
  n_transform : string      (* [style.transform] *)
}.

(** An element wrapped by a Bootstrap widget. *)
Record widget_el : Type := mkWidget {
  w_key : nat;
  w_id : string;
  w_className : string
}.

Inductive transform : Type :=
| NoTransform
| Translate3d (x y z : Q).

Record image : Type := mkImage {
  i_key : nat;
  i_transform : transform
}.

(** The callbacks handed to [setTimeout], with what their closure captured. *)
Inductive callback : Type :=
| BookingDone (originalText : string)
| NewsletterDone (originalText : string)
| SlideIn (n : nat)
| AutoHide (n : nat)
| Detach (n : nat).

Record timer : Type := mkTimer {
  due : Z;
  cb : callback
}.

Record Booking : Type := mkBooking {
  bk_form : node;
  bk_button : button
}.

Record Newsletter : Type := mkNewsletter {
  nl_form : node;
  nl_button : option button     (* [form.querySelector('button[type="submit"]')] *)
}.

Record Parallax : Type := mkParallax {
  ticking : bool;
  px_images : list image
}.

Record State : Type := mkState {
  now : Z;                              (* clock, in milliseconds *)
  timers : list timer;                  (* pending [setTimeout] callbacks *)
  raf : nat;                            (* queued [requestAnimationFrame(updateParallax)] *)
  booking : option Booking;             (* present when the booking handlers are bound *)
  newsletter : option Newsletter;       (* present when the newsletter handler is bound *)
  parallax : option Parallax;           (* present when the scroll listener is bound *)
  pageYOffset : Q;
  notes : list notification;            (* the elements of class [experience-notification] *)
  fresh : nat;                          (* next key of a created element *)
  modals : gmap string nat;             (* [this.modals]: id to wrapped element *)
  dropdowns : gmap string nat;          (* [this.dropdowns] *)
  open_modals : gset nat;               (* the modal elements currently shown *)
  doc_modals : list widget_el;          (* the [.modal] elements of the document *)
  doc_toggles : list widget_el          (* the [.dropdown-toggle] elements of the document *)
}.

Definition set_now (v : Z) (s : State) : State :=
  mkState v (timers s) (raf s) (booking s) (newsletter s) (parallax s)
    (pageYOffset s) (notes s) (fresh s) (modals s) (dropdowns s)
    (open_modals s) (doc_modals s) (doc_toggles s).

Definition set_timers (v : list timer) (s : State) : State :=
  mkState (now s) v (raf s) (booking s) (newsletter s) (parallax s)
    (pageYOffset s) (notes s) (fresh s) (modals s) (dropdowns s)
    (open_modals s) (doc_modals s) (doc_toggles s).

Definition set_raf (v : nat) (s : State) : State :=
  mkState (now s) (timers s) v (booking s) (newsletter s) (parallax s)
    (pageYOffset s) (notes s) (fresh s) (modals s) (dropdowns s)
    (open_modals s) (doc_modals s) (doc_toggles s).

Definition set_booking (v : option Booking) (s : State) : State :=
  mkState (now s) (timers s) (raf s) v (newsletter s) (parallax s)
    (pageYOffset s) (notes s) (fresh s) (modals s) (dropdowns s)
    (open_modals s) (doc_modals s) (doc_toggles s).

Definition set_newsletter (v : option Newsletter) (s : State) : State :=
  mkState (now s) (timers s) (raf s) (booking s) v (parallax s)
    (pageYOffset s) (notes s) (fresh s) (modals s) (dropdowns s)
    (open_modals s) (doc_modals s) (doc_toggles s).

Definition set_parallax (v : option Parallax) (s : State) : State :=
  mkState (now s) (timers s) (raf s) (booking s) (newsletter s) v
    (pageYOffset s) (notes s) (fresh s) (modals s) (dropdowns s)
    (open_modals s) (doc_modals s) (doc_toggles s).

Definition set_pageYOffset (v : Q) (s : State) : State :=
  mkState (now s) (timers s) (raf s) (booking s) (newsletter s) (parallax s)
    v (notes s) (fresh s) (modals s) (dropdowns s)
    (open_modals s) (doc_modals s) (doc_toggles s).

Definition set_notes (v : list notification) (s : State) : State :=
  mkState (now s) (timers s) (raf s) (booking s) (newsletter s) (parallax s)
    (pageYOffset s) v (fresh s) (modals s) (dropdowns s)
    (open_modals s) (doc_modals s) (doc_toggles s).

Definition set_fresh (v : nat) (s : State) : State :=
  mkState (now s) (timers s) (raf s) (booking s) (newsletter s) (parallax s)
    (pageYOffset s) (notes s) v (modals s) (dropdowns s)
    (open_modals s) (doc_modals s) (doc_toggles s).

Definition set_open_modals (v : gset nat) (s : State) : State :=
  mkState (now s) (timers s) (raf s) (booking s) (newsletter s) (parallax s)
    (pageYOffset s) (notes s) (fresh s) (modals s) (dropdowns s)
    v (doc_modals s) (doc_toggles s).

Definition set_doc_modals (v : list widget_el) (s : State) : State :=
  mkState (now s) (timers s) (raf s) (booking s) (newsletter s) (parallax s)
    (pageYOffset s) (notes s) (fresh s) (modals s) (dropdowns s)
    (open_modals s) v (doc_toggles s).

Definition set_doc_toggles (v : list widget_el) (s : State) : State :=
  mkState (now s) (timers s) (raf s) (booking s) (newsletter s) (parallax s)
    (pageYOffset s) (notes s) (fresh s) (modals s) (dropdowns s)
    (open_modals s) (doc_modals s) v.

(** A handler either returns or is cut short by a [TypeError]; what it did
    to the page before stays done. *)
Inductive outcome : Type :=
| Returned (s : State)
| Threw (s : State).

Definition state_of (o : outcome) : State :=
  match o with
  | Returned s => s
  | Threw s => s
  end.

Definition and_then (o : outcome) (k : State -> outcome) : outcome :=
  match o with
  | Returned s => k s
  | Threw s => Threw s
  end.

Notation "o >>> k" := (and_then o k) (at level 61, left associativity).

(** [setTimeout(cb, delay)] *)
Definition setTimeout (c : callback) (delay : Z) (s : State) : State :=
  set_timers (timers s ++ [mkTimer (now s + delay) c]) s.

(** ** Widget registries *)

(** [initializeModals] *)
Definition initializeModals (els : list widget_el) (m : gmap string nat)
  : gmap string nat :=
  fold_left (fun m el => <[w_id el := w_key el]> m) els m.

(** [dropdownElement.id || dropdownElement.className] *)
Definition dropdown_key (el : widget_el) : string :=
  if truthy (w_id el) then w_id el else w_className el.

(** [initializeDropdowns] *)
Definition initializeDropdowns (els : list widget_el) (m : gmap string nat)
  : gmap string nat :=
  fold_left (fun m el => <[dropdown_key el := w_key el]> m) els m.

(** ** Parallax *)

Definition parallax_rate (scrolled : Q) : Q := (scrolled * - (1 # 2))%Q.

Definition updateParallax (s : State) : State :=
  match parallax s with
  | None => s
  | Some p =>
      let scrolled := pageYOffset s in
      let moved :=
        List.map (fun e => mkImage (i_key e)
                             (Translate3d 0 (parallax_rate scrolled) 0))
          (px_images p) in
      set_parallax (Some (mkParallax false moved)) s
  end.

Definition requestParallaxUpdate (s : State) : State :=
  match parallax s with
  | None => s
  | Some p =>
      if negb (ticking p)
      then set_parallax (Some (mkParallax true (px_images p)))
             (set_raf (S (raf s)) s)
      else s
  end.

(** ** Notifications *)

Definition dq : string := String "034" EmptyString.
Definition nl : string := String "010" EmptyString.

Definition html_prefix : string :=
  nl +:+
  "            <div class=" +:+ dq +:+ "experience-notification__content" +:+ dq +:+ ">" +:+ nl +:+
  "                <span class=" +:+ dq +:+ "experience-notification__message" +:+ dq +:+ ">".

Definition html_suffix : string :=
  "</span>" +:+ nl +:+
  "                <button class=" +:+ dq +:+ "experience-notification__close" +:+ dq +:+
  " type=" +:+ dq +:+ "button" +:+ dq +:+
  " aria-label=" +:+ dq +:+ "Close" +:+ dq +:+ ">" +:+ nl +:+
  "                    <i class=" +:+ dq +:+ "bi bi-x-lg" +:+ dq +:+ "></i>" +:+ nl +:+
  "                </button>" +:+ nl +:+
  "            </div>" +:+ nl +:+
  "        ".

(** The template literal assigned to [innerHTML]. *)
Definition notification_html (message : string) : string :=
  html_prefix +:+ message +:+ html_suffix.

Definition slid_out : string := "translateX(100%)".
Definition slid_in : string := "translateX(0)".

Definition set_transform (k : nat) (v : string) (l : list notification)
  : list notification :=
  List.map (fun n => if Nat.eqb (n_key n) k
                     then mkNote (n_key n) (n_class n) (n_kids n) v else n) l.

Definition attached (k : nat) (s : State) : bool :=
  existsb (fun n => Nat.eqb (n_key n) k) (notes s).

Definition hideNotification (k : nat) (s : State) : State :=
  setTimeout (Detach k) 300 (set_notes (set_transform k slid_out (notes s)) s).

Definition showNotification (message type : string) (s : State) : outcome :=
  let k := fresh s in
  let n := mkNote k ("experience-notification experience-notification--" +:+ type)
             (parse_fragment (notification_html message)) slid_out in
  let s1 := set_fresh (S k) (set_notes [n] s) in
  let s2 := setTimeout (SlideIn k) 100 s1 in
  match query_class "experience-notification__close" (n_kids n) with
  | None => Threw s2
  | Some _ => Returned (setTimeout (AutoHide k) 5000 s2)
  end.

(** The click listener of the close control of banner [k]; the control can
    be clicked while its banner is in the page. *)
Definition closeClick (k : nat) (s : State) : State :=
  match List.find (fun n => Nat.eqb (n_key n) k) (notes s) with
  | None => s
  | Some n =>
      match query_class "experience-notification__close" (n_kids n) with
      | None => s
      | Some _ => hideNotification k s
      end
  end.

(** ** Booking form *)

(** [data[key] = value] on a plain object: the key [__proto__] is the
    inherited accessor, which ignores a string. *)
Definition obj_set (key value : string) (data : gmap string string)
  : gmap string string :=
  if String.eqb key "__proto__" then data else <[key := value]> data.

(** [input.name || input.id] *)
Definition field_key (f : field) : string :=
  if truthy (f_name f) then f_name f else f_id f.

Definition collectFormData (form : node) : gmap string string :=
  fold_left
    (fun data kf =>
       let input := snd kf in
       if truthy (f_name input) || truthy (f_id input)
       then obj_set (field_key input) (f_value input) data
       else data)
    (fields form) ∅.

(** [form.reset()]: every control goes back to its default value. *)
Fixpoint reset_form (t : node) : node :=
  match t with
  | Field k f => Field k (with_value (f_default f) f)
  | Feedback _ => t
  | Box kids => Box (List.map reset_form kids)
  end.

Definition submitBookingForm (formData : gmap string string) (s : State) : State :=
  match booking s with
  | None => s
  | Some b =>
      let submitButton := bk_button b in
      let originalText := b_text submitButton in
      setTimeout (BookingDone originalText) 2000
        (set_booking (Some (mkBooking (bk_form b) (mkButton "SUBMITTING..." true))) s)
  end.

Definition bookingDone (originalText : string) (s : State) : outcome :=
  let s1 :=
    match booking s with
    | None => s
    | Some b => set_booking (Some (mkBooking (bk_form b) (mkButton originalText false))) s
    end in
  showNotification "Booking request submitted successfully!" "success" s1 >>> fun s2 =>
  let s3 :=
    match modals s2 !! "bookingModal" with
    | Some bookingModal => set_open_modals (open_modals s2 ∖ {[bookingModal]}) s2
    | None => s2
    end in
  Returned
    match booking s3 with
    | None => s3
    | Some b => set_booking (Some (mkBooking (reset_form (bk_form b)) (bk_button b))) s3
    end.

Section Handlers.
Context `{Host}.

Definition handleBookingSubmission (s : State) : State :=
  match booking s with
  | None => s
  | Some b =>
      let (form, ok) := validateBookingForm (now s) (bk_form b) in
      let s1 := set_booking (Some (mkBooking form (bk_button b))) s in
      if ok then submitBookingForm (collectFormData form) s1 else s1
  end.

(** The [blur] listener of a booking control. *)
Definition onBlur (k : nat) (s : State) : State :=
  match booking s with
  | None => s
  | Some b =>
      set_booking
        (Some (mkBooking (fst (validateField (now s) k (bk_form b))) (bk_button b))) s
  end.

(** The user sets control [k] to [v]; its [input] listener clears the error. *)
Definition onInput (k : nat) (v : string) (s : State) : State :=
  match booking s with
  | None => s
  | Some b =>
      set_booking
        (Some (mkBooking
                 (clearFieldError k (update_field k (with_value v) (bk_form b)))
                 (bk_button b))) s
  end.
End Handlers.

(** ** Newsletter form *)

(** [form.querySelector('input[type="email"]')] *)
Definition emailInput (form : node) : option (nat * field) :=
  List.find (fun kf => is_input (Field (fst kf) (snd kf))
                       && String.eqb (f_type (snd kf)) "email") (fields form).

Definition handleNewsletterSubmission (s : State) : outcome :=
  match newsletter s with
  | None => Returned s
  | Some f =>
      match emailInput (nl_form f) with
      | None => Threw s
      | Some (_, input) =>
          let email := trim (f_value input) in
          if negb (truthy email) then
            showNotification "Please enter your email address" "error" s
          else if negb (test emailRegex email) then
            showNotification "Please enter a valid email address" "error" s
          else
            match nl_button f with
            | None => Threw s
            | Some submitButton =>
                let originalText := b_text submitButton in
                Returned
                  (setTimeout (NewsletterDone originalText) 1500
                     (set_newsletter
                        (Some (mkNewsletter (nl_form f)
                                 (Some (mkButton "Subscribing..." true)))) s))
            end
      end
  end.

Definition newsletterDone (originalText : string) (s : State) : outcome :=
  let s1 :=
    match newsletter s with
    | None => s
    | Some f =>
        set_newsletter
          (Some (mkNewsletter (nl_form f)
                   (match nl_button f with
                    | Some _ => Some (mkButton originalText false)
                    | None => None
                    end))) s
    end in
  showNotification "Thank you for subscribing to our newsletter!" "success" s1 >>> fun s2 =>
  Returned
    match newsletter s2 with
    | None => s2
    | Some f => set_newsletter (Some (mkNewsletter (reset_form (nl_form f)) (nl_button f))) s2
    end.

(** ** The event loop *)

(** The timer that is due first, the older one among equals, and the rest
    of the queue. *)
Fixpoint pop_timer (l : list timer) : option (timer * list timer) :=
  match l with
  | [] => None
  | t :: r =>
      match pop_timer r with
      | Some (u, r') => if due u <? due t then Some (u, t :: r') else Some (t, r)
      | None => Some (t, [])
      end
  end.

Definition run_callback (c : callback) (s : State) : outcome :=
  match c with
  | BookingDone originalText => bookingDone originalText s
  | NewsletterDone originalText => newsletterDone originalText s
  | SlideIn k => Returned (set_notes (set_transform k slid_in (notes s)) s)
  | AutoHide k => Returned (if attached k s then hideNotification k s else s)
  | Detach k =>
      Returned (set_notes (List.filter (fun n => negb (Nat.eqb (n_key n) k)) (notes s)) s)
  end.

(** The next timer fires, at its due time. *)
Definition fire (s : State) : State :=
  match pop_timer (timers s) with
  | None => s
  | Some (t, rest) =>
      state_of (run_callback (cb t) (set_now (Z.max (now s) (due t)) (set_timers rest s)))
  end.

(** Time passes, up to the next due time. *)
Definition wait (d : Z) (s : State) : State :=
  if d <? 0 then s
  else
    match pop_timer (timers s) with
    | None => set_now (now s + d) s
    | Some (t, _) => set_now (Z.min (now s + d) (Z.max (now s) (due t))) s
    end.

(** An animation frame: the queued callbacks run, the queue starts anew. *)
Definition frame (s : State) : State :=
  Nat.iter (raf s) updateParallax (set_raf 0 s).

Inductive event : Type :=
| BookingSubmit                       (* click on the submit button, or [submit] on the form *)
| Blur (k : nat)
| Input (k : nat) (v : string)
| NewsletterEdit (k : nat) (v : string)
| NewsletterSubmit
| Notify (message type : string)      (* a call of [showNotification] *)
| CloseClick (k : nat)
| Scroll (y : Q)
| Frame
| Fire
| Wait (d : Z)
| OpenModal (k : nat)
| InsertModal (el : widget_el)        (* an element added to the page later on *)
| InsertToggle (el : widget_el).

Section Machine.
Context `{Host}.

Definition step (e : event) (s : State) : State :=
  match e with
  | BookingSubmit => handleBookingSubmission s
  | Blur k => onBlur k s
  | Input k v => onInput k v s
  | NewsletterEdit k v =>
      match newsletter s with
      | None => s
      | Some f =>
          set_newsletter
            (Some (mkNewsletter (update_field k (with_value v) (nl_form f))
                     (nl_button f))) s
      end
  | NewsletterSubmit => state_of (handleNewsletterSubmission s)
  | Notify message type => state_of (showNotification message type s)
  | CloseClick k => closeClick k s
  | Scroll y => requestParallaxUpdate (set_pageYOffset y s)
  | Frame => frame s
  | Fire => fire s
  | Wait d => wait d s
  | OpenModal k => set_open_modals (open_modals s ∪ {[k]}) s
  | InsertModal el => set_doc_modals (doc_modals s ++ [el]) s
  | InsertToggle el => set_doc_toggles (doc_toggles s ++ [el]) s
  end.

Definition run (es : list event) (s : State) : State :=
  fold_left (fun s e => step e s) es s.
End Machine.

(** ** Initialisation *)

(** The document when the controller is constructed. *)
Record Page : Type := mkPage {
  pg_clock : Z;
  pg_scroll : Q;
  pg_modals : list widget_el;            (* [querySelectorAll('.modal')] *)
  pg_toggles : list widget_el;           (* [querySelectorAll('.dropdown-toggle')] *)
  pg_images : list image;                (* [querySelectorAll('.experience-parallax__image')] *)
  pg_reducedMotion : bool;               (* [matchMedia('(prefers-reduced-motion: reduce)').matches] *)
  pg_bookingForm : option node;
  pg_submitButton : option button;
  pg_newsletterForm : option node;
  pg_newsletterButton : option button;
  pg_fresh : nat
}.

(** [setupParallaxEffect] *)
Definition setupParallaxEffect (p : Page) : option Parallax :=
  if (0 <? length (pg_images p))%nat then
    if negb (pg_reducedMotion p) then Some (mkParallax false (pg_images p))
    else None
  else None.

(** [bindBookingFormEvents] *)
Definition bindBookingFormEvents (p : Page) : option Booking :=
  match pg_bookingForm p, pg_submitButton p with
  | Some bookingForm, Some submitButton => Some (mkBooking bookingForm submitButton)
  | _, _ => None
  end.

(** [bindNewsletterEvents] *)
Definition bindNewsletterEvents (p : Page) : option Newsletter :=
  match pg_newsletterForm p with
  | Some newsletterForm => Some (mkNewsletter newsletterForm (pg_newsletterButton p))
  | None => None
  end.

(** The constructor: [setupComponents] then [bindEvents]. *)
Definition init (p : Page) : State :=
  mkState (pg_clock p) [] 0
    (bindBookingFormEvents p) (bindNewsletterEvents p) (setupParallaxEffect p)
    (pg_scroll p) [] (pg_fresh p)
    (initializeModals (pg_modals p) ∅)
    (initializeDropdowns (pg_toggles p) ∅)
    ∅ (pg_modals p) (pg_toggles p).

(** ** A reference host

    Dates in the form [YYYY-MM-DDTHH:MM] that a [datetime-local] input
    holds, read in a zone without offset; days are counted from the civil
    date. *)

Definition digit_val (c : ascii) : option Z :=
  if is_digit c then Some (Z.of_nat (code c) - 48) else None.

Fixpoint number_of (acc : Z) (l : list ascii) : option Z :=
  match l with
  | [] => Some acc
  | c :: r =>
      match digit_val c with
      | Some d => number_of (10 * acc + d) r
      | None => None
      end
  end.

Definition days_from_civil (y m d : Z) : Z :=
  let y' := if m <=? 2 then y - 1 else y in
  let era := y' / 400 in
  let yoe := y' - era * 400 in
  let mp := (m + 9) mod 12 in
  let doy := (153 * mp + 2) / 5 + d - 1 in
  let doe := yoe * 365 + yoe / 4 - yoe / 100 + doy in
  era * 146097 + doe - 719468.

Definition iso_local (s : string) : option Z :=
  match chars s with
  | [y1; y2; y3; y4; "-"%char; m1; m2; "-"%char; d1; d2; "T"%char;
     h1; h2; ":"%char; n1; n2] =>
      match number_of 0 [y1; y2; y3; y4], number_of 0 [m1; m2],
            number_of 0 [d1; d2], number_of 0 [h1; h2], number_of 0 [n1; n2] with
      | Some y, Some m, Some d, Some h, Some n =>
          if (1 <=? m) && (m <=? 12) && (1 <=? d) && (d <=? 31)
             && (h <=? 23) && (n <=? 59)
          then Some (((days_from_civil y m d * 24 + h) * 60 + n) * 60000)
          else None
      | _, _, _, _, _ => None
      end
  | _ => None
  end.

Definition isoHost : Host :=
  {| Date_parse := iso_local;
     startOfDay := fun t => t - t mod 86400000 |}.

(** ** Vocabulary of the specification *)

(** An optional leading [+], then 1 to 16 digits whose first is not zero. *)
Definition phone_shape (l : list ascii) : Prop :=
  exists sign digits,
    l = sign ++ digits /\
    (sign = [] \/ sign = ["+"%char]) /\
    (1 <= length digits <= 16)%nat /\
    forallb is_digit digits = true /\
    hd_error digits <> Some "0"%char.

(** The formatting characters the specification lists: space, hyphen and
    the two parentheses. *)
Definition is_listed_filler (c : ascii) : bool :=
  is_char " " c || is_char "-" c || is_char "(" c || is_char ")" c.

Definition tel_field (required : bool) (v : string) : field :=
  mkField TagInput "tel" "phone" "phone" required v EmptyString false.

(** The data of a control: everything but the error mark. *)
Definition datum (f : field) : field := with_invalid false f.

(** The form without its error marks and annotations; changes of value,
    type and position of the controls are all that shows in it. *)
Fixpoint skeleton (t : node) : list node :=
  match t with
  | Field k f => [Field k (datum f)]
  | Feedback _ => []
  | Box kids => [Box (flat_kids skeleton kids)]
  end.

Definition keys (t : node) : list nat := List.map fst (fields t).

(** The texts of [field.parentNode.querySelectorAll('.invalid-feedback')]
    for the control of key [k]. *)
Fixpoint annotations (k : nat) (t : node) : list string :=
  match t with
  | Box kids =>
      (if existsb (is_field_key k) kids then flat_kids feedbacks kids else [])
      ++ flat_kids (annotations k) kids
  | _ => []
  end.

Definition is_field (n : node) : bool :=
  match n with
  | Field _ _ => true
  | _ => false
  end.

(** Every control is the only control inside its parent element. *)
Fixpoint tidy (t : node) : bool :=
  match t with
  | Box kids =>
      if existsb is_field kids
      then (length (flat_kids fields kids) =? 1)%nat
      else forallb tidy kids
  | _ => true
  end.

Fixpoint distinct (l : list nat) : bool :=
  match l with
  | [] => true
  | x :: r => negb (existsb (Nat.eqb x) r) && distinct r
  end.

Definition erase (kf : nat * field) : nat * field := (fst kf, datum (snd kf)).

(** The controls of a form with their data, in document order. *)
Definition data (t : node) : list (nat * field) := List.map erase (fields t).

(** The selector run on the skeleton of a node. *)
Definition query_skeleton (sel : list node -> node -> list node -> bool) (t : node)
  : option (nat * field) :=
  match skeleton t with
  | [m] => query_sel sel m
  | _ => None
  end.

Definition date_field (k : string) (required : bool) (v : string) : field :=
  mkField TagInput "datetime-local" k k required v EmptyString false.

Definition text_field (k : string) (required : bool) (v : string) : field :=
  mkField TagInput "text" k k required v EmptyString false.

Section Verdicts.
Context `{Host}.

(** Whether the control of key [k] passes its own rules. *)
Definition verdict (clock : Z) (t : node) (k : nat) : bool :=
  match field_of k t with
  | Some f => fst (checkField clock f)
  | None => true
  end.
End Verdicts.

(** The [datetime-local] inputs of a form, in document order. *)
Definition date_inputs (t : node) : list (nat * field) :=
  List.filter (fun kf => is_date_input (Field (fst kf) (snd kf))) (fields t).

(** The parent of control [k] has no other [input] child. *)
Fixpoint lone_input (k : nat) (t : node) : bool :=
  match t with
  | Box kids =>
      (if existsb (is_field_key k) kids
       then (length (List.filter is_input kids) <=? 1)%nat else true)
      && forallb (lone_input k) kids
  | _ => true
  end.

(** The form holds its check-in input [ki] and its check-out input [ko] in
    one parent element, check-in as the first and check-out as the last
    [input] child of that parent, and holds no other date input. *)
Inductive stay_pair (ki : nat) (ci : field) (ko : nat) (co : field) : node -> Prop :=
| SP_row (pre mid post : list node) :
    is_date_input (Field ki ci) = true ->
    is_date_input (Field ko co) = true ->
    forallb (fun m => negb (is_input m)) pre = true ->
    forallb (fun m => negb (is_input m)) post = true ->
    flat_kids date_inputs (pre ++ mid ++ post) = [] ->
    stay_pair ki ci ko co (Box (pre ++ Field ki ci :: mid ++ Field ko co :: post))
| SP_inside (l : list node) (n : node) (r : list node) :
    stay_pair ki ci ko co n ->
    flat_kids date_inputs (l ++ r) = [] ->
    stay_pair ki ci ko co (Box (l ++ n :: r)).

(** A form with a check-in and a check-out input side by side. *)
Definition stay_form (checkin checkout : string) : node :=
  Box [Field 1 (date_field "checkin" true checkin);
       Field 2 (date_field "checkout" true checkout)].

(** The last element of [els] filed under [key] by the key function [kf]. *)
Definition last_keyed (kf : widget_el -> string) (key : string)
  (els : list widget_el) : option widget_el :=
  List.find (fun el => String.eqb (kf el) key) (rev els).

(** No pending timer is overdue. *)
Definition clock_sound (s : State) : Prop :=
  Forall (fun t => now s <= due t) (timers s).

(** The scroll listener keeps at most one frame request queued, and the
    flag [ticking] tells whether one is. *)
Definition frame_discipline (s : State) : Prop :=
  (raf s <= 1)%nat /\
  match parallax s with
  | Some p => ticking p = true <-> raf s = 1%nat
  | None => raf s = 0%nat
  end.

(** Two dropdown toggles without an id that carry the same classes. *)
Definition twin_toggles : Page :=
  mkPage 0 0 []
    [mkWidget 1 EmptyString "nav-link dropdown-toggle";
     mkWidget 2 EmptyString "nav-link dropdown-toggle"]
    [] false None None None None 3.

Definition plain_page : Page :=
  mkPage 0 0
    [mkWidget 1 "bookingModal" "modal fade"]
    [mkWidget 2 "navbarDropdown" "nav-link dropdown-toggle"]
    [mkImage 3 NoTransform] false None None None None 4.

(** The banner [showNotification message type] creates under key [k]. *)
Definition banner (k : nat) (message type : string) : notification :=
  mkNote k ("experience-notification experience-notification--" +:+ type)
    (parse_fragment (notification_html message)) slid_out.

(** Whether the banner has a close control for the listener to sit on. *)
Definition has_close (n : notification) : bool :=
  match query_class "experience-notification__close" (n_kids n) with
  | Some _ => true
  | None => false
  end.

(** The text shown in the message slot of a banner:
    [querySelector('.experience-notification__message').textContent]. *)
Definition message_text (n : notification) : option string :=
  (fun span => unchars (text_content span))
    <$> query_class "experience-notification__message" (n_kids n).

(** The element children of the message slot. *)
Definition message_elements (n : notification) : list string :=
  match query_class "experience-notification__message" (n_kids n) with
  | Some (HElem _ _ kids) =>
      flat_nodes (fun c => match c with HElem tag _ _ => [tag] | HText _ => [] end) kids
  | _ => []
  end.

Definition msg_booked : string := "Booking request submitted successfully!".
Definition msg_subscribed : string := "Thank you for subscribing to our newsletter!".
Definition msg_no_email : string := "Please enter your email address".

(** The controls of a form filed in the submitted data, with key and value. *)
Definition named_values (form : node) : list (string * string) :=
  List.map (fun kf => (field_key (snd kf), f_value (snd kf)))
    (List.filter (fun kf => truthy (f_name (snd kf)) || truthy (f_id (snd kf)))
       (fields form)).

(** A booking page whose form asks for a number of guests, one by default. *)
Definition guests_page : Page :=
  mkPage 0 0 [mkWidget 1 "bookingModal" "modal fade"] [] [] false
    (Some (Box [Box [Field 2 (mkField TagInput "number" "guests" "guests" true "2" "1" false)]]))
    (Some (mkButton "BOOK NOW" false))
    None None 3.

(** A page with a newsletter form in its footer. *)
Definition footer_page (email : string) : Page :=
  mkPage 0 0 [] [] [] false None None
    (Some (Box [Field 1 (mkField TagInput "email" "email" "email" true email EmptyString false)]))
    (Some (mkButton "Subscribe" false)) 2.

(** The page after a call of [showNotification] that found its close
    control. *)
Definition notified (message type : string) (s : State) : State :=
  setTimeout (AutoHide (fresh s)) 5000
    (setTimeout (SlideIn (fresh s)) 100
       (set_fresh (S (fresh s)) (set_notes [banner (fresh s) message type] s))).

Section OwnError.
Context `{Host}.

(** The annotation a control earns from its own rules: its error message,
    if it has one. *)
Definition error_of (clock : Z) (f : field) : list string :=
  if fst (checkField clock f) then [] else [snd (checkField clock f)].
End OwnError.

Definition mem (k : nat) (ks : list nat) : bool := existsb (Nat.eqb k) ks.

(** A booking form with a required name, each control in a wrapper of its
    own. *)
Definition wrapped_form (name : string) : node :=
  Box [Box [Field 1 (text_field "name" true name)];
       Box [Field 2 (text_field "note" false "late arrival")]].

(** The same controls as children of the form itself. *)
Definition shared_form (name note : string) : node :=
  Box [Field 1 (text_field "name" true name);
       Field 2 (text_field "note" true note)].

Definition booking_page (form : node) : Page :=
  mkPage 0 0 [mkWidget 1 "bookingModal" "modal fade"] [] [] false
    (Some form) (Some (mkButton "BOOK NOW" false)) None None 10.

(** A message without markup: no [<], no [&], no NUL and no CR. *)
Definition plain_char (c : ascii) : bool :=
  negb (is_char "<" c || is_char "&" c || (code c =? 0)%nat || (code c =? 13)%nat).

Definition plain (message : string) : bool := forallb plain_char (chars message).

(** A line break and [n] spaces of the template, as character data. *)
Definition indent (n : nat) : list hnode := HText "010" :: repeat (HText " ") n.

(** The banner as the template lays it out, with [slot] in the message
    slot. *)
Definition banner_tree (slot : list hnode) : list hnode :=
  indent 12
  ++ [HElem "div" [("class", "experience-notification__content")]
        (indent 16
         ++ [HElem "span" [("class", "experience-notification__message")] slot]
         ++ indent 16
         ++ [HElem "button"
               [("class", "experience-notification__close"); ("type", "button");
                ("aria-label", "Close")]
               (indent 20 ++ [HElem "i" [("class", "bi bi-x-lg")] []] ++ indent 16)]
         ++ indent 12)]
  ++ indent 8.

(** The open elements once the template is read up to the message slot. *)
Definition slot_builder (rslot : list hnode) : builder :=
  ([("span", [("class", "experience-notification__message")], rslot);
    ("div", [("class", "experience-notification__content")], rev (indent 16))],
   rev (indent 12)).

(** ** Utilities: [debounce] and [throttle]

    Each returns a closure over one variable.  The state is that variable,
    the timers the closure has set and the calls of the wrapped function
    made so far; [A] is what a call passes on to the wrapped function. *)

(** What happens to a wrapped function: it is called, the next timer
    fires, or time passes. *)
Inductive uevent (A : Type) : Type :=
| UCall (a : A)
| UFire
| UWait (d : Z).

Arguments UCall {A} a.
Arguments UFire {A}.
Arguments UWait {A} d.

(** [setTimeout] reads a negative delay as zero. *)
Definition delay_of (ms : Z) : Z := Z.max 0 ms.

Section Debounce.
Context {A : Type}.
Variable wait : Z.

Record Debounced : Type := mkDebounced {
  d_now : Z;
  d_next : nat;                        (* the id of the next timer *)
  d_timeout : option nat;              (* [timeout], [None] while undefined *)
  d_pending : list (nat * (Z * A));    (* timers: id, due time, the [args] of [later] *)
  d_calls : list (Z * A)               (* calls of [func], with their time, latest first *)
}.

(** [clearTimeout(timeout)] *)
Definition clearTimeout (timeout : option nat) (l : list (nat * (Z * A)))
  : list (nat * (Z * A)) :=
  match timeout with
  | Some id => List.filter (fun t => negb (Nat.eqb (fst t) id)) l
  | None => l
  end.

(** [executedFunction(...args)] *)
Definition executedFunction (a : A) (s : Debounced) : Debounced :=
  let cleared := clearTimeout (d_timeout s) (d_pending s) in
  mkDebounced (d_now s) (S (d_next s)) (Some (d_next s))
    (cleared ++ [(d_next s, (d_now s + delay_of wait, a))]) (d_calls s).

(** [later], holding [args] *)
Definition later (a : A) (s : Debounced) : Debounced :=
  mkDebounced (d_now s) (d_next s) (d_timeout s)
    (clearTimeout (d_timeout s) (d_pending s)) ((d_now s, a) :: d_calls s).

(** The timer due first, the older one among equals, and the others. *)
Fixpoint pop_due (l : list (nat * (Z * A)))
  : option ((nat * (Z * A)) * list (nat * (Z * A))) :=
  match l with
  | [] => None
  | t :: r =>
      match pop_due r with
      | Some (u, r') =>
          if fst (snd u) <? fst (snd t) then Some (u, t :: r') else Some (t, r)
      | None => Some (t, [])
      end
  end.

Definition d_step (e : uevent A) (s : Debounced) : Debounced :=
  match e with
  | UCall a => executedFunction a s
  | UFire =>
      match pop_due (d_pending s) with
      | Some ((_, (due, a)), rest) =>
          later a (mkDebounced (Z.max (d_now s) due) (d_next s) (d_timeout s) rest
                     (d_calls s))
      | None => s
      end
  | UWait d =>
      if d <? 0 then s
      else
        let till := match pop_due (d_pending s) with
                    | Some ((_, (due, _)), _) => Z.min (d_now s + d) (Z.max (d_now s) due)
                    | None => d_now s + d
                    end in
        mkDebounced till (d_next s) (d_timeout s) (d_pending s) (d_calls s)
  end.

Definition d_run (es : list (uevent A)) (s : Debounced) : Debounced :=
  fold_left (fun s e => d_step e s) es s.

(** The closure as [debounce] returns it at time [t0]. *)
Definition debounce (t0 : Z) : Debounced := mkDebounced t0 0 None [] [].

Definition is_fire (e : uevent A) : bool :=
  match e with UFire => true | _ => false end.

(** At most one timer is pending, the one [timeout] names, and it is not
    overdue. *)
Definition d_sound (s : Debounced) : Prop :=
  d_pending s = []
  \/ exists id due a,
       d_pending s = [(id, (due, a))] /\ d_timeout s = Some id /\ d_now s <= due.
End Debounce.

Arguments Debounced : clear implicits.

Section Throttle.
Context {A : Type}.
Variable limit : Z.

Record Throttled : Type := mkThrottled {
  t_now : Z;
  t_inThrottle : bool;        (* [inThrottle], falsy at first *)
  t_pending : list Z;         (* due times of the timers that clear the flag *)
  t_calls : list (Z * A)      (* calls of [func], with their time, latest first *)
}.

(** The function [throttle] returns, called with [a]. *)
Definition throttled (a : A) (s : Throttled) : Throttled :=
  if negb (t_inThrottle s)
  then mkThrottled (t_now s) true (t_pending s ++ [t_now s + delay_of limit])
         ((t_now s, a) :: t_calls s)
  else s.

(** The earliest due time, and the others. *)
Fixpoint pop_min (l : list Z) : option (Z * list Z) :=
  match l with
  | [] => None
  | t :: r =>
      match pop_min r with
      | Some (u, r') => if u <? t then Some (u, t :: r') else Some (t, r)
      | None => Some (t, [])
      end
  end.

Definition t_step (e : uevent A) (s : Throttled) : Throttled :=
  match e with
  | UCall a => throttled a s
  | UFire =>
      match pop_min (t_pending s) with
      | Some (due, rest) => mkThrottled (Z.max (t_now s) due) false rest (t_calls s)
      | None => s
      end
  | UWait d =>
      if d <? 0 then s
      else
        let till := match pop_min (t_pending s) with
                    | Some (due, _) => Z.min (t_now s + d) (Z.max (t_now s) due)
                    | None => t_now s + d
                    end in
        mkThrottled till (t_inThrottle s) (t_pending s) (t_calls s)
  end.

Definition t_run (es : list (uevent A)) (s : Throttled) : Throttled :=
  fold_left (fun s e => t_step e s) es s.

(** The closure as [throttle] returns it at time [t0]. *)
Definition throttle (t0 : Z) : Throttled := mkThrottled t0 false [] [].

(** Times, latest first, that lie at least [d] apart. *)
Fixpoint spaced (d : Z) (l : list Z) : Prop :=
  match l with
  | x :: (y :: _) as r => y + d <= x /\ spaced d r
  | _ => True
  end.

(** The flag is set exactly while its timer is pending; the timer is due
    [limit] after the latest call, and while none is pending that long has
    passed. *)
Definition t_sound (s : Throttled) : Prop :=
  spaced (delay_of limit) (List.map fst (t_calls s))
  /\ if t_inThrottle s
     then exists t a rest,
            t_calls s = (t, a) :: rest
            /\ t_pending s = [t + delay_of limit]
            /\ t_now s <= t + delay_of limit
     else t_pending s = []
          /\ match t_calls s with
             | (t, _) :: _ => t + delay_of limit <= t_now s
             | [] => True
             end.
End Throttle.

Arguments Throttled : clear implicits.

(** ** Cards *)

Record card : Type := mkCard {
  c_transform : string;          (* [style.transform] *)
  c_tabindex : option string;    (* the [tabindex] attribute *)
  c_role : option string;        (* the [role] attribute *)
  c_clicks : nat                 (* [click] events fired by [card.click()] *)
}.

Inductive card_event : Type :=
| MouseEnter
| MouseLeave
| KeyDown (key : string).

(** What [bindCardInteractions] does to a card at once. *)
Definition bindCard (c : card) : card :=
  mkCard (c_transform c) (Some "0") (Some "button") (c_clicks c).

Definition bindCardInteractions (cards : list card) : list card :=
  List.map bindCard cards.

(** The listeners of a card; the flag tells whether the default action of
    the event was prevented. *)
Definition card_listener (e : card_event) (c : card) : card * bool :=
  match e with
  | MouseEnter =>
      (mkCard "translateY(-10px)" (c_tabindex c) (c_role c) (c_clicks c), false)
  | MouseLeave =>
      (mkCard "translateY(0)" (c_tabindex c) (c_role c) (c_clicks c), false)
  | KeyDown key =>
      if String.eqb key "Enter" || String.eqb key " "
      then (mkCard (c_transform c) (c_tabindex c) (c_role c) (S (c_clicks c)), true)
      else (c, false)
  end.

(** An event on the card at index [i]. *)
Definition cards_step (ie : nat * card_event) (cards : list card) : list card :=
  match cards !! fst ie with
  | Some c => <[fst ie := fst (card_listener (snd ie) c)]> cards
  | None => cards
  end.

Definition cards_run (es : list (nat * card_event)) (cards : list card) : list card :=
  fold_left (fun cs ie => cards_step ie cs) es cards.

(** The transform the mouse events of [es] on card [i] leave, [t] if there
    is none. *)
Fixpoint last_hover (i : nat) (es : list (nat * card_event)) (t : string) : string :=
  match es with
  | [] => t
  | (j, e) :: r =>
      last_hover i r
        (if Nat.eqb j i
         then match e with
              | MouseEnter => "translateY(-10px)"
              | MouseLeave => "translateY(0)"
              | KeyDown _ => t
              end
         else t)
  end.

(** The key presses of [es] on card [i] with Enter or the space bar. *)
Definition activations (i : nat) (es : list (nat * card_event)) : nat :=
  length (List.filter
            (fun ie => Nat.eqb (fst ie) i
                       && match snd ie with
                          | KeyDown key => String.eqb key "Enter" || String.eqb key " "
                          | _ => false
                          end) es).

(** ** Anchor links *)

Fixpoint starts_with (p s : list ascii) : bool :=
  match p, s with
  | [], _ => true
  | c :: p', d :: s' => Ascii.eqb c d && starts_with p' s'
  | _ :: _, [] => false
  end.

Fixpoint includes_chars (sub s : list ascii) : bool :=
  starts_with sub s
  || match s with
     | [] => false
     | _ :: r => includes_chars sub r
     end.

(** [s.includes(sub)] *)
Definition includes (sub s : string) : bool := includes_chars (chars sub) (chars s).

(** What [document.querySelector(href)] comes to: an element, [null], or a
    [SyntaxError] when [href] is no selector. *)
Inductive found : Type :=
| Target (el : nat)
| NoTarget
| BadSelector.

(** What a click on a link came to: whether the default action was
    prevented, the element scrolled into view, and whether the listener
    threw. *)
Record click_result : Type := mkClick {
  prevented : bool;
  scrolled : option nat;
  threw : bool
}.

Section Anchors.
Variable querySelector : string -> found.

(** The [click] listener of a link whose [href] attribute is [href]. *)
Definition anchorClick (href : string) : click_result :=
  if negb (String.eqb href "#") && negb (includes "Modal" href) then
    match querySelector href with
    | Target target => mkClick true (Some target) false
    | NoTarget => mkClick true None false
    | BadSelector => mkClick true None true
    end
  else mkClick false None false.
End Anchors.

(** ** Vocabulary of the further properties *)

(** A local part, an [@], a domain and, after a dot, an ending: three
    non-empty stretches without whitespace and without [@]. *)
Definition email_shape (l : list ascii) : Prop :=
  exists a b c,
    l = a ++ "@"%char :: b ++ "."%char :: c
    /\ a <> [] /\ b <> [] /\ c <> []
    /\ forallb not_space_at a = true
    /\ forallb not_space_at b = true
    /\ forallb not_space_at c = true.

Definition email_field (required : bool) (v : string) : field :=
  mkField TagInput "email" "email" "email" required v EmptyString false.

(** The banner a timer callback was set for. *)
Definition callback_key (c : callback) : option nat :=
  match c with
  | SlideIn k | AutoHide k | Detach k => Some k
  | BookingDone _ | NewsletterDone _ => None
  end.

(** Keys are handed out in order: the banners in the page and the banners
    that pending timers were set for were all created before. *)
Definition keys_fresh (s : State) : Prop :=
  List.Forall (fun t => match callback_key (cb t) with
                        | Some k => (k < fresh s)%nat
                        | None => True
                        end) (timers s)
  /\ List.Forall (fun n => (n_key n < fresh s)%nat) (notes s).

(** A page with a parallax image whose reader asks for reduced motion. *)
Definition still_page : Page :=
  mkPage 0 0 [] [] [mkImage 3 NoTransform] true None None None None 4.

(** * Properties *)

(** ** Strings and patterns *)

Lemma chars_unchars (l : list ascii) : chars (unchars l) = l.
Proof. apply list_ascii_of_string_of_list_ascii. Qed.

Lemma unchars_chars (s : string) : unchars (chars s) = s.
Proof. apply string_of_list_ascii_of_string. Qed.

Lemma truthy_true (s : string) : truthy s = true <-> s <> EmptyString.
Proof. destruct s; simpl; split; congruence. Qed.

Lemma truthy_false (s : string) : truthy s = false <-> s = EmptyString.
Proof. destruct s; simpl; split; congruence. Qed.

Lemma lang_void s : lang Void s <-> False.
Proof. split; [inversion 1 | tauto]. Qed.

Lemma lang_eps s : lang Eps s <-> s = [].
Proof. split; [inversion 1; reflexivity | intros ->; constructor]. Qed.

Lemma lang_class p s : lang (Class p) s <-> exists c, s = [c] /\ p c = true.
Proof.
  split.
  - inversion 1; subst; eauto.
  - intros (c & -> & Hc). now constructor.
Qed.

Lemma lang_cat r1 r2 s :
  lang (Cat r1 r2) s <-> exists u v, s = u ++ v /\ lang r1 u /\ lang r2 v.
Proof.
  split.
  - inversion 1; subst; eauto.
  - intros (u & v & -> & Hu & Hv). now constructor.
Qed.

Lemma lang_alt r1 r2 s : lang (Alt r1 r2) s <-> lang r1 s \/ lang r2 s.
Proof.
  split.
  - inversion 1; subst; auto.
  - intros [Hl | Hr]; [now apply L_alt_l | now apply L_alt_r].
Qed.

Lemma lang_opt r s : lang (Opt r) s <-> lang r s \/ s = [].
Proof. unfold Opt. now rewrite lang_alt, lang_eps. Qed.

(** A non-empty word of a starred pattern starts with a non-empty word of
    the pattern. *)
Lemma lang_star_cons r c s :
  lang (Star r) (c :: s) ->
  exists u v, s = u ++ v /\ lang r (c :: u) /\ lang (Star r) v.
Proof.
  intros Hs. remember (Star r) as q eqn:Eq. remember (c :: s) as w eqn:Ew.
  revert c s Ew.
  induction Hs as [ | | | | | | r' u v Hu _ Hv IHv]; try discriminate; intros c s Ew.
  injection Eq as ->.
  destruct u as [|d u]; simpl in Ew.
  - now apply IHv.
  - injection Ew as -> <-. eauto.
Qed.

Lemma nullable_lang r : nullable r = true <-> lang r [].
Proof.
  induction r as [ | | p | r1 IH1 r2 IH2 | r1 IH1 r2 IH2 | r IH]; simpl.
  - rewrite lang_void. split; [discriminate | tauto].
  - rewrite lang_eps. tauto.
  - rewrite lang_class. split; [discriminate | intros (c & Hc & _); discriminate].
  - rewrite andb_true_iff, IH1, IH2, lang_cat. split.
    + intros [H1 H2]. exists [], []. auto.
    + intros (u & v & Huv & Hu & Hv).
      symmetry in Huv. apply app_eq_nil in Huv as [-> ->]. auto.
  - now rewrite orb_true_iff, IH1, IH2, lang_alt.
  - split; [constructor | reflexivity].
Qed.

Lemma lang_deriv r c s : lang (deriv c r) s <-> lang r (c :: s).
Proof.
  revert s.
  induction r as [ | | p | r1 IH1 r2 IH2 | r1 IH1 r2 IH2 | r IH]; intros s; simpl.
  - now rewrite !lang_void.
  - rewrite lang_void, lang_eps. split; [tauto | discriminate].
  - rewrite lang_class. destruct (p c) eqn:Hp.
    + rewrite lang_eps. split.
      * intros ->. eauto.
      * intros (d & Hd & _). now injection Hd.
    + rewrite lang_void. split; [tauto |].
      intros (d & Hd & Hpd). injection Hd as <- _. congruence.
  - assert (Hcat : lang (Cat (deriv c r1) r2) s <->
                   exists u v, s = u ++ v /\ lang r1 (c :: u) /\ lang r2 v).
    { rewrite lang_cat. split; intros (u & v & E & Hu & Hv); exists u, v;
        (split; [exact E | split; [apply IH1, Hu | exact Hv]]). }
    rewrite (lang_cat r1 r2). destruct (nullable r1) eqn:Hn.
    + rewrite lang_alt, Hcat, IH2. split.
      * intros [(u & v & -> & Hu & Hv) | Hs].
        -- exists (c :: u), v. auto.
        -- exists [], (c :: s). split; [reflexivity |].
           split; [now apply nullable_lang | exact Hs].
      * intros (u & v & E & Hu & Hv). destruct u as [|d u]; simpl in E.
        -- subst v. now right.
        -- injection E as <- ->. left. eauto.
    + rewrite Hcat. split.
      * intros (u & v & -> & Hu & Hv). exists (c :: u), v. auto.
      * intros (u & v & E & Hu & Hv). destruct u as [|d u]; simpl in E.
        -- apply nullable_lang in Hu. congruence.
        -- injection E as <- ->. eauto.
  - now rewrite !lang_alt, IH1, IH2.
  - rewrite lang_cat. split.
    + intros (u & v & -> & Hu & Hv). apply IH in Hu.
      change (c :: u ++ v) with ((c :: u) ++ v). now constructor.
    + intros Hs. apply lang_star_cons in Hs as (u & v & -> & Hu & Hv).
      exists u, v. split; [reflexivity |]. split; [now apply IH | exact Hv].
Qed.

(** The matcher decides the language of the pattern. *)
Lemma matches_lang r s : matches r s = true <-> lang r s.
Proof.
  revert r. induction s as [|c s IH]; intros r; simpl.
  - apply nullable_lang.
  - now rewrite IH, lang_deriv.
Qed.

Lemma lang_upto_class p n s :
  lang (Upto n (Class p)) s <->
  (length s <= n)%nat /\ forallb p s = true.
Proof.
  revert s. induction n as [|n IH]; intros s; simpl.
  - rewrite lang_eps. split.
    + intros ->. simpl. auto.
    + intros [Hl _]. destruct s; [reflexivity | simpl in Hl; lia].
  - rewrite lang_opt, lang_cat. split.
    + intros [(u & v & -> & Hu & Hv) | ->].
      * apply lang_class in Hu as (c & -> & Hc). apply IH in Hv as [Hl Hv].
        simpl. rewrite Hc, Hv. split; [lia | reflexivity].
      * simpl. split; [lia | reflexivity].
    + intros [Hl Hp]. destruct s as [|c s]; [now right |]. left.
      simpl in Hl, Hp. apply andb_true_iff in Hp as [Hc Hs].
      exists [c], s. split; [reflexivity |].
      split; [apply lang_class; eauto | apply IH; split; [lia | exact Hs]].
Qed.

Lemma digit19_spec c :
  is_digit19 c = true <-> is_digit c = true /\ c <> "0"%char.
Proof.
  unfold is_digit19, is_digit, in_range. rewrite !andb_true_iff, !Nat.leb_le.
  split.
  - intros [Hlo Hhi]. split; [lia |]. intros ->. vm_compute in Hlo. lia.
  - intros [[Hlo Hhi] Hne]. split; [| lia].
    destruct (Nat.eq_dec (code c) 48%nat) as [E | E]; [| lia].
    exfalso. apply Hne. rewrite <- (ascii_nat_embedding c).
    unfold code in E. now rewrite E.
Qed.

(** The phone pattern accepts exactly the shape the specification words. *)
Lemma phone_lang l : lang phoneRegex l <-> phone_shape l.
Proof.
  unfold phoneRegex, phone_shape. rewrite lang_cat. split.
  - intros (sign & rest & -> & Hsign & Hrest).
    apply lang_cat in Hrest as (u & ds & -> & Hd & Hds).
    apply lang_class in Hd as (d & -> & Hd). apply digit19_spec in Hd as [Hd Hnz].
    apply lang_upto_class in Hds as [Hlen Hds].
    exists sign, (d :: ds). split; [reflexivity |]. split.
    { apply lang_opt in Hsign as [Hp | ->]; [| now left].
      apply lang_class in Hp as (c & -> & Hc). right.
      unfold is_char in Hc. apply Ascii.eqb_eq in Hc. now subst. }
    simpl. rewrite Hd, Hds. repeat split; try lia. congruence.
  - intros (sign & digits & -> & Hsign & [Hlo Hhi] & Hds & Hnz).
    destruct digits as [|d ds]; [simpl in Hlo; lia |].
    simpl in Hds, Hhi, Hnz. apply andb_true_iff in Hds as [Hd Hds].
    exists sign, (d :: ds). split; [reflexivity |]. split.
    { apply lang_opt. destruct Hsign as [-> | ->]; [now right | left].
      apply lang_class. eauto. }
    apply lang_cat. exists [d], ds. split; [reflexivity |]. split.
    + apply lang_class. exists d. split; [reflexivity |].
      apply digit19_spec. split; [exact Hd | congruence].
    + apply lang_upto_class. split; [lia | exact Hds].
Qed.

Lemma phone_test l : test phoneRegex (unchars l) = true <-> phone_shape l.
Proof. unfold test. now rewrite chars_unchars, matches_lang, phone_lang. Qed.

Section FieldRules.
Context `{Host}.

(** C6, amended: on a phone field whose trimmed value is not empty the
    rule fails with the phone message exactly when the trimmed value, with
    every whitespace character, hyphen and parenthesis removed, is not an
    optional [+] followed by 1 to 16 digits with a non-zero first digit;
    [+14155551234] passes, [abc] fails, and a field that is not required
    passes when its trimmed value is empty. *)
Theorem phone_validation (clock : Z) (f : field) :
  f_type f = "tel" ->
  (truthy (trim (f_value f)) = true ->
   (checkField clock f = (false, msg_phone) <->
    ~ phone_shape (remove_class is_phone_filler (chars (trim (f_value f)))))
   /\ (phone_shape (remove_class is_phone_filler (chars (trim (f_value f)))) ->
       checkField clock f = (true, EmptyString)))
  /\ (f_value f = "+14155551234" -> checkField clock f = (true, EmptyString))
  /\ (f_value f = "abc" -> checkField clock f = (false, msg_phone))
  /\ (f_required f = false -> truthy (trim (f_value f)) = false ->
      checkField clock f = (true, EmptyString)).
Proof.
  intros Hty.
  assert (Hnonempty : truthy (trim (f_value f)) = true ->
    checkField clock f =
      if test phoneRegex
           (unchars (remove_class is_phone_filler (chars (trim (f_value f)))))
      then (true, EmptyString) else (false, msg_phone)).
  { intros Hv. unfold checkField. rewrite Hty, Hv. simpl.
    rewrite andb_false_r. simpl.
    now destruct (test phoneRegex _). }
  split; [| split; [| split]].
  - intros Hv. rewrite (Hnonempty Hv).
    destruct (test phoneRegex _) eqn:Ht.
    + apply phone_test in Ht. split; [| reflexivity].
      split; [discriminate | tauto].
    + assert (Hn : ~ phone_shape
                (remove_class is_phone_filler (chars (trim (f_value f))))).
      { intros Hs. apply phone_test in Hs. congruence. }
      split; [tauto | tauto].
  - intros Hv. rewrite Hnonempty; rewrite Hv; reflexivity.
  - intros Hv. rewrite Hnonempty; rewrite Hv; reflexivity.
  - intros Hreq Hv. unfold checkField. rewrite Hty, Hreq, Hv. reflexivity.
Qed.
End FieldRules.

(** [phone_validation] at the number of the specification. *)
Lemma phone_validation_witness :
  checkField (H := isoHost) 0 (tel_field true "+14155551234") = (true, EmptyString).
Proof.
  exact (proj1 (proj2 (phone_validation (H := isoHost) 0
                         (tel_field true "+14155551234") eq_refl)) eq_refl).
Defined.

(** C6 as stated fails: with a TAB between two digits the value is not
    empty and, once spaces, hyphens and parentheses are removed, is not of
    the shape, yet the rule passes because the code removes every
    whitespace character. *)
Lemma phone_claim_counterexample :
  let f := tel_field false ("1" +:+ String "009" "2") in
  f_value f <> EmptyString
  /\ ~ phone_shape (remove_class is_listed_filler (chars (f_value f)))
  /\ checkField (H := isoHost) 0 f = (true, EmptyString).
Proof.
  simpl. split; [discriminate |]. split; [| reflexivity].
  intros Hs. apply phone_lang, matches_lang in Hs. vm_compute in Hs. discriminate.
Qed.

(** ** Form trees *)

Lemma node_rect' (P : node -> Prop) :
  (forall k f, P (Field k f)) ->
  (forall m, P (Feedback m)) ->
  (forall kids, Forall P kids -> P (Box kids)) ->
  forall t, P t.
Proof.
  intros Hfield Hfeedback Hbox.
  fix IH 1. intros [k f | m | kids].
  - apply Hfield.
  - apply Hfeedback.
  - apply Hbox. induction kids as [|n r IHr]; constructor; [apply IH | exact IHr].
Qed.

Lemma flat_kids_app {R} (g : node -> list R) (l1 l2 : list node) :
  flat_kids g (l1 ++ l2) = flat_kids g l1 ++ flat_kids g l2.
Proof.
  induction l1 as [|n r IH]; simpl; [reflexivity |].
  now rewrite IH, app_assoc.
Qed.

Lemma flat_kids_ext {R} (g h : node -> list R) (l : list node) :
  Forall (fun n => g n = h n) l -> flat_kids g l = flat_kids h l.
Proof.
  induction 1 as [|n r Hn _ IH]; simpl; [reflexivity |]. now rewrite Hn, IH.
Qed.

Lemma flat_kids_map {R} (g : node -> list R) (h : node -> node) (l : list node) :
  flat_kids g (List.map h l) = flat_kids (fun n => g (h n)) l.
Proof.
  induction l as [|n r IH]; simpl; [reflexivity |]. now rewrite IH.
Qed.

Section Insensitive.
(** A reading [h] of the tree that does not see the annotations. *)
Context {R : Type} (h : node -> list R).
Hypothesis h_feedback : forall m, h (Feedback m) = [].
Hypothesis h_box : forall kids kids',
  flat_kids h kids = flat_kids h kids' -> h (Box kids) = h (Box kids').

Lemma blind_cut_kids (kids kids' : list node) :
  Forall (fun n => forall n', cut_feedback n = Some n' -> h n' = h n) kids ->
  cut_kids cut_feedback kids = Some kids' ->
  flat_kids h kids' = flat_kids h kids.
Proof.
  intros Hall. revert kids'.
  induction Hall as [|n r Hn _ IH]; intros kids' Hcut; simpl in Hcut.
  - discriminate.
  - destruct n as [k f | m | ks].
    + simpl in Hcut. destruct (cut_kids cut_feedback r) as [r'|] eqn:Er;
        simpl in Hcut; [| discriminate].
      injection Hcut as <-. simpl. f_equal. now apply IH.
    + injection Hcut as <-. simpl. now rewrite h_feedback.
    + destruct (cut_feedback (Box ks)) as [n'|] eqn:En.
      * injection Hcut as <-. simpl flat_kids at 1.
        rewrite (Hn n' eq_refl). reflexivity.
      * destruct (cut_kids cut_feedback r) as [r'|] eqn:Er;
          simpl in Hcut; [| discriminate].
        injection Hcut as <-. simpl flat_kids. f_equal. now apply IH.
Qed.

Lemma blind_cut_feedback t t' : cut_feedback t = Some t' -> h t' = h t.
Proof.
  revert t'. induction t as [k f | m | kids IH] using node_rect'; intros t' Hcut;
    simpl in Hcut; try discriminate.
  destruct (cut_kids cut_feedback kids) as [kids'|] eqn:Ek; simpl in Hcut;
    [| discriminate].
  injection Hcut as <-. apply h_box. now apply blind_cut_kids.
Qed.

Lemma blind_remove_first_feedback kids :
  flat_kids h (remove_first_feedback kids) = flat_kids h kids.
Proof.
  unfold remove_first_feedback.
  destruct (cut_kids cut_feedback kids) as [kids'|] eqn:Ek; [| reflexivity].
  apply blind_cut_kids; [| exact Ek].
  apply Forall_forall. intros n _ n'. apply blind_cut_feedback.
Qed.

Lemma blind_append kids m :
  flat_kids h (kids ++ [Feedback m]) = flat_kids h kids.
Proof. rewrite flat_kids_app. simpl. now rewrite h_feedback, !app_nil_r. Qed.

Lemma blind_in_parent k g t :
  (forall kids, flat_kids h (g kids) = flat_kids h kids) ->
  h (in_parent k g t) = h t.
Proof.
  intros Hg. induction t as [k' f | m | kids IH] using node_rect'; simpl;
    try reflexivity.
  assert (Hmap : flat_kids h (List.map (in_parent k g) kids) = flat_kids h kids).
  { rewrite flat_kids_map. now apply flat_kids_ext. }
  destruct (existsb (is_field_key k) kids); apply h_box.
  - now rewrite Hg.
  - exact Hmap.
Qed.
End Insensitive.

Lemma skeleton_box kids kids' :
  flat_kids skeleton kids = flat_kids skeleton kids' ->
  skeleton (Box kids) = skeleton (Box kids').
Proof. simpl. now intros ->. Qed.

Lemma fields_box kids kids' :
  flat_kids fields kids = flat_kids fields kids' ->
  fields (Box kids) = fields (Box kids').
Proof. simpl. now intros ->. Qed.

Lemma skeleton_update_invalid k b t :
  skeleton (update_field k (with_invalid b) t) = skeleton t.
Proof.
  induction t as [k' f | m | kids IH] using node_rect'; simpl.
  - destruct (Nat.eqb k' k); reflexivity.
  - reflexivity.
  - f_equal. f_equal. rewrite flat_kids_map. now apply flat_kids_ext.
Qed.

Lemma skeleton_clearFieldError k t : skeleton (clearFieldError k t) = skeleton t.
Proof.
  unfold clearFieldError.
  rewrite (blind_in_parent skeleton skeleton_box)
    by apply (blind_remove_first_feedback skeleton (fun _ => eq_refl) skeleton_box).
  apply skeleton_update_invalid.
Qed.

Lemma skeleton_showFieldError k m t : skeleton (showFieldError k m t) = skeleton t.
Proof.
  unfold showFieldError.
  rewrite (blind_in_parent skeleton skeleton_box)
    by (intros kids; apply (blind_append skeleton (fun _ => eq_refl))).
  rewrite skeleton_update_invalid. apply skeleton_clearFieldError.
Qed.

(** The controls after an error mark is set or cleared. *)
Lemma fields_update_field k g t :
  fields (update_field k g t)
  = List.map (fun kf => if Nat.eqb (fst kf) k then (fst kf, g (snd kf)) else kf) (fields t).
Proof.
  induction t as [k' f | m | kids IH] using node_rect'; simpl.
  - destruct (Nat.eqb k' k); reflexivity.
  - reflexivity.
  - induction IH as [|n r Hn _ IHr]; simpl; [reflexivity |].
    now rewrite List.map_app, Hn, IHr.
Qed.

Lemma fields_clearFieldError k t :
  fields (clearFieldError k t)
  = List.map (fun kf => if Nat.eqb (fst kf) k
                        then (fst kf, with_invalid false (snd kf)) else kf) (fields t).
Proof.
  unfold clearFieldError.
  rewrite (blind_in_parent fields fields_box)
    by apply (blind_remove_first_feedback fields (fun _ => eq_refl) fields_box).
  apply fields_update_field.
Qed.

Lemma fields_showFieldError k m t :
  fields (showFieldError k m t)
  = List.map (fun kf => if Nat.eqb (fst kf) k
                        then (fst kf, with_invalid true (snd kf)) else kf) (fields t).
Proof.
  unfold showFieldError.
  rewrite (blind_in_parent fields fields_box)
    by (intros kids; apply (blind_append fields (fun _ => eq_refl))).
  rewrite fields_update_field, fields_clearFieldError, List.map_map.
  apply List.map_ext. intros [k' f]. simpl.
  destruct (Nat.eqb k' k) eqn:E; simpl; now rewrite E.
Qed.

Lemma fields_skeleton t : flat_kids fields (skeleton t) = data t.
Proof.
  unfold data. induction t as [k f | m | kids IH] using node_rect'; simpl;
    try reflexivity.
  rewrite app_nil_r. induction IH as [|n r Hn _ IHr]; simpl; [reflexivity |].
  rewrite flat_kids_app, List.map_app, Hn, IHr. reflexivity.
Qed.

Lemma skeleton_data t t' : skeleton t = skeleton t' -> data t = data t'.
Proof. intros E. now rewrite <- !fields_skeleton, E. Qed.

Lemma data_keys t t' : data t = data t' -> keys t = keys t'.
Proof.
  unfold data, keys. intros E.
  apply (f_equal (List.map fst)) in E. rewrite !List.map_map in E. exact E.
Qed.

Lemma find_key_map k (l : list (nat * field)) :
  List.find (fun kf => Nat.eqb (fst kf) k) (List.map erase l)
  = erase <$> List.find (fun kf => Nat.eqb (fst kf) k) l.
Proof.
  induction l as [|[k' f] r IH]; simpl; [reflexivity |].
  destruct (Nat.eqb k' k); [reflexivity | exact IH].
Qed.

Lemma data_field_of k t t' :
  data t = data t' -> datum <$> field_of k t = datum <$> field_of k t'.
Proof.
  intros E. unfold field_of.
  assert (Hf : forall u, datum <$> (snd <$> List.find (fun kf => Nat.eqb (fst kf) k) (fields u))
                         = snd <$> List.find (fun kf => Nat.eqb (fst kf) k) (data u)).
  { intros u. unfold data. rewrite find_key_map.
    now destruct (List.find _ (fields u)) as [[? ?]|]. }
  now rewrite !Hf, E.
Qed.

Lemma nin_skeleton (l : list node) :
  forallb (fun m => negb (is_input m)) (flat_kids skeleton l)
  = forallb (fun m => negb (is_input m)) l.
Proof.
  induction l as [|[k f | m | ks] r IH]; simpl; try rewrite IH; reflexivity.
Qed.

Section SelectorStability.
Variable sel : list node -> node -> list node -> bool.

Hypothesis sel_siblings : forall b b' n a a',
  forallb (fun m => negb (is_input m)) b = forallb (fun m => negb (is_input m)) b' ->
  forallb (fun m => negb (is_input m)) a = forallb (fun m => negb (is_input m)) a' ->
  sel b n a = sel b' n a'.

Hypothesis sel_datum : forall b k f a,
  sel b (Field k (datum f)) a = sel b (Field k f) a.

Lemma query_kids_skeleton (kids : list node) :
  Forall (fun n => erase <$> query_sel sel n = query_skeleton sel n) kids ->
  forall b b',
    forallb (fun m => negb (is_input m)) b = forallb (fun m => negb (is_input m)) b' ->
    erase <$> query_kids sel (query_sel sel) b kids
    = query_kids sel (query_sel sel) b' (flat_kids skeleton kids).
Proof.
  induction 1 as [|n r Hn _ IH]; intros b b' Hb; [reflexivity |].
  assert (Hnext : forall x x', is_input x = is_input x' ->
    forallb (fun m => negb (is_input m)) (b ++ [x])
    = forallb (fun m => negb (is_input m)) (b' ++ [x'])).
  { intros x x' Hx. rewrite !forallb_app, Hb. simpl. now rewrite Hx. }
  destruct n as [k f | m | ks].
  - simpl flat_kids. simpl query_kids.
    rewrite (sel_siblings b' b (Field k (datum f)) (flat_kids skeleton r) r),
      sel_datum by (rewrite ?nin_skeleton; auto).
    destruct (sel b (Field k f) r); [reflexivity |].
    apply IH. now apply Hnext.
  - simpl flat_kids. simpl query_kids.
    assert (Hif : (if sel b (Feedback m) r then @None (nat * field) else None) = None)
      by now destruct (sel b (Feedback m) r).
    rewrite Hif. apply IH. rewrite forallb_app, Hb. simpl.
    now rewrite andb_true_r.
  - unfold query_skeleton in Hn. simpl skeleton in Hn.
    simpl flat_kids. cbn [query_kids app].
    assert (Hif : forall bb nn aa,
               is_field nn = false ->
               (if sel bb nn aa
                then match nn with Field k f => Some (k, f) | _ => None end
                else None) = None).
    { intros bb [? ? | ? | ?] aa Hnn; try discriminate; now destruct (sel _ _ _). }
    rewrite !Hif by reflexivity.
    rewrite <- Hn.
    destruct (query_sel sel (Box ks)) as [res|]; [reflexivity |].
    simpl fmap. apply IH. now apply Hnext.
Qed.

Lemma query_sel_skeleton t : erase <$> query_sel sel t = query_skeleton sel t.
Proof.
  induction t as [k f | m | kids IH] using node_rect'; try reflexivity.
  unfold query_skeleton. simpl.
  now apply query_kids_skeleton.
Qed.

Lemma query_sel_stable t t' :
  skeleton t = skeleton t' ->
  erase <$> query_sel sel t = erase <$> query_sel sel t'.
Proof.
  intros E. rewrite !query_sel_skeleton. unfold query_skeleton. now rewrite E.
Qed.
End SelectorStability.

Lemma is_date_input_datum k f :
  is_date_input (Field k (datum f)) = is_date_input (Field k f).
Proof. reflexivity. Qed.

Lemma checkin_stable t t' :
  skeleton t = skeleton t' ->
  erase <$> query_sel date_first_of_type t = erase <$> query_sel date_first_of_type t'.
Proof.
  apply query_sel_stable.
  - intros b b' n a a' Hb _. unfold date_first_of_type. now rewrite Hb.
  - intros b k f a. reflexivity.
Qed.

Lemma checkout_stable t t' :
  skeleton t = skeleton t' ->
  erase <$> query_sel date_last_of_type t = erase <$> query_sel date_last_of_type t'.
Proof.
  apply query_sel_stable.
  - intros b b' n a a' _ Ha. unfold date_last_of_type. now rewrite Ha.
  - intros b k f a. reflexivity.
Qed.

Lemma in_flat_kids {R} (g : node -> list R) (l : list node) (x : R) :
  In x (flat_kids g l) <-> exists n, In n l /\ In x (g n).
Proof.
  induction l as [|n r IH]; simpl.
  - split; [tauto | intros (n & [] & _)].
  - rewrite in_app_iff, IH. split.
    + intros [Hx | (n' & Hn' & Hx)]; eauto.
    + intros (n' & [<- | Hn'] & Hx); eauto.
Qed.

Lemma direct_update_field k k' g (kids : list node) :
  existsb (is_field_key k) (List.map (update_field k' g) kids)
  = existsb (is_field_key k) kids.
Proof.
  induction kids as [|[k'' f | m | ks] r IH]; simpl; try rewrite IH; try reflexivity.
  now destruct (Nat.eqb k'' k').
Qed.

Lemma direct_in_parent k k' g (kids : list node) :
  existsb (is_field_key k) (List.map (in_parent k' g) kids)
  = existsb (is_field_key k) kids.
Proof.
  induction kids as [|[k'' f | m | ks] r IH]; simpl; try rewrite IH; try reflexivity.
  now destruct (existsb (is_field_key k') ks).
Qed.

Lemma direct_remove_first_feedback k (kids : list node) :
  existsb (is_field_key k) (remove_first_feedback kids)
  = existsb (is_field_key k) kids.
Proof.
  unfold remove_first_feedback.
  destruct (cut_kids cut_feedback kids) as [kids'|] eqn:Ek; [| reflexivity].
  revert kids' Ek. induction kids as [|[k' f | m | ks] r IH]; intros kids' Ek;
    simpl in Ek; try discriminate.
  - destruct (cut_kids cut_feedback r) as [r'|]; simpl in Ek; [| discriminate].
    injection Ek as <-. simpl. now rewrite (IH r' eq_refl).
  - now injection Ek as <-.
  - destruct (cut_kids cut_feedback ks) as [ks'|]; simpl in Ek.
    + now injection Ek as <-.
    + destruct (cut_kids cut_feedback r) as [r'|]; simpl in Ek; [| discriminate].
      injection Ek as <-. simpl. now apply IH.
Qed.

(** What [showFieldError] does at a box, by whether the control is a child. *)
Lemma showFieldError_box k m kids :
  showFieldError k m (Box kids) =
    if existsb (is_field_key k) kids
    then Box (List.map (in_parent k (fun l => l ++ [Feedback m]))
                (List.map (update_field k (with_invalid true))
                   (remove_first_feedback
                      (List.map (in_parent k remove_first_feedback)
                         (List.map (update_field k (with_invalid false)) kids))))
              ++ [Feedback m])
    else Box (List.map (showFieldError k m) kids).
Proof.
  unfold showFieldError, clearFieldError. simpl.
  rewrite direct_update_field.
  destruct (existsb (is_field_key k) kids) eqn:Ed; simpl.
  - now rewrite direct_update_field, direct_remove_first_feedback,
      direct_in_parent, direct_update_field, Ed.
  - rewrite direct_update_field, direct_in_parent, direct_update_field, Ed.
    now rewrite !List.map_map.
Qed.

Lemma annotations_box k kids :
  annotations k (Box kids)
  = (if existsb (is_field_key k) kids then flat_kids feedbacks kids else [])
    ++ flat_kids (annotations k) kids.
Proof. reflexivity. Qed.

(** The message shown is among the annotations of the parent. *)
Lemma showFieldError_annotated k m t :
  In k (keys t) -> is_field t = false ->
  In m (annotations k (showFieldError k m t)).
Proof.
  induction t as [k' f | m' | kids IH] using node_rect'; intros Hk Hf;
    try discriminate; [destruct Hk |].
  rewrite showFieldError_box. destruct (existsb (is_field_key k) kids) eqn:Ed.
  - rewrite annotations_box, existsb_app, direct_in_parent, direct_update_field,
      direct_remove_first_feedback, direct_in_parent, direct_update_field, Ed.
    simpl. apply in_or_app. left. rewrite flat_kids_app. apply in_or_app. right.
    simpl. auto.
  - unfold keys in Hk. apply in_map_iff in Hk as ([k0 f0] & E & Hin).
    simpl in E, Hin. subst k0. apply in_flat_kids in Hin as (n & Hn & Hin).
    assert (Hbox : is_field n = false).
    { destruct n as [k1 f1 | m1 | ks]; try reflexivity. simpl in Hin.
      destruct Hin as [[= -> ->] | []].
      assert (Hex : existsb (is_field_key k) kids = true).
      { apply existsb_exists. exists (Field k f0). split; [exact Hn |].
        simpl. apply Nat.eqb_refl. }
      congruence. }
    rewrite annotations_box. apply in_or_app. right.
    rewrite flat_kids_map. apply in_flat_kids. exists n. split; [exact Hn |].
    rewrite List.Forall_forall in IH. apply IH; [exact Hn | | exact Hbox].
    unfold keys. apply in_map_iff. exists (k, f0). auto.
Qed.

Lemma field_of_showFieldError k m t :
  field_of k (showFieldError k m t) = with_invalid true <$> field_of k t.
Proof.
  unfold field_of. rewrite fields_showFieldError.
  induction (fields t) as [|[k' f] r IH]; simpl; [reflexivity |].
  destruct (Nat.eqb k' k) eqn:E; simpl; rewrite E; [reflexivity | exact IH].
Qed.

Section QueryResults.
Variable sel : list node -> node -> list node -> bool.
Hypothesis sel_date : forall b n a, sel b n a = true -> is_date_input n = true.

Lemma query_kids_found (kids : list node) :
  Forall (fun n => forall r, query_sel sel n = Some r -> In r (date_inputs n)) kids ->
  forall b r,
    query_kids sel (query_sel sel) b kids = Some r ->
    In r (List.filter (fun kf => is_date_input (Field (fst kf) (snd kf)))
            (flat_kids fields kids)).
Proof.
  induction 1 as [|n l Hn _ IH]; intros b r Hq; simpl in Hq; [discriminate |].
  simpl flat_kids. rewrite List.filter_app. apply in_or_app.
  destruct (sel b n l) eqn:Hs.
  - apply sel_date in Hs. destruct n as [k f | m | ks]; try discriminate.
    injection Hq as <-. left. simpl. simpl in Hs. rewrite Hs. now left.
  - destruct (query_sel sel n) as [r'|] eqn:Hin.
    + injection Hq as <-. left. now apply Hn.
    + right. now apply (IH (b ++ [n])).
Qed.

Lemma query_sel_found t r : query_sel sel t = Some r -> In r (date_inputs t).
Proof.
  revert r. induction t as [k f | m | kids IH] using node_rect'; intros r Hq;
    try discriminate.
  simpl in Hq. now apply query_kids_found in Hq.
Qed.
End QueryResults.

Lemma date_first_is_date b n a : date_first_of_type b n a = true -> is_date_input n = true.
Proof. unfold date_first_of_type. now intros [? _]%andb_true_iff. Qed.

Lemma date_last_is_date b n a : date_last_of_type b n a = true -> is_date_input n = true.
Proof. unfold date_last_of_type. now intros [? _]%andb_true_iff. Qed.

Lemma date_inputs_keys t r : In r (date_inputs t) -> In (fst r) (keys t).
Proof.
  unfold date_inputs, keys. intros [Hin _]%filter_In. now apply in_map.
Qed.

Lemma skeleton_is_field t t' : skeleton t = skeleton t' -> is_field t = is_field t'.
Proof. destruct t, t'; simpl; intros E; try discriminate; reflexivity. Qed.

Lemma field_of_key k t : In k (keys t) -> exists f, field_of k t = Some f.
Proof.
  unfold keys, field_of. intros Hk.
  induction (fields t) as [|[k' f] r IH]; simpl in *; [destruct Hk |].
  destruct (Nat.eqb k' k) eqn:E; [eauto |].
  apply IH. destruct Hk as [-> | Hk]; [| exact Hk].
  rewrite Nat.eqb_refl in E. discriminate.
Qed.

Lemma query_sel_box sel t r : query_sel sel t = Some r -> is_field t = false.
Proof. destruct t; simpl; [discriminate | reflexivity | reflexivity]. Qed.

Lemma forallb_pointwise {A} (p q : A -> bool) (l : list A) :
  (forall x, p x = q x) -> forallb p l = forallb q l.
Proof.
  intros E. induction l as [|x r IH]; simpl; [reflexivity |]. now rewrite E, IH.
Qed.

Section SkipUndated.
Variable sel : list node -> node -> list node -> bool.
Hypothesis sel_date : forall b n a, sel b n a = true -> is_date_input n = true.

(** A selector on date inputs passes over the nodes that hold none. *)
Lemma query_kids_skip (l : list node) :
  flat_kids date_inputs l = [] ->
  forall b rest,
    query_kids sel (query_sel sel) b (l ++ rest)
    = query_kids sel (query_sel sel) (b ++ l) rest.
Proof.
  induction l as [|n l IH]; intros Hl b rest; [now rewrite app_nil_r |].
  simpl in Hl. apply app_eq_nil in Hl as [Hn Hl]. cbn [app query_kids].
  assert (Hsel : sel b n (l ++ rest) = false).
  { destruct (sel b n (l ++ rest)) eqn:Hs; [| reflexivity].
    apply sel_date in Hs. destruct n as [k f | m | ks]; try discriminate.
    unfold date_inputs in Hn. cbn [fields List.filter fst snd] in Hn.
    rewrite Hs in Hn. discriminate. }
  rewrite Hsel.
  assert (Hin : query_sel sel n = None).
  { destruct (query_sel sel n) as [r|] eqn:Hq; [| reflexivity].
    apply (query_sel_found sel sel_date) in Hq. rewrite Hn in Hq. destruct Hq. }
  rewrite Hin, (IH Hl). now rewrite <- app_assoc.
Qed.

Lemma query_sel_inside (l : list node) (n : node) (r : list node) (x : nat * field) :
  flat_kids date_inputs l = [] -> is_field n = false ->
  query_sel sel n = Some x ->
  query_sel sel (Box (l ++ n :: r)) = Some x.
Proof.
  intros Hl Hn Hq. cbn [query_sel]. rewrite (query_kids_skip l Hl). cbn [query_kids].
  assert (Hsel : sel ([] ++ l) n r = false).
  { destruct (sel ([] ++ l) n r) eqn:Hs; [| reflexivity].
    apply sel_date in Hs. destruct n; discriminate. }
  now rewrite Hsel, Hq.
Qed.
End SkipUndated.

Lemma date_input_is_input n : is_date_input n = true -> is_input n = true.
Proof.
  destruct n as [k f | m | ks]; try discriminate. simpl.
  now intros [? _]%andb_true_iff.
Qed.

Lemma stay_pair_box ki ci ko co t : stay_pair ki ci ko co t -> is_field t = false.
Proof. now destruct 1. Qed.

(** In such a form the first selector finds the check-in input. *)
Lemma stay_pair_checkin ki ci ko co t :
  stay_pair ki ci ko co t -> query_sel date_first_of_type t = Some (ki, ci).
Proof.
  induction 1 as [pre mid post Hci Hco Hpre Hpost Hnone | l n r Hn IH Hnone].
  - rewrite !flat_kids_app in Hnone. apply app_eq_nil in Hnone as [Hp _].
    cbn [query_sel]. rewrite (query_kids_skip _ date_first_is_date pre Hp).
    cbn [query_kids app]. unfold date_first_of_type at 1. now rewrite Hci, Hpre.
  - rewrite flat_kids_app in Hnone. apply app_eq_nil in Hnone as [Hl _].
    apply (query_sel_inside _ date_first_is_date); auto.
    now apply (stay_pair_box ki ci ko co).
Qed.

(** And the last selector finds the check-out input. *)
Lemma stay_pair_checkout ki ci ko co t :
  stay_pair ki ci ko co t -> query_sel date_last_of_type t = Some (ko, co).
Proof.
  induction 1 as [pre mid post Hci Hco Hpre Hpost Hnone | l n r Hn IH Hnone].
  - rewrite !flat_kids_app in Hnone. apply app_eq_nil in Hnone as [Hp Hnone].
    apply app_eq_nil in Hnone as [Hm _].
    cbn [query_sel]. rewrite (query_kids_skip _ date_last_is_date pre Hp).
    cbn [query_kids app]. unfold date_last_of_type at 1.
    assert (Hafter : forallb (fun m => negb (is_input m)) (mid ++ Field ko co :: post)
                     = false).
    { rewrite forallb_app. cbn [forallb].
      rewrite (date_input_is_input _ Hco). cbn [negb andb]. apply andb_false_r. }
    rewrite Hafter, andb_false_r.
    rewrite (query_kids_skip _ date_last_is_date mid Hm).
    cbn [query_kids query_sel]. unfold date_last_of_type at 1. now rewrite Hco, Hpost.
  - rewrite flat_kids_app in Hnone. apply app_eq_nil in Hnone as [Hl _].
    apply (query_sel_inside _ date_last_is_date); auto.
    now apply (stay_pair_box ki ci ko co).
Qed.

Section ValidationFacts.
Context `{Host}.

Lemma checkField_datum clock f : checkField clock (datum f) = checkField clock f.
Proof. reflexivity. Qed.

Lemma verdict_data clock t t' k :
  data t = data t' -> verdict clock t k = verdict clock t' k.
Proof.
  intros E. unfold verdict. pose proof (data_field_of k t t' E) as Hf.
  destruct (field_of k t) as [f|], (field_of k t') as [f'|];
    try discriminate; [| reflexivity].
  assert (Hd : datum f = datum f').
  { apply (f_equal (fun o => match o with Some x => x | None => datum f end)) in Hf.
    exact Hf. }
  now rewrite <- (checkField_datum clock f), Hd.
Qed.

Lemma validateField_spec clock k t :
  skeleton (fst (validateField clock k t)) = skeleton t
  /\ snd (validateField clock k t) = verdict clock t k.
Proof.
  unfold validateField, verdict. destruct (field_of k t) as [f|]; [| auto].
  destruct (checkField clock f) as [[|] msg]; simpl;
    auto using skeleton_clearFieldError, skeleton_showFieldError.
Qed.

Lemma validateAll_spec clock ks t v :
  skeleton (fst (validateAll clock ks t v)) = skeleton t
  /\ snd (validateAll clock ks t v) = v && forallb (verdict clock t) ks.
Proof.
  revert t v. induction ks as [|k ks IH]; intros t v; simpl.
  - now rewrite andb_true_r.
  - destruct (validateField_spec clock k t) as [Hsk Hok].
    destruct (validateField clock k t) as [t' ok]. simpl in Hsk, Hok.
    destruct (IH t' (if ok then v else false)) as [Hsk' Hok'].
    split; [congruence |]. rewrite Hok'.
    assert (Hv : forallb (verdict clock t') ks = forallb (verdict clock t) ks).
    { apply forallb_pointwise. intros k'. apply verdict_data, skeleton_data, Hsk. }
    rewrite Hv, <- Hok. destruct ok, v; reflexivity.
Qed.

Lemma dateRangeError_stable t t' :
  skeleton t = skeleton t' -> dateRangeError t = dateRangeError t'.
Proof.
  intros E. unfold dateRangeError, checkinInput, checkoutInput.
  pose proof (checkin_stable t t' E) as Hin.
  pose proof (checkout_stable t t' E) as Hout.
  destruct (query_sel date_first_of_type t) as [[ki ci]|],
           (query_sel date_first_of_type t') as [[ki' ci']|];
    try discriminate; [| reflexivity].
  destruct (query_sel date_last_of_type t) as [[ko co]|],
           (query_sel date_last_of_type t') as [[ko' co']|];
    try discriminate; [| reflexivity].
  pose (value_of := fun o : option (nat * field) =>
                      match o with Some kf => f_value (snd kf) | None => EmptyString end).
  pose (key_of := fun o : option (nat * field) =>
                    match o with Some kf => fst kf | None => O end).
  assert (Hci : f_value ci = f_value ci') by exact (f_equal value_of Hin).
  assert (Hco : f_value co = f_value co') by exact (f_equal value_of Hout).
  assert (Hko : ko = ko') by exact (f_equal key_of Hout).
  now rewrite Hci, Hco, Hko.
Qed.

(** Full-form validation: the tree keeps its skeleton, and the flag is
    the conjunction of the verdicts of the required controls and of the
    date-range test, all read off the form as submitted. *)
Lemma validateBookingForm_spec clock form :
  skeleton (fst (validateBookingForm clock form)) = skeleton form
  /\ snd (validateBookingForm clock form)
     = forallb (verdict clock form) (requiredFields form)
       && match dateRangeError form with Some _ => false | None => true end.
Proof.
  unfold validateBookingForm.
  destruct (validateAll_spec clock (requiredFields form) form true) as [Hsk Hok].
  destruct (validateAll clock (requiredFields form) form true) as [t ok].
  simpl in Hsk, Hok. rewrite (dateRangeError_stable t form Hsk).
  destruct (dateRangeError form) as [ko|]; simpl.
  - rewrite skeleton_showFieldError, andb_false_r. auto.
  - rewrite andb_true_r. auto.
Qed.

(** When the date-range test reports, full-form validation fails, and the
    check-out input carries the range message and the invalid mark. *)
Lemma dateRangeError_fires clock form ko :
  dateRangeError form = Some ko ->
  validateBookingForm clock form
  = (showFieldError ko msg_range
       (fst (validateAll clock (requiredFields form) form true)), false)
  /\ In msg_range (annotations ko (fst (validateBookingForm clock form)))
  /\ f_invalid <$> field_of ko (fst (validateBookingForm clock form))
     = Some true.
Proof.
  intros Hko.
  assert (Hout : exists co, checkoutInput form = Some (ko, co)).
  { unfold dateRangeError in Hko.
    destruct (checkinInput form) as [[ki ci]|]; [| discriminate].
    destruct (checkoutInput form) as [[ko' co]|]; [| discriminate].
    destruct (truthy (f_value ci) && truthy (f_value co)); [| discriminate].
    destruct (date_le _ _); [| discriminate]. injection Hko as ->. eauto. }
  destruct Hout as [co Hout]. unfold checkoutInput in Hout.
  pose proof (query_sel_box _ _ _ Hout) as Hbox.
  apply (query_sel_found _ date_last_is_date), date_inputs_keys in Hout.
  simpl in Hout.
  unfold validateBookingForm.
  destruct (validateAll_spec clock (requiredFields form) form true) as [Hsk _].
  destruct (validateAll clock (requiredFields form) form true) as [t ok].
  simpl in *. rewrite (dateRangeError_stable t form Hsk), Hko. simpl.
  rewrite <- (data_keys _ _ (skeleton_data _ _ Hsk)) in Hout.
  rewrite <- (skeleton_is_field _ _ Hsk) in Hbox.
  split; [reflexivity |]. split.
  - now apply showFieldError_annotated.
  - rewrite field_of_showFieldError.
    destruct (field_of_key ko t Hout) as [f ->]. reflexivity.
Qed.

(** C2, amended: in a form that holds its check-in and its check-out input
    in one parent element, check-in as the first and check-out as the last
    [input] child of it, and no other date input, the selectors find these
    two inputs, and the date-range test reports, on the check-out input and
    on no other control, exactly when both values are non-empty and parse as
    dates and check-out is not after check-in.  It runs whatever the
    verdicts of the two controls on their own rules were; when it reports,
    full-form validation fails and the range message is put on the check-out
    input, and when it does not, the outcome is that of the required
    controls.  Nothing is said of forms laid out otherwise. *)
Theorem date_range_rule (clock : Z) (form : node)
  (ki : nat) (ci : field) (ko : nat) (co : field) :
  stay_pair ki ci ko co form ->
  checkinInput form = Some (ki, ci)
  /\ checkoutInput form = Some (ko, co)
  /\ (forall k,
         dateRangeError form = Some k <->
         k = ko
         /\ f_value ci <> EmptyString /\ f_value co <> EmptyString
         /\ exists tin tout,
              Date_parse (f_value ci) = Some tin
              /\ Date_parse (f_value co) = Some tout
              /\ tout <= tin)
  /\ (dateRangeError form = Some ko ->
      validateBookingForm clock form
      = (showFieldError ko msg_range
           (fst (validateAll clock (requiredFields form) form true)), false)
      /\ In msg_range (annotations ko (fst (validateBookingForm clock form)))
      /\ f_invalid <$> field_of ko (fst (validateBookingForm clock form))
         = Some true)
  /\ (dateRangeError form = None ->
      validateBookingForm clock form
      = validateAll clock (requiredFields form) form true).
Proof.
  intros Hpair.
  assert (Hin : checkinInput form = Some (ki, ci))
    by now apply (stay_pair_checkin ki ci ko co).
  assert (Hout : checkoutInput form = Some (ko, co))
    by now apply (stay_pair_checkout ki ci ko co).
  split; [exact Hin |]. split; [exact Hout |]. split; [| split].
  - intros k. unfold dateRangeError. rewrite Hin, Hout. split.
    + destruct (truthy (f_value ci)) eqn:Tci; [| discriminate].
      destruct (truthy (f_value co)) eqn:Tco; [| discriminate]. simpl.
      destruct (Date_parse (f_value co)) as [tout|] eqn:Pco; [| discriminate].
      destruct (Date_parse (f_value ci)) as [tin|] eqn:Pci; [| discriminate].
      simpl. destruct (tout <=? tin) eqn:Hle; [| discriminate].
      intros [= <-]. apply truthy_true in Tci, Tco. apply Z.leb_le in Hle.
      repeat split; try assumption. now exists tin, tout.
    + intros (-> & Vci & Vco & tin & tout & Pci & Pco & Hle).
      apply truthy_true in Vci, Vco. rewrite Vci, Vco, Pci, Pco. simpl.
      apply Z.leb_le in Hle. now rewrite Hle.
  - apply dateRangeError_fires.
  - intros Hnone. unfold validateBookingForm.
    destruct (validateAll_spec clock (requiredFields form) form true) as [Hsk _].
    destruct (validateAll clock (requiredFields form) form true) as [t ok].
    simpl in *. now rewrite (dateRangeError_stable t form Hsk), Hnone.
Qed.
End ValidationFacts.

(** [date_range_rule] on a stay that ends before it starts. *)
Lemma date_range_rule_witness :
  validateBookingForm (H := isoHost) 0 (stay_form "2030-01-02T10:00" "2030-01-01T10:00")
  = (showFieldError 2 msg_range
       (fst (validateAll (H := isoHost) 0
               (requiredFields (stay_form "2030-01-02T10:00" "2030-01-01T10:00"))
               (stay_form "2030-01-02T10:00" "2030-01-01T10:00") true)), false).
Proof.
  refine (proj1 (proj1 (proj2 (proj2 (proj2
    (date_range_rule (H := isoHost) 0
       (stay_form "2030-01-02T10:00" "2030-01-01T10:00")
       1%nat (date_field "checkin" true "2030-01-02T10:00")
       2%nat (date_field "checkout" true "2030-01-01T10:00")
       (SP_row 1 (date_field "checkin" true "2030-01-02T10:00")
          2 (date_field "checkout" true "2030-01-01T10:00")
          [] [] [] eq_refl eq_refl eq_refl eq_refl eq_refl))))) _)).
  vm_compute. reflexivity.
Defined.

(** C2 as stated fails: both dates lie in the past, so each input fails its
    own rule, and the range error is reported on the check-out input all the
    same. *)
Lemma date_range_claim_counterexample :
  let form := stay_form "2020-01-02T10:00" "2020-01-01T10:00" in
  let clock := 1900000000000 in
  verdict (H := isoHost) clock form 1 = false
  /\ verdict (H := isoHost) clock form 2 = false
  /\ dateRangeError (H := isoHost) form = Some 2%nat
  /\ annotations 2 (fst (validateBookingForm (H := isoHost) clock form)) = [msg_range].
Proof. vm_compute. auto. Qed.

Lemma filter_at_most_one {A} (p : A -> bool) (b a : list A) (x : A) :
  (length (List.filter p (b ++ x :: a)) <= 1)%nat -> p x = true ->
  forallb (fun y => negb (p y)) b = true /\ forallb (fun y => negb (p y)) a = true.
Proof.
  rewrite List.filter_app, length_app. simpl. intros Hlen Hx. rewrite Hx in Hlen.
  simpl in Hlen.
  assert (Hnone : forall l, length (List.filter p l) = O ->
                            forallb (fun y => negb (p y)) l = true).
  { induction l as [|y l IH]; simpl; [reflexivity |].
    destruct (p y); simpl; [discriminate | exact IH]. }
  split; apply Hnone; lia.
Qed.

Section LoneDateInput.
Variable sel : list node -> node -> list node -> bool.
Hypothesis sel_date : forall b n a, sel b n a = true -> is_date_input n = true.
Hypothesis sel_lone : forall b n a,
  is_date_input n = true ->
  forallb (fun m => negb (is_input m)) b = true ->
  forallb (fun m => negb (is_input m)) a = true ->
  sel b n a = true.
Variables (k : nat) (f : field).

Lemma lone_query_kids (l : list node) :
  Forall (fun n => date_inputs n = [(k, f)] -> lone_input k n = true ->
                   is_field n = false -> query_sel sel n = Some (k, f)) l ->
  forall b,
    List.filter (fun kf => is_date_input (Field (fst kf) (snd kf))) (flat_kids fields l)
    = [(k, f)] ->
    (existsb (is_field_key k) l = true ->
     (length (List.filter is_input (b ++ l)) <= 1)%nat) ->
    forallb (lone_input k) l = true ->
    query_kids sel (query_sel sel) b l = Some (k, f).
Proof.
  induction 1 as [|n a Hn _ IH]; intros b Hdates Hsib Hlone; [discriminate |].
  simpl in Hlone. apply andb_true_iff in Hlone as [Hlone_n Hlone_a].
  assert (Hnext : existsb (is_field_key k) a = true ->
                  (length (List.filter is_input ((b ++ [n]) ++ a)) <= 1)%nat).
  { intros Ha. rewrite <- app_assoc. apply Hsib. simpl. rewrite Ha.
    apply orb_true_r. }
  destruct n as [k' f' | m | ks].
  - change (flat_kids fields (Field k' f' :: a))
      with ((k', f') :: flat_kids fields a) in Hdates.
    cbn [List.filter fst snd] in Hdates. simpl query_kids.
    destruct (is_date_input (Field k' f')) eqn:Hd.
    + injection Hdates as -> -> Hrest.
      assert (Hin : is_input (Field k f) = true).
      { simpl in Hd. now apply andb_true_iff in Hd as [? _]. }
      destruct (filter_at_most_one is_input b a (Field k f)) as [Hb Ha];
        [apply Hsib; simpl; now rewrite Nat.eqb_refl | exact Hin |].
      now rewrite (sel_lone b (Field k f) a Hd Hb Ha).
    + destruct (sel b (Field k' f') a) eqn:Hs.
      { apply sel_date in Hs. congruence. }
      now apply IH.
  - simpl in Hdates. simpl query_kids.
    assert (Hif : (if sel b (Feedback m) a then @None (nat * field) else None) = None)
      by now destruct (sel b (Feedback m) a).
    rewrite Hif. now apply IH.
  - simpl flat_kids in Hdates. rewrite List.filter_app in Hdates.
    cbn [query_kids].
    assert (Hif : (if sel b (Box ks) a then @None (nat * field) else None) = None)
      by now destruct (sel b (Box ks) a).
    rewrite Hif.
    destruct (List.filter (fun kf => is_date_input (Field (fst kf) (snd kf)))
                (flat_kids fields ks)) as [|x xs] eqn:Hks.
    + destruct (query_sel sel (Box ks)) as [r|] eqn:Hq.
      { apply (query_sel_found sel sel_date) in Hq.
        change (date_inputs (Box ks))
          with (List.filter (fun kf => is_date_input (Field (fst kf) (snd kf)))
                  (flat_kids fields ks)) in Hq.
        rewrite Hks in Hq. destruct Hq. }
      now apply IH.
    + simpl in Hdates. injection Hdates as -> Hrest.
      apply app_eq_nil in Hrest as [-> _].
      rewrite Hn; [reflexivity | exact Hks | exact Hlone_n | reflexivity].
Qed.

Lemma lone_query_sel t :
  date_inputs t = [(k, f)] -> lone_input k t = true -> is_field t = false ->
  query_sel sel t = Some (k, f).
Proof.
  induction t as [k' f' | m | kids IH] using node_rect'; intros Hd Hl Hf;
    try discriminate.
  simpl in Hl. apply andb_true_iff in Hl as [Hsib Hl].
  simpl. apply lone_query_kids; try assumption.
  intros Hex. rewrite Hex in Hsib. simpl. now apply Nat.leb_le.
Qed.
End LoneDateInput.

Section LoneDate.
Context `{Host}.

(** C9, amended: when a form has exactly one [datetime-local] input, that
    input has no other [input] element among its siblings, and its value
    is non-empty and parses as a date, both selectors pick it, the range
    test compares its value with itself, full-form validation fails and the
    range message is shown on it. *)
Theorem lone_date_input_range (clock : Z) (form : node) (k : nat) (f : field) (t0 : Z) :
  is_field form = false ->
  date_inputs form = [(k, f)] ->
  lone_input k form = true ->
  f_value f <> EmptyString ->
  Date_parse (f_value f) = Some t0 ->
  checkinInput form = Some (k, f)
  /\ checkoutInput form = Some (k, f)
  /\ dateRangeError form = Some k
  /\ snd (validateBookingForm clock form) = false
  /\ In msg_range (annotations k (fst (validateBookingForm clock form)))
  /\ f_invalid <$> field_of k (fst (validateBookingForm clock form)) = Some true.
Proof.
  intros Hbox Hone Hlone Hv Hp.
  assert (Hin : checkinInput form = Some (k, f)).
  { apply lone_query_sel; try assumption.
    - apply date_first_is_date.
    - intros b n a Hd Hb _. unfold date_first_of_type. now rewrite Hd, Hb. }
  assert (Hout : checkoutInput form = Some (k, f)).
  { apply lone_query_sel; try assumption.
    - apply date_last_is_date.
    - intros b n a Hd _ Ha. unfold date_last_of_type. now rewrite Hd, Ha. }
  assert (Herr : dateRangeError form = Some k).
  { unfold dateRangeError. rewrite Hin, Hout.
    apply truthy_true in Hv. rewrite Hv, Hp. simpl. now rewrite Z.leb_refl. }
  destruct (dateRangeError_fires clock form k Herr) as (Hres & Hann & Hmark).
  repeat split; try assumption. now rewrite Hres.
Qed.
End LoneDate.

(** [lone_date_input_range] on a form whose only input is a date. *)
Lemma lone_date_input_range_witness :
  dateRangeError (H := isoHost)
    (Box [Box [Field 1 (date_field "date" true "2030-01-01T10:00")]]) = Some 1%nat.
Proof.
  refine (proj1 (proj2 (proj2
    (lone_date_input_range (H := isoHost) 0
       (Box [Box [Field 1 (date_field "date" true "2030-01-01T10:00")]])
       1%nat (date_field "date" true "2030-01-01T10:00") 1893492000000
       eq_refl eq_refl eq_refl _ _)))).
  - discriminate.
  - vm_compute. reflexivity.
Defined.

(** C9 as stated fails: the only date input of this form comes after a text
    input in the same parent, so the first-of-type selector finds nothing,
    no range error is reported and the form validates.  Nor is an error
    reported on a lone input whose value is no date: an invalid date is
    neither before nor after itself. *)
Lemma lone_date_claim_counterexample :
  let form := Box [Field 1 (text_field "name" true "Ann");
                   Field 2 (date_field "date" true "2030-01-01T10:00")] in
  let undated := Box [Field 1 (date_field "date" true "soon")] in
  date_inputs form = [(2%nat, date_field "date" true "2030-01-01T10:00")]
  /\ checkinInput form = None
  /\ dateRangeError (H := isoHost) form = None
  /\ validateBookingForm (H := isoHost) 0 form = (form, true)
  /\ checkinInput undated = checkoutInput undated
  /\ checkoutInput undated = Some (1%nat, date_field "date" true "soon")
  /\ dateRangeError (H := isoHost) undated = None
  /\ validateBookingForm (H := isoHost) 0 undated = (undated, true).
Proof. vm_compute. auto 10. Qed.

(** ** The state machine *)

Arguments parse_fragment : simpl never.
Arguments notification_html : simpl never.
Arguments query_class : simpl never.
Arguments validateBookingForm : simpl never.
Arguments validateField : simpl never.
Arguments clearFieldError : simpl never.
Arguments collectFormData : simpl never.
Arguments reset_form : simpl never.
Arguments trim : simpl never.
Arguments test : simpl never.
Arguments String.eqb : simpl never.

Ltac proj_simpl :=
  cbn [now timers raf booking newsletter parallax pageYOffset notes fresh modals
       dropdowns open_modals doc_modals doc_toggles
       set_now set_timers set_raf set_booking set_newsletter set_parallax
       set_pageYOffset set_notes set_fresh set_open_modals set_doc_modals
       set_doc_toggles state_of and_then] in *.

(** Case analysis on a scrutinee that holds no further [match]. *)
Ltac break_inner :=
  match goal with
  | |- context [match ?x with _ => _ end] =>
      lazymatch x with
      | context [match _ with _ => _ end] => fail
      | _ => destruct x eqn:?
      end
  end.

Ltac unfold_handlers :=
  unfold fire, wait, frame, closeClick, hideNotification, bookingDone,
    newsletterDone, handleNewsletterSubmission, handleBookingSubmission,
    submitBookingForm, onBlur, onInput, showNotification, requestParallaxUpdate,
    and_then, setTimeout in *.

Ltac split_state s :=
  destruct s; unfold_handlers; proj_simpl; repeat (break_inner; proj_simpl).

Lemma iter_updateParallax_keeps {A} (proj : State -> A) n s :
  (forall s', proj (updateParallax s') = proj s') ->
  proj (Nat.iter n updateParallax s) = proj s.
Proof.
  intros Hp. induction n as [|n IH]; simpl; [reflexivity |]. now rewrite Hp.
Qed.

Lemma run_callback_registry c s :
  modals (state_of (run_callback c s)) = modals s
  /\ dropdowns (state_of (run_callback c s)) = dropdowns s.
Proof. destruct c; unfold run_callback; split_state s; auto. Qed.

Section Registry.
Context `{Host}.

Lemma step_registry e s :
  modals (step e s) = modals s /\ dropdowns (step e s) = dropdowns s.
Proof.
  destruct e; unfold step;
    try (split_state s; auto; fail).
  - unfold frame. split.
    + now rewrite (iter_updateParallax_keeps modals)
        by (intros s'; unfold updateParallax; now destruct (parallax s')).
    + now rewrite (iter_updateParallax_keeps dropdowns)
        by (intros s'; unfold updateParallax; now destruct (parallax s')).
  - unfold fire. destruct (pop_timer (timers s)) as [[t rest]|]; [| auto].
    destruct (run_callback_registry (cb t)
                (set_now (Z.max (now s) (due t)) (set_timers rest s))) as [-> ->].
    auto.
Qed.

Lemma run_registry es s :
  modals (run es s) = modals s /\ dropdowns (run es s) = dropdowns s.
Proof.
  revert s. induction es as [|e es IH]; intros s; simpl; [auto |].
  destruct (IH (step e s)) as [Hm Hd]. destruct (step_registry e s) as [Hm' Hd'].
  unfold run in *. split; congruence.
Qed.
End Registry.

Lemma register_lookup (kf : widget_el -> string) (els : list widget_el)
  (m : gmap string nat) (key : string) :
  fold_left (fun m el => <[kf el := w_key el]> m) els m !! key
  = match last_keyed kf key els with
    | Some el => Some (w_key el)
    | None => m !! key
    end.
Proof.
  unfold last_keyed. induction els as [|x l IH] using rev_ind; [reflexivity |].
  rewrite fold_left_app, rev_unit. simpl.
  destruct (String.eqb (kf x) key) eqn:E.
  - apply String.eqb_eq in E. subst key. apply lookup_insert_eq.
  - apply String.eqb_neq in E. rewrite lookup_insert_ne by exact E. exact IH.
Qed.

Lemma register_distinct (kf : widget_el -> string) (els : list widget_el)
  (m : gmap string nat) (el : widget_el) :
  List.NoDup (List.map kf els) -> In el els ->
  fold_left (fun m el => <[kf el := w_key el]> m) els m !! kf el = Some (w_key el).
Proof.
  intros Hnd Hin. rewrite register_lookup. unfold last_keyed.
  assert (Hfind : List.find (fun e => String.eqb (kf e) (kf el)) (rev els) = Some el).
  { induction els as [|x l IH] using rev_ind; [destruct Hin |].
    rewrite rev_unit. simpl. rewrite List.map_app in Hnd. simpl in Hnd.
    apply List.NoDup_remove in Hnd as [Hnd Hx]. rewrite app_nil_r in Hnd, Hx.
    apply in_app_iff in Hin as [Hin | [-> | []]].
    - destruct (String.eqb (kf x) (kf el)) eqn:E; [| now apply IH].
      apply String.eqb_eq in E. exfalso. apply Hx. rewrite E. now apply in_map.
    - now rewrite String.eqb_refl. }
  now rewrite Hfind.
Qed.

Section WidgetRegistry.
Context `{Host}.

Lemma init_modals_lookup (p : Page) (key : string) :
  modals (init p) !! key = w_key <$> last_keyed w_id key (pg_modals p).
Proof.
  simpl. unfold initializeModals. rewrite register_lookup.
  now destruct (last_keyed w_id key (pg_modals p)).
Qed.

Lemma init_dropdowns_lookup (p : Page) (key : string) :
  dropdowns (init p) !! key
  = w_key <$> last_keyed dropdown_key key (pg_toggles p).
Proof.
  simpl. unfold initializeDropdowns. rewrite register_lookup.
  now destruct (last_keyed dropdown_key key (pg_toggles p)).
Qed.

(** C8, amended: after initialisation each registry holds, under every key,
    the handle of the last discovered element filed under that key: the id
    for a modal, the id or else the class name for a dropdown toggle.  When
    the keys of the discovered elements are pairwise distinct, every one of
    them has its handle in the registry.  No event changes the registries,
    elements inserted later included. *)
Theorem widget_registry (p : Page) :
  (forall key,
      modals (init p) !! key = w_key <$> last_keyed w_id key (pg_modals p))
  /\ (forall key,
         dropdowns (init p) !! key
         = w_key <$> last_keyed dropdown_key key (pg_toggles p))
  /\ (forall el,
         dropdown_key el = if truthy (w_id el) then w_id el else w_className el)
  /\ (List.NoDup (List.map w_id (pg_modals p)) ->
      forall el, In el (pg_modals p) ->
                 modals (init p) !! w_id el = Some (w_key el))
  /\ (List.NoDup (List.map dropdown_key (pg_toggles p)) ->
      forall el, In el (pg_toggles p) ->
                 dropdowns (init p) !! dropdown_key el = Some (w_key el))
  /\ (forall es,
         modals (run es (init p)) = modals (init p)
         /\ dropdowns (run es (init p)) = dropdowns (init p)).
Proof.
  repeat split.
  - apply init_modals_lookup.
  - apply init_dropdowns_lookup.
  - intros Hnd el Hin. simpl. now apply (register_distinct w_id).
  - intros Hnd el Hin. simpl. now apply (register_distinct dropdown_key).
  - apply run_registry.
  - apply run_registry.
Qed.
End WidgetRegistry.

(** [widget_registry] on a page with one modal and one toggle. *)
Lemma widget_registry_witness :
  modals (init plain_page) !! "bookingModal" = Some 1%nat.
Proof.
  refine (proj1 (proj2 (proj2 (proj2 (widget_registry (H := isoHost) plain_page))))
            _ (mkWidget 1 "bookingModal" "modal fade") _).
  - simpl. repeat constructor. simpl. tauto.
  - simpl. auto.
Defined.

(** C8 as stated fails: of two toggles that lack an id and share their class
    name only the second has a handle in the registry. *)
Lemma registry_claim_counterexample :
  In (mkWidget 1 EmptyString "nav-link dropdown-toggle") (pg_toggles twin_toggles)
  /\ forall key, dropdowns (init twin_toggles) !! key <> Some 1%nat.
Proof.
  split; [simpl; auto |]. intros key.
  rewrite init_dropdowns_lookup.
  unfold last_keyed. simpl. unfold dropdown_key. simpl.
  destruct (String.eqb "nav-link dropdown-toggle" key); simpl; discriminate.
Qed.

Section Invariants.
Context `{Host}.

Lemma run_invariant (P : State -> Prop) :
  (forall e s, P s -> P (step e s)) ->
  forall es s, P s -> P (run es s).
Proof.
  intros Hstep es. unfold run. induction es as [|e es IH]; intros s Hs; simpl;
    [exact Hs | apply IH, Hstep, Hs].
Qed.

Lemma run_app es1 es2 s : run (es1 ++ es2) s = run es2 (run es1 s).
Proof. unfold run. apply fold_left_app. Qed.
End Invariants.

(** ** Parallax *)

Lemma run_callback_parallax c s :
  raf (state_of (run_callback c s)) = raf s
  /\ parallax (state_of (run_callback c s)) = parallax s
  /\ pageYOffset (state_of (run_callback c s)) = pageYOffset s.
Proof. destruct c; unfold run_callback; split_state s; auto. Qed.

Lemma frame_effect s :
  raf (frame s) = 0%nat
  /\ pageYOffset (frame s) = pageYOffset s
  /\ parallax (frame s)
     = match raf s, parallax s with
       | S _, Some p =>
           Some (mkParallax false
                   (List.map (fun e => mkImage (i_key e)
                                         (Translate3d 0 (parallax_rate (pageYOffset s)) 0))
                      (px_images p)))
       | _, _ => parallax s
       end.
Proof.
  unfold frame.
  assert (Hiter : forall n s0,
    raf (Nat.iter n updateParallax s0) = raf s0
    /\ pageYOffset (Nat.iter n updateParallax s0) = pageYOffset s0
    /\ parallax (Nat.iter n updateParallax s0)
       = match n, parallax s0 with
         | S _, Some p =>
             Some (mkParallax false
                     (List.map (fun e => mkImage (i_key e)
                                           (Translate3d 0 (parallax_rate (pageYOffset s0)) 0))
                        (px_images p)))
         | _, _ => parallax s0
         end).
  { induction n as [|n IH]; intros s0; [simpl; auto |].
    destruct (IH s0) as (Hr & Hy & Hp). simpl Nat.iter. unfold updateParallax at 1 3 5.
    rewrite Hp. destruct n as [|n], (parallax s0) as [p|]; proj_simpl; auto.
    repeat split; auto. rewrite Hy. cbn [px_images]. rewrite List.map_map.
    reflexivity. }
  destruct (Hiter (raf s) (set_raf 0 s)) as (Hr & Hy & Hp).
  rewrite Hr, Hy, Hp. auto.
Qed.

Section ParallaxScroll.
Context `{Host}.

Lemma step_frame_discipline e s : frame_discipline s -> frame_discipline (step e s).
Proof.
  unfold frame_discipline. intros [Hle Hflag].
  destruct e; unfold step;
    try (split_state s; auto; fail).
  - (* Scroll *)
    unfold requestParallaxUpdate. proj_simpl.
    destruct s as [? ? r ? ? px ? ? ? ? ? ? ? ?]. proj_simpl.
    destruct px as [[[|] imgs]|]; proj_simpl; cbn [ticking negb] in *; auto.
    assert (r = 0%nat) as ->.
    { destruct r as [|[|r]]; [reflexivity | | lia].
      destruct Hflag as [_ Hf]. discriminate (Hf eq_refl). }
    proj_simpl. cbn [ticking]. split; [lia | tauto].
  - (* Frame *)
    destruct (frame_effect s) as (Hr & _ & Hp). rewrite Hr, Hp.
    split; [lia |].
    destruct (raf s) as [|r] eqn:Er, (parallax s) as [p|]; cbn [ticking]; auto;
      (split; [| discriminate]); intros Ht; try discriminate;
      apply Hflag in Ht; discriminate.
  - (* Fire *)
    unfold fire. destruct (pop_timer (timers s)) as [[t rest]|]; [| auto].
    destruct (run_callback_parallax (cb t)
                (set_now (Z.max (now s) (due t)) (set_timers rest s)))
      as (-> & -> & _).
    auto.
Qed.

(** C5: in every state the controller reaches, at most one frame request
    is queued and [ticking] is set exactly while one is.  A scroll event
    queues a request only when the flag is clear and sets the flag; the
    frame that runs the request clears the flag and gives every parallax
    image the transform [translate3d(0, r px, 0)] with [r] equal to -0.5
    times the scroll offset at that moment. *)
Theorem parallax_scroll (pg : Page) (es : list event) :
  let s := run es (init pg) in
  frame_discipline s
  /\ (forall p, parallax s = Some p -> raf s = 1%nat ->
        raf (step Frame s) = 0%nat
        /\ parallax (step Frame s)
           = Some (mkParallax false
                     (List.map (fun e => mkImage (i_key e)
                                           (Translate3d 0 (parallax_rate (pageYOffset s)) 0))
                        (px_images p))))
  /\ (forall y p, parallax s = Some p ->
        pageYOffset (step (Scroll y) s) = y
        /\ (ticking p = true ->
            raf (step (Scroll y) s) = raf s /\ parallax (step (Scroll y) s) = Some p)
        /\ (ticking p = false ->
            raf (step (Scroll y) s) = S (raf s)
            /\ parallax (step (Scroll y) s) = Some (mkParallax true (px_images p))))
  /\ (forall y, parallax_rate y == - (1 # 2) * y)%Q.
Proof.
  intros s. split; [| split; [| split]].
  - apply run_invariant; [apply step_frame_discipline |].
    unfold frame_discipline, init. proj_simpl. split; [lia |].
    unfold setupParallaxEffect. repeat break_inner; cbn [ticking]; auto.
    split; discriminate.
  - intros p Hp Hr. simpl. destruct (frame_effect s) as (Hr' & _ & Hp').
    now rewrite Hr', Hp', Hr, Hp.
  - intros y p Hp. unfold step, requestParallaxUpdate.
    destruct s as [? ? r ? ? px ? ? ? ? ? ? ? ?]. proj_simpl. subst px.
    destruct p as [[|] imgs]; cbn [ticking negb]; proj_simpl;
      repeat split; auto; discriminate.
  - intros y. unfold parallax_rate. ring.
Qed.
End ParallaxScroll.

(** [parallax_scroll] after one scroll event on a page with an image. *)
Lemma parallax_scroll_witness :
  parallax (step (H := isoHost) Frame (run (H := isoHost) [Scroll 100] (init plain_page)))
  = Some (mkParallax false [mkImage 3 (Translate3d 0 (parallax_rate 100) 0)]).
Proof.
  exact (proj2 (proj1 (proj2 (parallax_scroll (H := isoHost) plain_page [Scroll 100]))
                  (mkParallax true [mkImage 3 NoTransform]) eq_refl eq_refl)).
Defined.

(** ** Timers *)

Lemma pop_timer_spec l t rest :
  pop_timer l = Some (t, rest) ->
  In t l /\ (forall u, In u rest -> In u l) /\ (forall u, In u l -> due t <= due u).
Proof.
  revert t rest. induction l as [|x l IH]; intros t rest Hp; simpl in Hp;
    [discriminate |].
  destruct (pop_timer l) as [[u r']|] eqn:El.
  - destruct (IH u r' eq_refl) as (Hin & Hsub & Hmin).
    destruct (due u <? due x) eqn:Hlt; injection Hp as <- <-.
    + apply Z.ltb_lt in Hlt. repeat split.
      * now right.
      * intros v [<- | Hv]; [now left | right; auto].
      * intros v [<- | Hv]; [lia | auto].
    + apply Z.ltb_ge in Hlt. repeat split.
      * now left.
      * intros v Hv. now right.
      * intros v [<- | Hv]; [lia |]. specialize (Hmin v Hv). lia.
  - injection Hp as <- <-. destruct l; [| simpl in El; destruct (pop_timer l) as [[? ?]|];
      [destruct (_ <? _) |]; discriminate].
    repeat split.
    + now left.
    + intros v [].
    + intros v [<- | []]. lia.
Qed.

Ltac clock_solve :=
  unfold clock_sound in *; proj_simpl;
  repeat rewrite List.Forall_app; repeat split; auto;
  repeat constructor; cbn [due]; lia.

Lemma run_callback_clock c s :
  clock_sound s ->
  clock_sound (state_of (run_callback c s))
  /\ now (state_of (run_callback c s)) = now s.
Proof.
  intros Hs. destruct c; unfold run_callback; split_state s;
    (split; [clock_solve | reflexivity]).
Qed.

Section Clock.
Context `{Host}.

Lemma step_clock e s : clock_sound s -> clock_sound (step e s).
Proof.
  intros Hs. destruct e; unfold step;
    try (split_state s; clock_solve; fail).
  - (* Frame *)
    unfold clock_sound, frame.
    rewrite (iter_updateParallax_keeps now), (iter_updateParallax_keeps timers)
      by (intros s'; unfold updateParallax; now destruct (parallax s')).
    exact Hs.
  - (* Fire *)
    unfold fire. destruct (pop_timer (timers s)) as [[t rest]|] eqn:Ep; [| exact Hs].
    apply run_callback_clock. destruct (pop_timer_spec _ _ _ Ep) as (Hin & Hsub & Hmin).
    unfold clock_sound in *. proj_simpl. rewrite List.Forall_forall in *.
    intros u Hu. specialize (Hs u (Hsub u Hu)). specialize (Hmin u (Hsub u Hu)). lia.
  - (* Wait *)
    unfold wait. destruct (d <? 0) eqn:Hd; [exact Hs |].
    apply Z.ltb_ge in Hd.
    destruct (pop_timer (timers s)) as [[t rest]|] eqn:Ep.
    + destruct (pop_timer_spec _ _ _ Ep) as (Hin & Hsub & Hmin).
      unfold clock_sound in *. proj_simpl. rewrite List.Forall_forall in *.
      intros u Hu. specialize (Hs u Hu). specialize (Hmin u Hu). lia.
    + destruct (timers s) as [|x l] eqn:Et.
      * unfold clock_sound. proj_simpl. rewrite Et. constructor.
      * simpl in Ep. destruct (pop_timer l) as [[? ?]|]; [destruct (_ <? _) |];
          discriminate.
Qed.

Lemma init_clock p : clock_sound (init p).
Proof. unfold clock_sound, init. proj_simpl. constructor. Qed.

(** A timer fires at its due time. *)
Lemma fire_on_time s t rest :
  clock_sound s -> pop_timer (timers s) = Some (t, rest) ->
  now (step Fire s) = due t.
Proof.
  intros Hs Ep. unfold step, fire. rewrite Ep.
  destruct (pop_timer_spec _ _ _ Ep) as (Hin & _ & _).
  unfold clock_sound in Hs. rewrite List.Forall_forall in Hs. specialize (Hs t Hin).
  assert (Hnow : forall c s0, now (state_of (run_callback c s0)) = now s0).
  { intros c s0. destruct c; unfold run_callback; split_state s0; reflexivity. }
  rewrite Hnow. proj_simpl. lia.
Qed.
End Clock.

(** ** Notifications *)

Lemma showNotification_effect message type s :
  notes (state_of (showNotification message type s)) = [banner (fresh s) message type]
  /\ fresh (state_of (showNotification message type s)) = S (fresh s)
  /\ now (state_of (showNotification message type s)) = now s
  /\ timers (state_of (showNotification message type s))
     = timers s ++ mkTimer (now s + 100) (SlideIn (fresh s))
         :: (if has_close (banner (fresh s) message type)
             then [mkTimer (now s + 5000) (AutoHide (fresh s))] else []).
Proof.
  unfold showNotification, has_close, banner. cbn [n_kids].
  destruct (query_class _ _); unfold setTimeout; proj_simpl;
    rewrite <- ?app_assoc; auto.
Qed.

Lemma set_transform_length k v l : length (set_transform k v l) = length l.
Proof. unfold set_transform. apply length_map. Qed.

Lemma filter_length_le {A} (p : A -> bool) (l : list A) :
  (length (List.filter p l) <= length l)%nat.
Proof.
  induction l as [|x l IH]; simpl; [lia |]. destruct (p x); simpl; lia.
Qed.

Lemma run_callback_notes c s :
  (length (notes s) <= 1)%nat ->
  (length (notes (state_of (run_callback c s))) <= 1)%nat.
Proof.
  intros Hs. destruct c; unfold run_callback; split_state s;
    cbn [length]; rewrite ?set_transform_length; try lia.
  eapply Nat.le_trans; [apply filter_length_le | exact Hs].
Qed.

Lemma detached k l :
  existsb (fun n => Nat.eqb (n_key n) k)
    (List.filter (fun n => negb (Nat.eqb (n_key n) k)) l) = false.
Proof.
  induction l as [|n l IH]; simpl; [reflexivity |].
  destruct (Nat.eqb (n_key n) k) eqn:E; simpl; [exact IH | now rewrite E].
Qed.

(** *** Plain messages *)

Lemma chars_app a b : chars (a +:+ b) = chars a ++ chars b.
Proof.
  unfold chars. induction a as [|c a IH]; simpl; [reflexivity |]. now rewrite IH.
Qed.

Lemma lex_prefix r :
  lex LData (chars html_prefix ++ r) = lex LData (chars html_prefix) ++ lex LData r.
Proof. vm_compute. reflexivity. Qed.

Lemma lex_plain_char c r :
  plain_char c = true -> lex LData (c :: r) = TChar c :: lex LData r.
Proof.
  unfold plain_char. intros Hc. apply negb_true_iff in Hc.
  apply orb_false_iff in Hc as [Hc H13]. apply orb_false_iff in Hc as [Hc H0].
  apply orb_false_iff in Hc as [Hlt Hamp].
  cbn [lex]. now rewrite Hlt, Hamp, H0, H13.
Qed.

Lemma lex_plain cs r :
  forallb plain_char cs = true -> lex LData (cs ++ r) = List.map TChar cs ++ lex LData r.
Proof.
  induction cs as [|c cs IH]; intros Hp; [reflexivity |].
  simpl in Hp. apply andb_true_iff in Hp as [Hc Hcs].
  cbn [app List.map]. rewrite lex_plain_char by exact Hc. now rewrite IH.
Qed.

Lemma feed_prefix : fold_left feed (lex LData (chars html_prefix)) ([], []) = slot_builder [].
Proof. vm_compute. reflexivity. Qed.

Lemma feed_text cs rslot :
  fold_left feed (List.map TChar cs) (slot_builder rslot)
  = slot_builder (rev (List.map HText cs) ++ rslot).
Proof.
  revert rslot. induction cs as [|c cs IH]; intros rslot; [reflexivity |].
  cbn [List.map fold_left].
  change (feed (slot_builder rslot) (TChar c)) with (slot_builder (HText c :: rslot)).
  rewrite IH. cbn [rev]. now rewrite <- app_assoc.
Qed.

Lemma finish_suffix rslot :
  finish (fold_left feed (lex LData (chars html_suffix)) (slot_builder rslot))
  = banner_tree (rev rslot).
Proof. vm_compute. reflexivity. Qed.

(** For a plain message the banner is the template with the message as the
    character data of the message slot. *)
Lemma plain_banner message :
  plain message = true ->
  parse_fragment (notification_html message)
  = banner_tree (List.map HText (chars message)).
Proof.
  intros Hp. unfold parse_fragment, notification_html, build.
  rewrite !chars_app, lex_prefix, (lex_plain _ _ Hp), !fold_left_app.
  rewrite feed_prefix, feed_text, finish_suffix.
  now rewrite app_nil_r, rev_involutive.
Qed.

Lemma text_of_chars cs : flat_nodes text_content (List.map HText cs) = cs.
Proof. induction cs as [|c cs IH]; simpl; [reflexivity |]. now rewrite IH. Qed.

Lemma no_elements_of_chars cs : flat_nodes elements_of (List.map HText cs) = [].
Proof. induction cs as [|c cs IH]; simpl; [reflexivity | exact IH]. Qed.

Lemma banner_tree_slot slot :
  query_class "experience-notification__message" (banner_tree slot)
  = Some (HElem "span" [("class", "experience-notification__message")] slot).
Proof. vm_compute. reflexivity. Qed.

Lemma banner_tree_close slot :
  flat_nodes elements_of slot = [] ->
  query_class "experience-notification__close" (banner_tree slot) <> None.
Proof.
  intros Hs. unfold query_class, banner_tree.
  assert (Hel : flat_nodes elements_of
                  (indent 12
                   ++ [HElem "div" [("class", "experience-notification__content")]
                         (indent 16
                          ++ [HElem "span" [("class", "experience-notification__message")] slot]
                          ++ indent 16
                          ++ [HElem "button"
                                [("class", "experience-notification__close");
                                 ("type", "button"); ("aria-label", "Close")]
                                (indent 20 ++ [HElem "i" [("class", "bi bi-x-lg")] []]
                                 ++ indent 16)]
                          ++ indent 12)]
                   ++ indent 8)
                = [HElem "div" [("class", "experience-notification__content")]
                     (indent 16
                      ++ [HElem "span" [("class", "experience-notification__message")] slot]
                      ++ indent 16
                      ++ [HElem "button"
                            [("class", "experience-notification__close");
                             ("type", "button"); ("aria-label", "Close")]
                            (indent 20 ++ [HElem "i" [("class", "bi bi-x-lg")] []]
                             ++ indent 16)]
                      ++ indent 12);
                   HElem "span" [("class", "experience-notification__message")] slot]
                  ++ (flat_nodes elements_of slot
                      ++ [HElem "button"
                            [("class", "experience-notification__close");
                             ("type", "button"); ("aria-label", "Close")]
                            (indent 20 ++ [HElem "i" [("class", "bi bi-x-lg")] []]
                             ++ indent 16);
                          HElem "i" [("class", "bi bi-x-lg")] []])
                  ++ []).
  { vm_compute. reflexivity. }
  rewrite Hel, Hs. vm_compute. discriminate.
Qed.

(** What a plain message makes of the banner. *)
Lemma plain_banner_facts k message type :
  plain message = true ->
  n_kids (banner k message type) = banner_tree (List.map HText (chars message))
  /\ message_text (banner k message type) = Some message
  /\ message_elements (banner k message type) = []
  /\ has_close (banner k message type) = true.
Proof.
  intros Hp. unfold message_text, message_elements, has_close, banner. cbn [n_kids].
  rewrite (plain_banner message Hp), banner_tree_slot.
  split; [reflexivity |]. split.
  - cbn [fmap option_fmap option_map text_content].
    now rewrite text_of_chars, unchars_chars.
  - split.
    + induction (chars message) as [|c cs IH]; simpl; [reflexivity | exact IH].
    + pose proof (banner_tree_close _ (no_elements_of_chars (chars message))) as Hc.
      now destruct (query_class _ _).
Qed.

Section NotificationSurface.
Context `{Host}.

Lemma step_notes e s :
  (length (notes s) <= 1)%nat -> (length (notes (step e s)) <= 1)%nat.
Proof.
  intros Hs. destruct e; unfold step;
    try (split_state s; cbn [length]; rewrite ?set_transform_length; lia).
  - unfold frame. now rewrite (iter_updateParallax_keeps notes)
      by (intros s'; unfold updateParallax; now destruct (parallax s')).
  - unfold fire. destruct (pop_timer (timers s)) as [[t rest]|]; [| exact Hs].
    now apply run_callback_notes.
Qed.

(** C4: the page never holds more than one notification: every call
    removes the banners present and appends its own, so after two calls
    in a row the only banner is the one built from the second message.
    A click on the close control, or the timer set five seconds after the
    call, slides the banner out and sets a timer 300 ms ahead; when that
    timer fires the banner is no longer in the page. *)
Theorem notification_surface :
  (forall pg es, (length (notes (run es (init pg))) <= 1)%nat)
  /\ (forall s m1 t1 m2 t2,
         notes (run [Notify m1 t1; Notify m2 t2] s) = [banner (S (fresh s)) m2 t2]
         /\ (plain m2 = true ->
             message_text (banner (S (fresh s)) m2 t2) = Some m2))
  /\ (forall s m ty,
         has_close (banner (fresh s) m ty) = true ->
         timers (step (Notify m ty) s)
         = timers s ++ [mkTimer (now s + 100) (SlideIn (fresh s));
                        mkTimer (now s + 5000) (AutoHide (fresh s))])
  /\ (forall s k n,
         List.find (fun n => Nat.eqb (n_key n) k) (notes s) = Some n ->
         has_close n = true ->
         notes (step (CloseClick k) s) = set_transform k slid_out (notes s)
         /\ timers (step (CloseClick k) s)
            = timers s ++ [mkTimer (now s + 300) (Detach k)])
  /\ (forall s k t rest,
         clock_sound s -> pop_timer (timers s) = Some (t, rest) ->
         cb t = AutoHide k -> attached k s = true ->
         now (step Fire s) = due t
         /\ notes (step Fire s) = set_transform k slid_out (notes s)
         /\ timers (step Fire s) = rest ++ [mkTimer (due t + 300) (Detach k)])
  /\ (forall s k t rest,
         clock_sound s -> pop_timer (timers s) = Some (t, rest) ->
         cb t = Detach k ->
         now (step Fire s) = due t
         /\ notes (step Fire s)
            = List.filter (fun n => negb (Nat.eqb (n_key n) k)) (notes s)
         /\ attached k (step Fire s) = false)
  /\ (forall pg es, clock_sound (run es (init pg))).
Proof.
  repeat apply conj.
  - intros pg es. apply (run_invariant (fun s => (length (notes s) <= 1)%nat)).
    + apply step_notes.
    + unfold init. proj_simpl. simpl. lia.
  - intros s m1 t1 m2 t2. unfold run. cbn [fold_left step].
    destruct (showNotification_effect m1 t1 s) as (_ & Hf & _).
    destruct (showNotification_effect m2 t2 (state_of (showNotification m1 t1 s)))
      as (Hn & _).
    split; [now rewrite Hn, Hf |]. intros Hp. now apply plain_banner_facts.
  - intros s m ty Hc. unfold step.
    destruct (showNotification_effect m ty s) as (_ & _ & _ & Ht).
    now rewrite Ht, Hc.
  - intros s k n Hfind Hc. unfold step, closeClick. rewrite Hfind.
    unfold has_close in Hc. destruct (query_class _ _); [| discriminate].
    unfold hideNotification, setTimeout. proj_simpl. auto.
  - intros s k t rest Hs Ep Hcb Hatt.
    split; [now apply (fire_on_time s t rest) |].
    assert (Hdue : Z.max (now s) (due t) = due t).
    { destruct (pop_timer_spec _ _ _ Ep) as (Hin & _ & _).
      unfold clock_sound in Hs. rewrite List.Forall_forall in Hs.
      specialize (Hs t Hin). lia. }
    unfold step, fire. rewrite Ep, Hcb. unfold run_callback.
    assert (Hatt' : attached k (set_now (Z.max (now s) (due t)) (set_timers rest s))
                    = true) by exact Hatt.
    rewrite Hatt'. unfold hideNotification, setTimeout. proj_simpl.
    now rewrite Hdue.
  - intros s k t rest Hs Ep Hcb.
    split; [now apply (fire_on_time s t rest) |].
    unfold step, fire. rewrite Ep, Hcb. unfold run_callback, attached. proj_simpl.
    split; [reflexivity | apply detached].
  - intros pg es. apply (run_invariant clock_sound);
      [apply step_clock | apply init_clock].
Qed.
End NotificationSurface.

(** [notification_surface] on a banner that is closed by hand. *)
Lemma notification_surface_witness :
  timers (step (H := isoHost) (CloseClick 4)
            (run (H := isoHost) [Notify "Saved" "success"] (init plain_page)))
  = timers (run (H := isoHost) [Notify "Saved" "success"] (init plain_page))
    ++ [mkTimer (now (run (H := isoHost) [Notify "Saved" "success"] (init plain_page)) + 300)
          (Detach 4)].
Proof.
  refine (proj2 (proj1 (proj2 (proj2 (proj2 (notification_surface (H := isoHost)))))
                   (run (H := isoHost) [Notify "Saved" "success"] (init plain_page))
                   4%nat (banner 4 "Saved" "success") _ _)).
  - vm_compute. reflexivity.
  - vm_compute. reflexivity.
Defined.

(** C10: the message is spliced into the markup of the banner, so a
    message that holds a tag is not shown as written: for [<b>Saved</b>] the
    message slot reads [Saved] and holds a [b] element.  A message without
    [<], [&], NUL and CR is shown as it is, as the only content of the
    slot. *)
Theorem notification_markup (s : State) :
  notes (state_of (showNotification "<b>Saved</b>" "info" s))
  = [banner (fresh s) "<b>Saved</b>" "info"]
  /\ message_text (banner (fresh s) "<b>Saved</b>" "info") = Some "Saved"
  /\ message_elements (banner (fresh s) "<b>Saved</b>" "info") = ["b"]
  /\ (forall message type,
         plain message = true ->
         notes (state_of (showNotification message type s))
         = [banner (fresh s) message type]
         /\ n_kids (banner (fresh s) message type)
            = banner_tree (List.map HText (chars message))
         /\ message_text (banner (fresh s) message type) = Some message
         /\ message_elements (banner (fresh s) message type) = []
         /\ has_close (banner (fresh s) message type) = true).
Proof.
  split; [apply showNotification_effect |].
  split; [unfold message_text, banner; cbn [n_kids]; vm_compute; reflexivity |].
  split; [unfold message_elements, banner; cbn [n_kids]; vm_compute; reflexivity |].
  intros message type Hp.
  split; [apply showNotification_effect | now apply plain_banner_facts].
Qed.

(** [notification_markup] on a plain message. *)
Lemma notification_markup_witness :
  message_text (banner 4 "Saved" "info") = Some "Saved".
Proof.
  exact (proj1 (proj2 (proj2
    (proj2 (proj2 (proj2 (notification_markup (init plain_page))))
       "Saved" "info" eq_refl)))).
Defined.

Lemma showNotification_returns message type s :
  has_close (banner (fresh s) message type) = true ->
  showNotification message type s = Returned (notified message type s).
Proof.
  unfold has_close, showNotification, notified, banner. cbn [n_kids].
  now destruct (query_class _ _).
Qed.

Lemma has_close_booked k : has_close (banner k msg_booked "success") = true.
Proof. unfold has_close, banner. cbn [n_kids]. vm_compute. reflexivity. Qed.

Lemma has_close_subscribed k : has_close (banner k msg_subscribed "success") = true.
Proof. unfold has_close, banner. cbn [n_kids]. vm_compute. reflexivity. Qed.

Lemma fields_reset_form t :
  fields (reset_form t)
  = List.map (fun kf => (fst kf, with_value (f_default (snd kf)) (snd kf))) (fields t).
Proof.
  induction t as [k f | m | kids IH] using node_rect'; try reflexivity.
  change (fields (reset_form (Box kids))) with (flat_kids fields (List.map reset_form kids)).
  simpl fields. induction IH as [|n r Hn _ IHr]; simpl; [reflexivity |].
  now rewrite List.map_app, Hn, IHr.
Qed.

Lemma reset_form_defaults t :
  List.Forall (fun kf => f_value (snd kf) = f_default (snd kf)) (fields (reset_form t)).
Proof.
  rewrite fields_reset_form. apply List.Forall_forall. intros kf Hin.
  apply in_map_iff in Hin as (kf' & <- & _). reflexivity.
Qed.

Lemma find_key_with k (g : field -> field) (l : list (nat * field)) :
  snd <$> List.find (fun kf => Nat.eqb (fst kf) k)
            (List.map (fun kf => (fst kf, g (snd kf))) l)
  = g <$> (snd <$> List.find (fun kf => Nat.eqb (fst kf) k) l).
Proof.
  induction l as [|[k0 f0] l IH]; [reflexivity |]. simpl.
  destruct (Nat.eqb k0 k); [reflexivity | exact IH].
Qed.

Lemma direct_reset_form k (kids : list node) :
  existsb (is_field_key k) (List.map reset_form kids)
  = existsb (is_field_key k) kids.
Proof.
  induction kids as [|n r IH]; [reflexivity |]. simpl. rewrite IH.
  now destruct n.
Qed.

Lemma feedbacks_reset_form t : feedbacks (reset_form t) = feedbacks t.
Proof.
  induction t as [k f | m | kids IH] using node_rect'; try reflexivity.
  change (feedbacks (reset_form (Box kids)))
    with (flat_kids feedbacks (List.map reset_form kids)).
  rewrite flat_kids_map. now apply flat_kids_ext.
Qed.

(** What [form.reset()] does to a form: every control keeps its place, its
    key and its attributes and takes the default it had as its value; the
    error annotations stay where they were. *)
Lemma reset_form_spec t :
  fields (reset_form t)
  = List.map (fun kf => (fst kf, with_value (f_default (snd kf)) (snd kf))) (fields t)
  /\ (forall k, field_of k (reset_form t)
                = (fun f => with_value (f_default f) f) <$> field_of k t)
  /\ (forall k, annotations k (reset_form t) = annotations k t).
Proof.
  split; [apply fields_reset_form |]. split.
  - intros k. unfold field_of. rewrite fields_reset_form.
    apply (find_key_with k (fun f => with_value (f_default f) f)).
  - intros k. induction t as [k0 f | m | kids IH] using node_rect'; try reflexivity.
    change (reset_form (Box kids)) with (Box (List.map reset_form kids)).
    rewrite !annotations_box, direct_reset_form. f_equal.
    + destruct (existsb (is_field_key k) kids); [| reflexivity].
      rewrite flat_kids_map. apply flat_kids_ext, List.Forall_forall.
      intros n _. apply feedbacks_reset_form.
    + rewrite flat_kids_map. now apply flat_kids_ext.
Qed.

(** ** Newsletter *)

Section NewsletterSubmission.
Context `{Host}.

(** C7: on submit of a newsletter form that has its email input, one of
    three things happens.  With an empty trimmed value the handler shows
    the error for a missing address and does nothing else; with a value that
    does not match the email pattern it shows the error for an invalid
    address and does nothing else; otherwise it disables the submit control
    under the label [Subscribing...] and sets a timer 1.5 s ahead, and when
    that timer fires the control is restored, a success notification is shown
    and the form is reset: every control of the form is still there, in its
    place and with its attributes, and holds the default it had as its
    value; the error annotations stay. *)
Theorem newsletter_submission (s : State) (f : Newsletter) (k : nat) (input : field) :
  newsletter s = Some f ->
  emailInput (nl_form f) = Some (k, input) ->
  let email := trim (f_value input) in
  (email = EmptyString ->
   step NewsletterSubmit s = state_of (showNotification msg_no_email "error" s)
   /\ notes (step NewsletterSubmit s) = [banner (fresh s) msg_no_email "error"]
   /\ newsletter (step NewsletterSubmit s) = newsletter s)
  /\ (email <> EmptyString -> test emailRegex email = false ->
      step NewsletterSubmit s = state_of (showNotification msg_email "error" s)
      /\ notes (step NewsletterSubmit s) = [banner (fresh s) msg_email "error"]
      /\ newsletter (step NewsletterSubmit s) = newsletter s)
  /\ (test emailRegex email = true ->
      forall btn, nl_button f = Some btn ->
        newsletter (step NewsletterSubmit s)
        = Some (mkNewsletter (nl_form f) (Some (mkButton "Subscribing..." true)))
        /\ timers (step NewsletterSubmit s)
           = timers s ++ [mkTimer (now s + 1500) (NewsletterDone (b_text btn))]
        /\ notes (step NewsletterSubmit s) = notes s)
  /\ (forall s2 f2 btn2 t rest originalText,
         clock_sound s2 -> newsletter s2 = Some f2 -> nl_button f2 = Some btn2 ->
         pop_timer (timers s2) = Some (t, rest) -> cb t = NewsletterDone originalText ->
         now (step Fire s2) = due t
         /\ newsletter (step Fire s2)
            = Some (mkNewsletter (reset_form (nl_form f2))
                      (Some (mkButton originalText false)))
         /\ notes (step Fire s2) = [banner (fresh s2) msg_subscribed "success"]
         /\ message_text (banner (fresh s2) msg_subscribed "success") = Some msg_subscribed
         /\ List.Forall (fun kf => f_value (snd kf) = f_default (snd kf))
              (fields (reset_form (nl_form f2)))
         /\ fields (reset_form (nl_form f2))
            = List.map (fun kf => (fst kf, with_value (f_default (snd kf)) (snd kf)))
                (fields (nl_form f2))
         /\ (forall k0, field_of k0 (reset_form (nl_form f2))
                        = (fun f0 => with_value (f_default f0) f0)
                            <$> field_of k0 (nl_form f2))
         /\ (forall k0, annotations k0 (reset_form (nl_form f2))
                        = annotations k0 (nl_form f2))).
Proof.
  intros Hf Hin email.
  assert (Hframe : forall m ty s0,
             newsletter (state_of (showNotification m ty s0)) = newsletter s0).
  { intros m ty s0. unfold showNotification, setTimeout.
    destruct (query_class _ _); reflexivity. }
  split; [| split; [| split]].
  - intros He. unfold step, handleNewsletterSubmission. rewrite Hf, Hin.
    fold email. rewrite He. cbn [truthy negb].
    split; [reflexivity |]. split; [apply showNotification_effect | now rewrite Hframe].
  - intros He Ht. unfold step, handleNewsletterSubmission. rewrite Hf, Hin.
    fold email. apply truthy_true in He. rewrite He, Ht. cbn [negb].
    split; [reflexivity |]. split; [apply showNotification_effect | now rewrite Hframe].
  - intros Ht btn Hb. unfold step, handleNewsletterSubmission. rewrite Hf, Hin.
    fold email. rewrite Ht, Hb.
    destruct (truthy email) eqn:He.
    + cbn [negb state_of]. unfold setTimeout. proj_simpl. auto.
    + apply truthy_false in He. rewrite He in Ht. vm_compute in Ht. discriminate.
  - intros s2 f2 btn2 t rest originalText Hs Hf2 Hb2 Ep Hcb.
    split; [now apply (fire_on_time s2 t rest) |].
    unfold step, fire. rewrite Ep, Hcb. unfold run_callback, newsletterDone.
    proj_simpl. rewrite Hf2, Hb2.
    rewrite showNotification_returns by apply has_close_subscribed.
    unfold notified, setTimeout. proj_simpl. cbn [nl_form nl_button].
    split; [reflexivity |]. split; [reflexivity |]. split; [| split].
    + unfold message_text, banner. cbn [n_kids]. vm_compute. reflexivity.
    + apply reset_form_defaults.
    + apply reset_form_spec.
Qed.
End NewsletterSubmission.

(** [newsletter_submission] on a well-formed address. *)
Lemma newsletter_submission_witness :
  timers (step (H := isoHost) NewsletterSubmit (init (footer_page "user@example.com")))
  = [mkTimer 1500 (NewsletterDone "Subscribe")].
Proof.
  exact (proj1 (proj2 (proj1 (proj2 (proj2
    (newsletter_submission (H := isoHost) (init (footer_page "user@example.com"))
       (mkNewsletter
          (Box [Field 1 (mkField TagInput "email" "email" "email" true
                           "user@example.com" EmptyString false)])
          (Some (mkButton "Subscribe" false)))
       1%nat
       (mkField TagInput "email" "email" "email" true "user@example.com" EmptyString false)
       eq_refl eq_refl)))
    eq_refl (mkButton "Subscribe" false) eq_refl))).
Defined.

(** ** Booking *)

Lemma collect_fold (l : list (nat * field)) (acc : gmap string string) (key : string) :
  key <> "__proto__" ->
  fold_left
    (fun data kf =>
       if truthy (f_name (snd kf)) || truthy (f_id (snd kf))
       then obj_set (field_key (snd kf)) (f_value (snd kf)) data
       else data) l acc !! key
  = match List.find (fun e => String.eqb (fst e) key)
            (rev (List.map (fun kf => (field_key (snd kf), f_value (snd kf)))
                    (List.filter
                       (fun kf => truthy (f_name (snd kf)) || truthy (f_id (snd kf))) l)))
    with
    | Some e => Some (snd e)
    | None => acc !! key
    end.
Proof.
  intros Hkey. induction l as [|x l IH] using rev_ind; [reflexivity |].
  rewrite fold_left_app, List.filter_app, List.map_app, rev_app_distr. simpl.
  destruct (truthy (f_name (snd x)) || truthy (f_id (snd x))); simpl; [| exact IH].
  unfold obj_set.
  destruct (String.eqb (field_key (snd x)) key) eqn:E.
  - apply String.eqb_eq in E.
    destruct (String.eqb (field_key (snd x)) "__proto__") eqn:Ep.
    + apply String.eqb_eq in Ep. congruence.
    + rewrite E. apply lookup_insert_eq.
  - apply String.eqb_neq in E.
    destruct (String.eqb (field_key (snd x)) "__proto__"); [exact IH |].
    rewrite lookup_insert_ne by exact E. exact IH.
Qed.

Lemma collect_lookup form key :
  key <> "__proto__" ->
  collectFormData form !! key
  = snd <$> List.find (fun e => String.eqb (fst e) key) (rev (named_values form)).
Proof.
  intros Hkey. unfold collectFormData, named_values. rewrite collect_fold by exact Hkey.
  now destruct (List.find _ _).
Qed.

Lemma named_values_data t t' : data t = data t' -> named_values t = named_values t'.
Proof.
  assert (Hn : forall u, named_values u
                         = List.map (fun kf => (field_key (snd kf), f_value (snd kf)))
                             (List.filter
                                (fun kf => truthy (f_name (snd kf)) || truthy (f_id (snd kf)))
                                (data u))).
  { intros u. unfold named_values, data.
    induction (fields u) as [|[k f] l IH]; [reflexivity |].
    cbn [List.map List.filter erase datum with_invalid fst snd f_name f_id].
    destruct (truthy (f_name f) || truthy (f_id f)); cbn [List.map]; now rewrite IH. }
  intros E. now rewrite !Hn, E.
Qed.

Lemma collect_no_proto (l : list (nat * field)) (acc : gmap string string) :
  acc !! "__proto__" = None ->
  fold_left
    (fun data kf =>
       let input := snd kf in
       if truthy (f_name input) || truthy (f_id input)
       then obj_set (field_key input) (f_value input) data
       else data) l acc !! "__proto__" = None.
Proof.
  revert acc. induction l as [|[k f] l IH]; intros acc Hacc; [exact Hacc |].
  simpl. apply IH. destruct (truthy (f_name f) || truthy (f_id f)); [| exact Hacc].
  unfold obj_set. destruct (String.eqb (field_key f) "__proto__") eqn:E; [exact Hacc |].
  apply String.eqb_neq in E. now rewrite lookup_insert_ne.
Qed.

Lemma bookingDone_effect originalText s b :
  booking s = Some b ->
  booking (state_of (bookingDone originalText s))
  = Some (mkBooking (reset_form (bk_form b)) (mkButton originalText false))
  /\ notes (state_of (bookingDone originalText s)) = [banner (fresh s) msg_booked "success"]
  /\ message_text (banner (fresh s) msg_booked "success") = Some msg_booked
  /\ open_modals (state_of (bookingDone originalText s))
     = match modals s !! "bookingModal" with
       | Some bookingModal => open_modals s ∖ {[bookingModal]}
       | None => open_modals s
       end
  /\ List.Forall (fun kf => f_value (snd kf) = f_default (snd kf))
       (fields (reset_form (bk_form b))).
Proof.
  intros Hb. unfold bookingDone. rewrite Hb.
  rewrite showNotification_returns by apply has_close_booked.
  unfold and_then, notified, setTimeout.
  assert (Htext : message_text (banner (fresh s) msg_booked "success") = Some msg_booked).
  { unfold message_text, banner. cbn [n_kids]. vm_compute. reflexivity. }
  proj_simpl.
  destruct (modals s !! "bookingModal") as [m|] eqn:Em;
    proj_simpl; cbn [bk_form bk_button];
    auto using reset_form_defaults.
Qed.

Section BookingSubmission.
Context `{Host}.

(** C1, amended: when full-form validation succeeds, submitting collects
    under the key of every named or identified control (its name, or else
    its id) the value of the last control filed under that key, and nothing
    under the key [__proto__]; it disables the submit control under the
    label [SUBMITTING...] and sets a timer 2 s ahead.  When that timer fires
    the control gets its original label back and is enabled, a success
    notification is shown, the modal registered under [bookingModal], if
    any, is hidden, and the form is reset: every control is still there, in
    its place and with its attributes, and holds the default it had as its
    value, which is empty only where that default is. *)
Theorem booking_submission (s : State) (b : Booking) (form' : node) :
  booking s = Some b ->
  validateBookingForm (now s) (bk_form b) = (form', true) ->
  step BookingSubmit s
  = submitBookingForm (collectFormData form')
      (set_booking (Some (mkBooking form' (bk_button b))) s)
  /\ (forall key,
        collectFormData form' !! key
        = if String.eqb key "__proto__" then None
          else snd <$> List.find (fun e => String.eqb (fst e) key)
                         (rev (named_values (bk_form b))))
  /\ booking (step BookingSubmit s)
     = Some (mkBooking form' (mkButton "SUBMITTING..." true))
  /\ timers (step BookingSubmit s)
     = timers s ++ [mkTimer (now s + 2000) (BookingDone (b_text (bk_button b)))]
  /\ notes (step BookingSubmit s) = notes s
  /\ (forall s2 b2 t rest originalText,
         clock_sound s2 -> booking s2 = Some b2 ->
         pop_timer (timers s2) = Some (t, rest) -> cb t = BookingDone originalText ->
         now (step Fire s2) = due t
         /\ booking (step Fire s2)
            = Some (mkBooking (reset_form (bk_form b2)) (mkButton originalText false))
         /\ notes (step Fire s2) = [banner (fresh s2) msg_booked "success"]
         /\ message_text (banner (fresh s2) msg_booked "success") = Some msg_booked
         /\ open_modals (step Fire s2)
            = match modals s2 !! "bookingModal" with
              | Some bookingModal => open_modals s2 ∖ {[bookingModal]}
              | None => open_modals s2
              end
         /\ List.Forall (fun kf => f_value (snd kf) = f_default (snd kf))
              (fields (reset_form (bk_form b2)))
         /\ fields (reset_form (bk_form b2))
            = List.map (fun kf => (fst kf, with_value (f_default (snd kf)) (snd kf)))
                (fields (bk_form b2))
         /\ (forall k0, field_of k0 (reset_form (bk_form b2))
                        = (fun f0 => with_value (f_default f0) f0)
                            <$> field_of k0 (bk_form b2))
         /\ (forall k0, annotations k0 (reset_form (bk_form b2))
                        = annotations k0 (bk_form b2))).
Proof.
  intros Hb Hv.
  assert (Hstep : step BookingSubmit s
                  = submitBookingForm (collectFormData form')
                      (set_booking (Some (mkBooking form' (bk_button b))) s)).
  { unfold step, handleBookingSubmission. now rewrite Hb, Hv. }
  split; [exact Hstep |]. split; [| split; [| split; [| split]]].
  - intros key. destruct (String.eqb key "__proto__") eqn:Hkey.
    + apply String.eqb_eq in Hkey. subst key. unfold collectFormData.
      apply collect_no_proto, lookup_empty.
    + apply String.eqb_neq in Hkey. rewrite collect_lookup by exact Hkey.
      destruct (validateBookingForm_spec (now s) (bk_form b)) as [Hsk _].
      rewrite Hv in Hsk. simpl in Hsk.
      now rewrite (named_values_data _ _ (skeleton_data _ _ Hsk)).
  - rewrite Hstep. unfold submitBookingForm, setTimeout. proj_simpl. reflexivity.
  - rewrite Hstep. unfold submitBookingForm, setTimeout. proj_simpl. reflexivity.
  - rewrite Hstep. unfold submitBookingForm, setTimeout. proj_simpl. reflexivity.
  - intros s2 b2 t rest originalText Hs Hb2 Ep Hcb.
    split; [now apply (fire_on_time s2 t rest) |].
    unfold step, fire. rewrite Ep, Hcb.
    destruct (bookingDone_effect originalText
                (set_now (Z.max (now s2) (due t)) (set_timers rest s2)) b2 Hb2)
      as (Hbk & Hnote & Htext & Hopen & Hdef).
    destruct (reset_form_spec (bk_form b2)) as (Hfields & Hfield & Hann).
    unfold run_callback. rewrite Hbk, Hnote, Hopen. auto 10.
Qed.
End BookingSubmission.

(** [booking_submission] on the guests form. *)
Lemma booking_submission_witness :
  booking (step (H := isoHost) BookingSubmit (init guests_page))
  = Some (mkBooking
            (Box [Box [Field 2 (mkField TagInput "number" "guests" "guests" true
                                  "2" "1" false)]])
            (mkButton "SUBMITTING..." true)).
Proof.
  refine (proj1 (proj2 (proj2
    (booking_submission (H := isoHost) (init guests_page)
       (mkBooking
          (Box [Box [Field 2 (mkField TagInput "number" "guests" "guests" true
                                "2" "1" false)]])
          (mkButton "BOOK NOW" false))
       (Box [Box [Field 2 (mkField TagInput "number" "guests" "guests" true
                             "2" "1" false)]])
       eq_refl _)))).
  vm_compute. reflexivity.
Defined.

(** C1 as stated fails: the guests control has the default value 1, the
    form validates and is submitted, and after the delay the control reads
    1, not the empty string.  Nor is every named control collected: a
    control named [__proto__] validates and leaves no entry in the data. *)
Lemma booking_claim_counterexample :
  let s := run (H := isoHost) [BookingSubmit; Fire] (init guests_page) in
  let proto := Box [Box [Field 1 (text_field "__proto__" true "x")]] in
  snd (validateBookingForm (H := isoHost) 0
         (Box [Box [Field 2 (mkField TagInput "number" "guests" "guests" true
                               "2" "1" false)]])) = true
  /\ now s = 2000
  /\ (fun b => List.map (fun kf => f_value (snd kf)) (fields (bk_form b))) <$> booking s
     = Some ["1"]
  /\ validateBookingForm (H := isoHost) 0 proto = (proto, true)
  /\ named_values proto = [("__proto__", "x")]
  /\ collectFormData proto !! "__proto__" = None.
Proof. vm_compute. auto 10. Qed.

(** ** Annotations in tidy forms *)

Lemma keys_box kids : keys (Box kids) = flat_kids keys kids.
Proof.
  unfold keys. simpl. induction kids as [|n r IH]; simpl; [reflexivity |].
  now rewrite List.map_app, IH.
Qed.

Lemma map_id_on {A} (g : A -> A) (l : list A) :
  List.Forall (fun x => g x = x) l -> List.map g l = l.
Proof. induction 1 as [|x r Hx _ IH]; simpl; [reflexivity |]. now rewrite Hx, IH. Qed.

Lemma flat_kids_nil {R} (g : node -> list R) (l : list node) :
  List.Forall (fun n => g n = []) l -> flat_kids g l = [].
Proof. induction 1 as [|x r Hx _ IH]; simpl; [reflexivity |]. now rewrite Hx, IH. Qed.

Lemma not_direct k kids :
  ~ In k (flat_kids keys kids) -> existsb (is_field_key k) kids = false.
Proof.
  intros Hk. destruct (existsb (is_field_key k) kids) eqn:E; [| reflexivity].
  apply existsb_exists in E as (n & Hn & Hkey). exfalso. apply Hk.
  apply in_flat_kids. exists n. split; [exact Hn |].
  destruct n as [k' f | |]; try discriminate. simpl in Hkey.
  apply Nat.eqb_eq in Hkey. subst. now left.
Qed.

(** Where the control is absent nothing is rewritten and nothing annotated. *)
Lemma absent_key k t :
  ~ In k (keys t) ->
  (forall g, update_field k g t = t)
  /\ (forall g, in_parent k g t = t)
  /\ annotations k t = [].
Proof.
  induction t as [k' f | m | kids IH] using node_rect'; intros Hk.
  - repeat split; try reflexivity. intros g. simpl.
    destruct (Nat.eqb k' k) eqn:E; [| reflexivity].
    apply Nat.eqb_eq in E. subst. exfalso. apply Hk. now left.
  - repeat split; reflexivity.
  - rewrite keys_box in Hk.
    assert (Hkids : List.Forall (fun n => ~ In k (keys n)) kids).
    { apply List.Forall_forall. intros n Hn Hin. apply Hk, in_flat_kids. eauto. }
    assert (Hall : List.Forall (fun n => (forall g, update_field k g n = n)
                                         /\ (forall g, in_parent k g n = n)
                                         /\ annotations k n = []) kids).
    { rewrite List.Forall_forall in *. intros n Hn. apply IH; auto. }
    repeat split.
    + intros g. simpl. f_equal. apply map_id_on.
      rewrite List.Forall_forall in *. intros n Hn. now apply Hall.
    + intros g. simpl. rewrite (not_direct k kids Hk). f_equal. apply map_id_on.
      rewrite List.Forall_forall in *. intros n Hn. now apply Hall.
    + rewrite annotations_box, (not_direct k kids Hk). simpl.
      apply flat_kids_nil. rewrite List.Forall_forall in *. intros n Hn.
      now apply Hall.
Qed.

Lemma absent_clearFieldError k t : ~ In k (keys t) -> clearFieldError k t = t.
Proof.
  intros Hk. unfold clearFieldError.
  destruct (absent_key k t Hk) as (Hu & Hp & _). now rewrite Hu, Hp.
Qed.

Lemma absent_showFieldError k m t : ~ In k (keys t) -> showFieldError k m t = t.
Proof.
  intros Hk. unfold showFieldError. rewrite (absent_clearFieldError k t Hk).
  destruct (absent_key k t Hk) as (Hu & Hp & _). now rewrite Hu, Hp.
Qed.

Lemma keys_clearFieldError k t : keys (clearFieldError k t) = keys t.
Proof. apply data_keys, skeleton_data, skeleton_clearFieldError. Qed.

Lemma keys_showFieldError k m t : keys (showFieldError k m t) = keys t.
Proof. apply data_keys, skeleton_data, skeleton_showFieldError. Qed.

Lemma distinct_app (a b : list nat) :
  distinct (a ++ b) = true ->
  distinct a = true /\ distinct b = true /\ forall x, In x a -> ~ In x b.
Proof.
  induction a as [|x a IH]; simpl; [auto |].
  intros [Hx Hd]%andb_true_iff. destruct (IH Hd) as (Ha & Hb & Hab).
  apply negb_true_iff in Hx.
  assert (Hnot : ~ In x (a ++ b)).
  { intros Hin. assert (E : existsb (Nat.eqb x) (a ++ b) = true).
    { apply existsb_exists. exists x. split; [exact Hin | apply Nat.eqb_refl]. }
    congruence. }
  repeat split.
  - apply andb_true_iff. split; [| exact Ha]. apply negb_true_iff.
    destruct (existsb (Nat.eqb x) a) eqn:E; [| reflexivity].
    apply existsb_exists in E as (y & Hy & Exy). apply Nat.eqb_eq in Exy. subst y.
    exfalso. apply Hnot, in_or_app. now left.
  - exact Hb.
  - intros y [<- | Hy] Hin; [apply Hnot, in_or_app; now right | now apply (Hab y)].
Qed.

Lemma feedbacks_update_field k g t : feedbacks (update_field k g t) = feedbacks t.
Proof.
  induction t as [k' f | m | kids IH] using node_rect'; simpl.
  - now destruct (Nat.eqb k' k).
  - reflexivity.
  - rewrite flat_kids_map. now apply flat_kids_ext.
Qed.

Lemma feedbacks_cut_kids (kids : list node) :
  List.Forall (fun n => match n with
                        | Feedback _ => True
                        | _ => match cut_feedback n with
                               | Some n' => exists m, feedbacks n = m :: feedbacks n'
                               | None => feedbacks n = []
                               end
                        end) kids ->
  match cut_kids cut_feedback kids with
  | Some kids' => exists m, flat_kids feedbacks kids = m :: flat_kids feedbacks kids'
  | None => flat_kids feedbacks kids = []
  end.
Proof.
  induction 1 as [|n r Hn _ IH]; [reflexivity |].
  destruct n as [k f | m | ks].
  - simpl. destruct (cut_kids cut_feedback r) as [r'|]; simpl; exact IH.
  - simpl. eauto.
  - cbn [cut_kids]. destruct (cut_feedback (Box ks)) as [n'|].
    + destruct Hn as [m Hm]. exists m. cbn [flat_kids]. now rewrite Hm.
    + simpl in Hn.
      destruct (cut_kids cut_feedback r) as [r'|]; simpl; rewrite Hn; simpl.
      * destruct IH as [m Hm]. exists m. now rewrite Hm.
      * exact IH.
Qed.

Lemma feedbacks_cut_feedback t :
  match t with
  | Feedback _ => True
  | _ => match cut_feedback t with
         | Some t' => exists m, feedbacks t = m :: feedbacks t'
         | None => feedbacks t = []
         end
  end.
Proof.
  induction t as [k f | m | kids IH] using node_rect'; simpl; try reflexivity;
    try exact I.
  apply feedbacks_cut_kids in IH.
  destruct (cut_kids cut_feedback kids) as [kids'|]; simpl; exact IH.
Qed.

(** Removing the first annotation drops the head of the annotation list. *)
Lemma feedbacks_remove_first kids :
  flat_kids feedbacks (remove_first_feedback kids) = tl (flat_kids feedbacks kids).
Proof.
  unfold remove_first_feedback.
  pose proof (feedbacks_cut_kids kids) as Hc.
  destruct (cut_kids cut_feedback kids) as [kids'|].
  - destruct Hc as [m Hm]; [| now rewrite Hm].
    apply List.Forall_forall. intros n _. apply feedbacks_cut_feedback.
  - rewrite Hc; [reflexivity |].
    apply List.Forall_forall. intros n _. apply feedbacks_cut_feedback.
Qed.

Lemma has_field_direct kids :
  existsb is_field kids = true <-> exists k, existsb (is_field_key k) kids = true.
Proof.
  split.
  - intros (n & Hn & Hf)%existsb_exists. destruct n as [k f | |]; try discriminate.
    exists k. apply existsb_exists. exists (Field k f). split; [exact Hn |].
    simpl. apply Nat.eqb_refl.
  - intros (k & (n & Hn & Hf)%existsb_exists). apply existsb_exists.
    exists n. split; [exact Hn |]. now destruct n.
Qed.

Lemma has_field_same (kids kids' : list node) :
  (forall k, existsb (is_field_key k) kids' = existsb (is_field_key k) kids) ->
  existsb is_field kids' = existsb is_field kids.
Proof.
  intros E. apply eq_true_iff_eq. rewrite !has_field_direct.
  split; intros [k Hk]; exists k; [now rewrite <- E | now rewrite E].
Qed.

Lemma has_field_count kids :
  existsb is_field kids = true -> (1 <= length (flat_kids fields kids))%nat.
Proof.
  induction kids as [|[k f | m | ks] r IH]; simpl; try discriminate; intros Hf.
  - lia.
  - auto.
  - rewrite length_app. specialize (IH Hf). lia.
Qed.

(** In the parent of a lone control every other child is free of controls. *)
Lemma wrapper_free kids :
  existsb is_field kids = true -> length (flat_kids fields kids) = 1%nat ->
  List.Forall (fun n => is_field n = true \/ fields n = []) kids.
Proof.
  induction kids as [|n r IH]; intros Hf Hlen; [constructor |].
  simpl in Hlen. rewrite length_app in Hlen.
  destruct n as [k f | m | ks].
  - constructor; [now left |]. simpl in Hlen.
    assert (Hr : flat_kids fields r = []) by (destruct (flat_kids fields r); [reflexivity | simpl in Hlen; lia]).
    apply List.Forall_forall. intros n Hn. right.
    destruct (fields n) as [|x l] eqn:E; [reflexivity |].
    assert (Hin : In x (flat_kids fields r)) by (apply in_flat_kids; exists n; rewrite E; simpl; auto).
    rewrite Hr in Hin. destruct Hin.
  - constructor; [now right |]. apply IH; [exact Hf | exact Hlen].
  - simpl in Hf. pose proof (has_field_count r Hf) as Hc.
    constructor.
    + right. destruct (fields (Box ks)); [reflexivity | simpl in Hlen; lia].
    + apply IH; [exact Hf | lia].
Qed.

Lemma free_absent k n : fields n = [] -> ~ In k (keys n).
Proof. unfold keys. now intros ->. Qed.

Lemma free_in_parent k g kids :
  List.Forall (fun n => is_field n = true \/ fields n = []) kids ->
  List.map (in_parent k g) kids = kids.
Proof.
  intros Hfree. apply map_id_on. rewrite List.Forall_forall in *.
  intros n Hn. destruct (Hfree n Hn) as [Hf | Hf].
  - now destruct n.
  - now apply absent_key, free_absent.
Qed.

Lemma free_annotations k kids :
  List.Forall (fun n => is_field n = true \/ fields n = []) kids ->
  flat_kids (annotations k) kids = [].
Proof.
  intros Hfree. apply flat_kids_nil. rewrite List.Forall_forall in *.
  intros n Hn. destruct (Hfree n Hn) as [Hf | Hf].
  - now destruct n.
  - now apply absent_key, free_absent.
Qed.

Lemma wrapper_annotations k kids :
  existsb is_field kids = true -> length (flat_kids fields kids) = 1%nat ->
  annotations k (Box kids)
  = if existsb (is_field_key k) kids then flat_kids feedbacks kids else [].
Proof.
  intros Hf Hlen. rewrite annotations_box.
  rewrite (free_annotations k kids (wrapper_free kids Hf Hlen)). apply app_nil_r.
Qed.

Lemma direct_in k kids :
  existsb (is_field_key k) kids = true -> exists f, In (Field k f) kids.
Proof.
  intros (n & Hn & Hk)%existsb_exists. destruct n as [k' f | |]; try discriminate.
  simpl in Hk. apply Nat.eqb_eq in Hk. subst. eauto.
Qed.

(** The parent of a lone control has that control for its only direct one. *)
Lemma wrapper_sole kids :
  existsb is_field kids = true -> length (flat_kids fields kids) = 1%nat ->
  exists k0 f0,
    flat_kids fields kids = [(k0, f0)]
    /\ existsb (is_field_key k0) kids = true
    /\ forall k, existsb (is_field_key k) kids = true -> k = k0.
Proof.
  intros Hf Hlen. apply has_field_direct in Hf as [k0 Hk0].
  destruct (direct_in k0 kids Hk0) as [f0 Hin].
  assert (Hflat : In (k0, f0) (flat_kids fields kids)).
  { apply in_flat_kids. exists (Field k0 f0). simpl. auto. }
  destruct (flat_kids fields kids) as [|x [|y l]] eqn:E; try discriminate.
  destruct Hflat as [-> | []]. exists k0, f0. repeat split; auto.
  intros k Hk. destruct (direct_in k kids Hk) as [f Hin'].
  assert (Hflat : In (k, f) (flat_kids fields kids)).
  { apply in_flat_kids. exists (Field k f). simpl. auto. }
  rewrite E in Hflat. destruct Hflat as [[= -> _] | []]. reflexivity.
Qed.

Lemma wrapper_absent k kids :
  existsb is_field kids = true -> length (flat_kids fields kids) = 1%nat ->
  existsb (is_field_key k) kids = false -> ~ In k (keys (Box kids)).
Proof.
  intros Hf Hlen Hk. destruct (wrapper_sole kids Hf Hlen) as (k0 & f0 & E & Hk0 & _).
  unfold keys. simpl. rewrite E. simpl. intros [<- | []]. congruence.
Qed.

Lemma flat_fields_update k g kids :
  length (flat_kids fields (List.map (update_field k g) kids))
  = length (flat_kids fields kids).
Proof.
  change (flat_kids fields (List.map (update_field k g) kids))
    with (fields (update_field k g (Box kids))).
  rewrite fields_update_field. apply length_map.
Qed.

Lemma is_field_clearFieldError k t : is_field (clearFieldError k t) = is_field t.
Proof. apply skeleton_is_field, skeleton_clearFieldError. Qed.

Lemma is_field_showFieldError k m t : is_field (showFieldError k m t) = is_field t.
Proof. apply skeleton_is_field, skeleton_showFieldError. Qed.

Lemma has_field_map (op : node -> node) kids :
  (forall n, is_field (op n) = is_field n) ->
  existsb is_field (List.map op kids) = existsb is_field kids.
Proof.
  intros Hop. induction kids as [|n r IH]; simpl; [reflexivity |].
  now rewrite Hop, IH.
Qed.

Lemma no_field_no_direct k kids :
  existsb is_field kids = false -> existsb (is_field_key k) kids = false.
Proof.
  intros Hf. destruct (existsb (is_field_key k) kids) eqn:E; [| reflexivity].
  assert (Ht : existsb is_field kids = true) by (apply has_field_direct; eauto).
  congruence.
Qed.

Lemma no_field_kid kids n : existsb is_field kids = false -> In n kids -> is_field n = false.
Proof.
  intros Hf Hn. destruct (is_field n) eqn:E; [| reflexivity].
  assert (Ht : existsb is_field kids = true) by (apply existsb_exists; eauto).
  congruence.
Qed.

(** In a group, a rewriting that acts where the control is and nowhere else
    rewrites the annotations of the one child that holds the control. *)
Lemma group_self k (op : node -> node) (post : list string -> list string) kids :
  (forall n, ~ In k (keys n) -> op n = n) ->
  List.Forall (fun n => distinct (keys n) = true -> In k (keys n) ->
                        annotations k (op n) = post (annotations k n)) kids ->
  distinct (flat_kids keys kids) = true ->
  In k (flat_kids keys kids) ->
  flat_kids (annotations k) (List.map op kids) = post (flat_kids (annotations k) kids).
Proof.
  intros Hid. induction 1 as [|n r Hn _ IH]; intros Hd Hin; [destruct Hin |].
  simpl in Hd, Hin. apply distinct_app in Hd as (Hdn & Hdr & Hdis).
  simpl. destruct (in_dec Nat.eq_dec k (keys n)) as [Hkn | Hkn].
  - assert (Hr : List.Forall (fun x => ~ In k (keys x)) r).
    { apply List.Forall_forall. intros x Hx Hkx. apply (Hdis k Hkn).
      apply in_flat_kids. eauto. }
    assert (Hmap : List.map op r = r).
    { apply map_id_on. rewrite List.Forall_forall in *. intros x Hx.
      apply Hid, Hr, Hx. }
    assert (Hann : flat_kids (annotations k) r = []).
    { apply flat_kids_nil. rewrite List.Forall_forall in *. intros x Hx.
      now apply absent_key, Hr. }
    rewrite Hmap, Hann, !app_nil_r. now apply Hn.
  - rewrite (Hid n Hkn). destruct (absent_key k n Hkn) as (_ & _ & ->). simpl.
    apply IH; [exact Hdr |]. apply in_app_iff in Hin as [Hin | Hin];
      [contradiction | exact Hin].
Qed.

Section TidyPass.
(** One pass over the form: the error mark of control [k] is set to [b] and
    the children of its parent are rewritten by [g], which keeps the controls
    and takes the annotations [a] of the parent to [post a]. *)
Variables (k : nat) (b : bool) (g : list node -> list node)
  (post : list string -> list string).
Hypothesis g_fields : forall kids, flat_kids fields (g kids) = flat_kids fields kids.
Hypothesis g_direct : forall k' kids,
  existsb (is_field_key k') (g kids) = existsb (is_field_key k') kids.
Hypothesis g_feedbacks : forall kids,
  flat_kids feedbacks (g kids) = post (flat_kids feedbacks kids).

Lemma pass_box kids :
  in_parent k g (update_field k (with_invalid b) (Box kids)) =
    if existsb (is_field_key k) kids
    then Box (g (List.map (in_parent k g)
                   (List.map (update_field k (with_invalid b)) kids)))
    else Box (List.map (fun n => in_parent k g (update_field k (with_invalid b) n)) kids).
Proof.
  simpl. rewrite direct_update_field.
  destruct (existsb (is_field_key k) kids); [reflexivity |].
  now rewrite List.map_map.
Qed.

Lemma pass_is_field t :
  is_field (in_parent k g (update_field k (with_invalid b) t)) = is_field t.
Proof.
  destruct t as [k0 f | m | kids]; simpl; try reflexivity.
  - now destruct (Nat.eqb k0 k).
  - now destruct (existsb _ _).
Qed.

Lemma pass_absent t :
  ~ In k (keys t) -> in_parent k g (update_field k (with_invalid b) t) = t.
Proof.
  intros Hk. destruct (absent_key k t Hk) as (Hu & Hp & _). now rewrite Hu, Hp.
Qed.

Lemma tidy_pass t :
  tidy t = true ->
  tidy (in_parent k g (update_field k (with_invalid b) t)) = true
  /\ (forall k', k' <> k ->
        annotations k' (in_parent k g (update_field k (with_invalid b) t))
        = annotations k' t)
  /\ (distinct (keys t) = true -> In k (keys t) -> is_field t = false ->
      annotations k (in_parent k g (update_field k (with_invalid b) t))
      = post (annotations k t)).
Proof.
  induction t as [k0 f | m | kids IH] using node_rect'; intros Ht.
  - simpl. destruct (Nat.eqb k0 k); repeat split; intros; try reflexivity;
      discriminate.
  - repeat split; try reflexivity. intros _ [].
  - simpl in Ht. destruct (existsb is_field kids) eqn:Hf.
    + (* the parent of a lone control *)
      apply Nat.eqb_eq in Ht.
      destruct (existsb (is_field_key k) kids) eqn:Hk.
      * set (kids1 := List.map (update_field k (with_invalid b)) kids).
        assert (Hf1 : existsb is_field kids1 = true).
        { unfold kids1. rewrite (has_field_same kids); [exact Hf |].
          intros k'. apply direct_update_field. }
        assert (Hlen1 : length (flat_kids fields kids1) = 1%nat)
          by (unfold kids1; now rewrite flat_fields_update).
        assert (Hpass : in_parent k g (update_field k (with_invalid b) (Box kids))
                        = Box (g kids1)).
        { rewrite pass_box, Hk. fold kids1.
          now rewrite (free_in_parent _ _ _ (wrapper_free kids1 Hf1 Hlen1)). }
        assert (Hf2 : existsb is_field (g kids1) = true).
        { rewrite (has_field_same kids1); [exact Hf1 |]. intros k'. apply g_direct. }
        assert (Hlen2 : length (flat_kids fields (g kids1)) = 1%nat)
          by now rewrite g_fields.
        assert (Hfb : flat_kids feedbacks (g kids1) = post (flat_kids feedbacks kids)).
        { rewrite g_feedbacks. unfold kids1. f_equal.
          rewrite flat_kids_map. apply flat_kids_ext, List.Forall_forall.
          intros n _. apply feedbacks_update_field. }
        rewrite Hpass. split; [| split].
        -- simpl. rewrite Hf2, Hlen2. reflexivity.
        -- intros k' Hne.
           rewrite (wrapper_annotations k' _ Hf2 Hlen2),
             (wrapper_annotations k' _ Hf Ht).
           rewrite g_direct. unfold kids1. rewrite direct_update_field.
           destruct (existsb (is_field_key k') kids) eqn:Hk'; [| reflexivity].
           destruct (wrapper_sole kids Hf Ht) as (k1 & f1 & _ & _ & Hsole).
           rewrite (Hsole k Hk) in Hne. now rewrite (Hsole k' Hk') in Hne.
        -- intros _ _ _.
           rewrite (wrapper_annotations k _ Hf2 Hlen2), (wrapper_annotations k _ Hf Ht).
           rewrite g_direct, Hfb. unfold kids1.
           now rewrite direct_update_field, Hk.
      * pose proof (wrapper_absent k kids Hf Ht Hk) as Habs.
        rewrite (pass_absent _ Habs).
        split; [simpl; rewrite Hf; now apply Nat.eqb_eq |].
        split; [reflexivity |]. intros _ Hin. contradiction.
    + (* a group *)
      rewrite pass_box, (no_field_no_direct k kids Hf).
      set (op := fun n => in_parent k g (update_field k (with_invalid b) n)).
      assert (Hf' : existsb is_field (List.map op kids) = false).
      { rewrite has_field_map; [exact Hf | apply pass_is_field]. }
      rewrite List.Forall_forall in IH. rewrite forallb_forall in Ht.
      split; [| split].
      * simpl. rewrite Hf'. apply forallb_forall. intros n' Hn'.
        apply in_map_iff in Hn' as (n & <- & Hn). now apply IH, Ht.
      * intros k' Hne. rewrite !annotations_box, (no_field_no_direct k' _ Hf'),
          (no_field_no_direct k' _ Hf). simpl. rewrite flat_kids_map.
        apply flat_kids_ext, List.Forall_forall. intros n Hn.
        now apply IH; [| apply Ht |].
      * intros Hd Hin _. rewrite !annotations_box, (no_field_no_direct k _ Hf'),
          (no_field_no_direct k _ Hf). simpl.
        rewrite keys_box in Hd, Hin.
        apply (group_self k op post).
        -- intros n Hn. now apply pass_absent.
        -- apply List.Forall_forall. intros n Hn Hdn Hkn.
           apply IH; auto. now apply (no_field_kid kids).
        -- exact Hd.
        -- exact Hin.
Qed.
End TidyPass.

Lemma tidy_clearFieldError k t :
  tidy t = true ->
  tidy (clearFieldError k t) = true
  /\ (forall k', k' <> k ->
        annotations k' (clearFieldError k t) = annotations k' t)
  /\ (distinct (keys t) = true -> In k (keys t) -> is_field t = false ->
      annotations k (clearFieldError k t) = tl (annotations k t)).
Proof.
  apply (tidy_pass k false remove_first_feedback (@tl string)).
  - apply (blind_remove_first_feedback fields (fun _ => eq_refl) fields_box).
  - intros k' kids. apply direct_remove_first_feedback.
  - apply feedbacks_remove_first.
Qed.

Lemma tidy_showFieldError k m t :
  tidy t = true ->
  tidy (showFieldError k m t) = true
  /\ (forall k', k' <> k ->
        annotations k' (showFieldError k m t) = annotations k' t)
  /\ (distinct (keys t) = true -> In k (keys t) -> is_field t = false ->
      annotations k (showFieldError k m t) = tl (annotations k t) ++ [m]).
Proof.
  intros Ht. destruct (tidy_clearFieldError k t Ht) as (Ht1 & Hsame1 & Hself1).
  destruct (tidy_pass k true (fun l => l ++ [Feedback m]) (fun a => a ++ [m])
              (fun kids => blind_append fields (fun _ => eq_refl) kids m))
    with (t := clearFieldError k t) as (Ht2 & Hsame2 & Hself2).
  - intros k' kids. rewrite existsb_app. simpl. now rewrite !orb_false_r.
  - intros kids. rewrite flat_kids_app. simpl. reflexivity.
  - exact Ht1.
  - unfold showFieldError. split; [exact Ht2 |]. split.
    + intros k' Hne. now rewrite Hsame2, Hsame1.
    + intros Hd Hin Hf. rewrite Hself2, Hself1; auto.
      * now rewrite keys_clearFieldError.
      * now rewrite keys_clearFieldError.
      * now rewrite is_field_clearFieldError.
Qed.

Lemma field_of_in k t f : field_of k t = Some f -> In (k, f) (fields t) /\ In k (keys t).
Proof.
  unfold field_of, keys. intros Hf.
  destruct (List.find _ (fields t)) as [[k' f']|] eqn:E; [| discriminate].
  injection Hf as ->. apply find_some in E as [Hin Hk]. simpl in Hk.
  apply Nat.eqb_eq in Hk. subst k'. split; [exact Hin |].
  now apply (in_map fst) in Hin.
Qed.

Lemma mem_in k ks : mem k ks = true <-> In k ks.
Proof.
  unfold mem. rewrite existsb_exists. split.
  - intros (x & Hx & E). apply Nat.eqb_eq in E. now subst.
  - intros Hin. exists k. split; [exact Hin | apply Nat.eqb_refl].
Qed.

Lemma distinct_not_mem k ks : distinct (k :: ks) = true -> mem k ks = false /\ distinct ks = true.
Proof. simpl. intros [Hk Hd]%andb_true_iff. now apply negb_true_iff in Hk. Qed.

Lemma distinct_filter (p : nat * field -> bool) (l : list (nat * field)) :
  distinct (List.map fst l) = true ->
  distinct (List.map fst (List.filter p l)) = true.
Proof.
  induction l as [|[k f] l IH]; simpl; [reflexivity |].
  intros [Hk Hd]%andb_true_iff. destruct (p (k, f)); simpl; [| now apply IH].
  rewrite (IH Hd), andb_true_r. apply negb_true_iff in Hk. apply negb_true_iff.
  destruct (existsb (Nat.eqb k) (List.map fst (List.filter p l))) eqn:E; [| reflexivity].
  apply existsb_exists in E as (x & Hx & Ex). apply in_map_iff in Hx as (y & <- & Hy).
  apply filter_In in Hy as [Hy _].
  assert (Ht : existsb (Nat.eqb k) (List.map fst l) = true).
  { apply existsb_exists. exists (fst y). split; [now apply in_map | exact Ex]. }
  congruence.
Qed.

Lemma tl_short {A} (a : list A) : (length a <= 1)%nat -> tl a = [].
Proof. destruct a as [|x [|y a]]; simpl; auto; lia. Qed.

Section InlineErrors.
Context `{Host}.

Lemma error_of_datum clock f f' : datum f = datum f' -> error_of clock f = error_of clock f'.
Proof.
  intros E. unfold error_of.
  now rewrite <- (checkField_datum clock f), <- (checkField_datum clock f'), E.
Qed.

Lemma error_of_short clock f : (length (error_of clock f) <= 1)%nat.
Proof. unfold error_of. destruct (fst _); simpl; lia. Qed.

Lemma validateField_tidy clock k t :
  tidy t = true -> distinct (keys t) = true -> is_field t = false ->
  tidy (fst (validateField clock k t)) = true
  /\ (forall k', k' <> k ->
        annotations k' (fst (validateField clock k t)) = annotations k' t)
  /\ (forall f, field_of k t = Some f ->
        annotations k (fst (validateField clock k t))
        = tl (annotations k t) ++ error_of clock f).
Proof.
  intros Ht Hd Hb. unfold validateField, error_of.
  destruct (field_of k t) as [f|] eqn:Ef.
  - destruct (field_of_in k t f Ef) as [_ Hin].
    assert (Hgoal : forall P : field -> Prop, P f -> forall f', Some f = Some f' -> P f')
      by (intros P Hp f' [= <-]; exact Hp).
    destruct (checkField clock f) as [[|] msg] eqn:Ec; cbn [fst snd].
    + destruct (tidy_clearFieldError k t Ht) as (Ht' & Hsame & Hself).
      split; [exact Ht' |]. split; [exact Hsame |].
      apply Hgoal. rewrite Ec. cbn [fst]. rewrite app_nil_r. auto.
    + destruct (tidy_showFieldError k msg t Ht) as (Ht' & Hsame & Hself).
      split; [exact Ht' |]. split; [exact Hsame |].
      apply Hgoal. rewrite Ec. cbn [fst snd]. auto.
  - cbn [fst]. repeat split; auto. discriminate.
Qed.

Lemma validateAll_tidy clock ks t v :
  tidy t = true -> distinct (keys t) = true -> is_field t = false ->
  distinct ks = true ->
  tidy (fst (validateAll clock ks t v)) = true
  /\ forall k f, field_of k t = Some f ->
       annotations k (fst (validateAll clock ks t v))
       = if mem k ks then tl (annotations k t) ++ error_of clock f
         else annotations k t.
Proof.
  revert t v. induction ks as [|k0 ks IH]; intros t v Ht Hd Hb Hks.
  - simpl. auto.
  - apply distinct_not_mem in Hks as [Hk0 Hks].
    destruct (validateField_tidy clock k0 t Ht Hd Hb) as (Ht1 & Hsame & Hself).
    destruct (validateField_spec clock k0 t) as [Hsk _].
    simpl. destruct (validateField clock k0 t) as [t1 ok]. cbn [fst] in *.
    assert (Hdata : data t1 = data t) by now apply skeleton_data.
    destruct (IH t1 (if ok then v else false)) as (Ht' & Hann); auto.
    { now rewrite (data_keys _ _ Hdata). }
    { now rewrite (skeleton_is_field _ _ Hsk). }
    split; [exact Ht' |]. intros k f Hf.
    pose proof (data_field_of k t1 t Hdata) as Hfo. rewrite Hf in Hfo.
    destruct (field_of k t1) as [f1|] eqn:Ef1; [| discriminate].
    assert (Hdat : datum f1 = datum f).
    { apply (f_equal (fun o => match o with Some x => x | None => datum f end)) in Hfo.
      exact Hfo. }
    rewrite (Hann k f1 Ef1). unfold mem in *. simpl.
    destruct (Nat.eqb k k0) eqn:E.
    + apply Nat.eqb_eq in E. subst k0. rewrite Hk0. simpl. now apply Hself.
    + apply Nat.eqb_neq in E. simpl. rewrite (Hsame k E).
      now rewrite (error_of_datum clock f1 f Hdat).
Qed.

Lemma required_mem form k f :
  distinct (keys form) = true -> field_of k form = Some f ->
  mem k (requiredFields form) = f_required f.
Proof.
  unfold requiredFields, field_of, keys, mem.
  induction (fields form) as [|[k' f'] l IH]; simpl; [discriminate |].
  intros [Hk Hd]%andb_true_iff Hf. apply negb_true_iff in Hk.
  destruct (Nat.eqb k' k) eqn:E.
  - apply Nat.eqb_eq in E. subst k'. injection Hf as ->.
    destruct (f_required f); simpl; [now rewrite Nat.eqb_refl |].
    destruct (existsb (Nat.eqb k) (List.map fst (List.filter _ l))) eqn:Ex; [| reflexivity].
    apply existsb_exists in Ex as (x & Hx & Exk). apply in_map_iff in Hx as (y & <- & Hy).
    apply filter_In in Hy as [Hy _].
    assert (Ht : existsb (Nat.eqb k) (List.map fst l) = true).
    { apply existsb_exists. exists (fst y). split; [now apply in_map | exact Exk]. }
    congruence.
  - destruct (f_required f'); simpl; [| now apply IH].
    rewrite Nat.eqb_sym, E. simpl. now apply IH.
Qed.

(** The annotations after full-form validation of a tidy form. *)
Lemma validateBookingForm_annotations clock form :
  tidy form = true -> distinct (keys form) = true -> is_field form = false ->
  (forall k, (length (annotations k form) <= 1)%nat) ->
  forall k f, field_of k form = Some f ->
    annotations k (fst (validateBookingForm clock form))
    = if match dateRangeError form with
         | Some ko => Nat.eqb ko k
         | None => false
         end
      then [msg_range]
      else if f_required f then error_of clock f else annotations k form.
Proof.
  intros Ht Hd Hb Hone k f Hf. unfold validateBookingForm.
  assert (Hreq : distinct (requiredFields form) = true)
    by (apply distinct_filter; exact Hd).
  destruct (validateAll_tidy clock (requiredFields form) form true Ht Hd Hb Hreq)
    as (Ht1 & Hann).
  destruct (validateAll_spec clock (requiredFields form) form true) as [Hsk _].
  destruct (validateAll clock (requiredFields form) form true) as [t1 ok].
  cbn [fst] in *. rewrite (dateRangeError_stable t1 form Hsk).
  assert (Hk1 : annotations k t1
                = if f_required f then error_of clock f else annotations k form).
  { rewrite (Hann k f Hf), (required_mem form k f Hd Hf).
    destruct (f_required f); [| reflexivity].
    now rewrite (tl_short _ (Hone k)). }
  assert (Hshort : (length (annotations k t1) <= 1)%nat).
  { rewrite Hk1. destruct (f_required f); [apply error_of_short | apply Hone]. }
  destruct (dateRangeError form) as [ko|]; cbn [fst]; [| exact Hk1].
  destruct (tidy_showFieldError ko msg_range t1 Ht1) as (_ & Hsame & Hself).
  destruct (Nat.eqb ko k) eqn:E.
  - apply Nat.eqb_eq in E. subst ko. rewrite Hself.
    + now rewrite (tl_short _ Hshort).
    + now rewrite (data_keys _ _ (skeleton_data _ _ Hsk)).
    + rewrite (data_keys _ _ (skeleton_data _ _ Hsk)). now apply (field_of_in k form f).
    + now rewrite (skeleton_is_field _ _ Hsk).
  - apply Nat.eqb_neq in E. rewrite Hsame by congruence. exact Hk1.
Qed.
End InlineErrors.

Section BookingAbort.
Context `{Host}.

Lemma validation_fails clock form :
  snd (validateBookingForm clock form) = false <->
  (exists k, In k (requiredFields form) /\ verdict clock form k = false)
  \/ (exists ko, dateRangeError form = Some ko).
Proof.
  destruct (validateBookingForm_spec clock form) as [_ ->].
  rewrite andb_false_iff. split.
  - intros [Hreq | Hrange].
    + left. induction (requiredFields form) as [|k ks IH]; [discriminate |].
      simpl in Hreq. apply andb_false_iff in Hreq as [Hk | Hks].
      * exists k. split; [now left | exact Hk].
      * destruct (IH Hks) as (k' & Hin & Hv). exists k'. split; [now right | exact Hv].
    + right. destruct (dateRangeError form) as [ko|]; [eauto | discriminate].
  - intros [(k & Hin & Hv) | (ko & Hko)].
    + left. destruct (forallb (verdict clock form) (requiredFields form)) eqn:E;
        [| reflexivity].
      rewrite forallb_forall in E. rewrite (E k Hin) in Hv. discriminate.
    + right. now rewrite Hko.
Qed.

(** C3: when a required control or the date-range test fails, submitting
    does nothing but validate: no timer is set, no data is collected, and
    the submit control, the notifications and the data of the controls stay
    as they were.  The failing controls do not all show their message,
    though: in the form [shared_form], whose two required controls are
    children of the same parent, the name is empty and the note is filled
    in; the name is marked and annotated, and validating the note then
    removes the first annotation of their parent, which is the one of the
    name.  After the submission the name carries its error mark and no
    message, and the form holds no annotation at all. *)
Theorem booking_abort (s : State) (b : Booking) :
  (booking s = Some b ->
   (exists k, In k (requiredFields (bk_form b))
              /\ verdict (now s) (bk_form b) k = false)
   \/ (exists ko, dateRangeError (bk_form b) = Some ko) ->
   step BookingSubmit s
   = set_booking
       (Some (mkBooking (fst (validateBookingForm (now s) (bk_form b))) (bk_button b))) s
   /\ timers (step BookingSubmit s) = timers s
   /\ notes (step BookingSubmit s) = notes s
   /\ bk_button <$> booking (step BookingSubmit s) = Some (bk_button b)
   /\ data (fst (validateBookingForm (now s) (bk_form b))) = data (bk_form b))
  /\ (let form := shared_form EmptyString "Ann" in
      let form' := fst (validateBookingForm (now s) form) in
      requiredFields form = [1%nat; 2%nat]
      /\ verdict (now s) form 1 = false
      /\ verdict (now s) form 2 = true
      /\ snd (validateBookingForm (now s) form) = false
      /\ annotations 1 (fst (validateField (now s) 1 form)) = [msg_required]
      /\ f_invalid <$> field_of 1 form' = Some true
      /\ annotations 1 form' = []
      /\ feedbacks form' = []).
Proof.
  split.
  - intros Hb Hfail. apply validation_fails in Hfail.
    assert (Hstep : step BookingSubmit s
                    = set_booking
                        (Some (mkBooking (fst (validateBookingForm (now s) (bk_form b)))
                                 (bk_button b))) s).
    { unfold step, handleBookingSubmission. rewrite Hb.
      destruct (validateBookingForm (now s) (bk_form b)) as [form' ok].
      simpl in Hfail. now rewrite Hfail. }
    rewrite Hstep. proj_simpl. repeat split.
    apply skeleton_data, validateBookingForm_spec.
  - vm_compute. auto 10.
Qed.
End BookingAbort.

(** [booking_abort] on the form whose controls share their parent. *)
Lemma booking_abort_witness :
  timers (step (H := isoHost) BookingSubmit
            (init (booking_page (shared_form EmptyString "Ann")))) = [].
Proof.
  refine (proj1 (proj2 (proj1
    (booking_abort (H := isoHost) (init (booking_page (shared_form EmptyString "Ann")))
       (mkBooking (shared_form EmptyString "Ann") (mkButton "BOOK NOW" false)))
    eq_refl _))).
  left. exists 1%nat. split; [simpl; auto | reflexivity].
Defined.

(** * Further properties

    Properties of the parts of the controller the claims leave out. *)

(** ** The rules of a control *)

Lemma drop_while_all {A} (p : A -> bool) (l : list A) :
  forallb p l = true -> drop_while p l = [].
Proof.
  induction l as [|x l IH]; simpl; [reflexivity |].
  intros Hp. apply andb_true_iff in Hp as [Hx Hl]. now rewrite Hx, IH.
Qed.

Lemma drop_while_nil {A} (p : A -> bool) (l : list A) :
  drop_while p l = [] -> forallb p l = true.
Proof.
  induction l as [|x l IH]; simpl; [reflexivity |].
  destruct (p x); [exact IH | discriminate].
Qed.

Lemma unchars_nil l : unchars l = EmptyString <-> l = [].
Proof.
  split; [| now intros ->].
  destruct l; [reflexivity | discriminate].
Qed.

(** A value is blank after trimming exactly when it holds whitespace only. *)
Lemma trim_blank (v : string) :
  truthy (trim v) = false <-> forallb is_space (chars v) = true.
Proof.
  rewrite truthy_false. unfold trim, trim_chars. rewrite unchars_nil. split.
  - intros Hr. apply (f_equal (@rev ascii)) in Hr. rewrite rev_involutive in Hr.
    simpl in Hr. apply drop_while_nil in Hr.
    destruct (drop_while is_space (chars v)) as [|c r] eqn:E.
    + now apply drop_while_nil.
    + exfalso. rewrite forallb_forall in Hr.
      assert (Hc : is_space c = true) by (apply Hr, in_rev; rewrite rev_involutive; now left).
      clear Hr. revert E. induction (chars v) as [|x l IH]; simpl; [discriminate |].
      destruct (is_space x) eqn:Ex; [exact IH |]. intros [= -> _]. congruence.
  - intros Hp. now rewrite (drop_while_all _ _ Hp).
Qed.

Lemma lang_star_class p s : lang (Star (Class p)) s <-> forallb p s = true.
Proof.
  split.
  - induction s as [|c s IH]; [reflexivity |]. intros Hs.
    apply lang_star_cons in Hs as (u & v & -> & Hc & Hv).
    apply lang_class in Hc as (d & E & Hd).
    destruct u; [| destruct u; discriminate]. injection E as ->.
    simpl. rewrite Hd. simpl in IH. now apply IH.
  - induction s as [|c s IH]; intros Hs; [constructor |].
    simpl in Hs. apply andb_true_iff in Hs as [Hc Hs].
    change (c :: s) with ([c] ++ s). constructor; [now constructor | now apply IH].
Qed.

Lemma lang_plus_class p s :
  lang (Plus (Class p)) s <-> s <> [] /\ forallb p s = true.
Proof.
  unfold Plus. rewrite lang_cat. split.
  - intros (u & v & -> & Hu & Hv). apply lang_class in Hu as (c & -> & Hc).
    apply lang_star_class in Hv. simpl. rewrite Hc, Hv. split; [discriminate | reflexivity].
  - intros [Hne Hs]. destruct s as [|c s]; [congruence |].
    simpl in Hs. apply andb_true_iff in Hs as [Hc Hs].
    exists [c], s. split; [reflexivity |].
    split; [apply lang_class; eauto | now apply lang_star_class].
Qed.

Lemma is_char_eq d c : is_char d c = true <-> c = d.
Proof. unfold is_char. apply Ascii.eqb_eq. Qed.

Lemma email_lang l : lang emailRegex l <-> email_shape l.
Proof.
  unfold emailRegex, email_shape. rewrite lang_cat. split.
  - intros (a & r1 & -> & Ha & H1).
    apply lang_cat in H1 as (at_ & r2 & -> & Hat & H2).
    apply lang_cat in H2 as (b & r3 & -> & Hb & H3).
    apply lang_cat in H3 as (dot & c & -> & Hdot & Hc).
    apply lang_plus_class in Ha as [Ha Hpa], Hb as [Hb Hpb], Hc as [Hc Hpc].
    apply lang_class in Hat as (x & -> & Hx), Hdot as (y & -> & Hy).
    apply is_char_eq in Hx, Hy. subst.
    exists a, b, c. auto 10.
  - intros (a & b & c & -> & Ha & Hb & Hc & Hpa & Hpb & Hpc).
    exists a, ("@"%char :: b ++ "."%char :: c). split; [reflexivity |].
    split; [now apply lang_plus_class |].
    apply lang_cat. exists ["@"%char], (b ++ "."%char :: c). split; [reflexivity |].
    split; [apply lang_class; eauto |].
    apply lang_cat. exists b, ("."%char :: c). split; [reflexivity |].
    split; [now apply lang_plus_class |].
    apply lang_cat. exists ["."%char], c. split; [reflexivity |].
    split; [apply lang_class; eauto | now apply lang_plus_class].
Qed.

Lemma email_test s : test emailRegex s = true <-> email_shape (chars s).
Proof. unfold test. now rewrite matches_lang, email_lang. Qed.

Lemma no_at (l : list ascii) :
  forallb not_space_at l = true ->
  count_occ ascii_dec l "@"%char = 0%nat /\ forallb (fun c => negb (is_space c)) l = true.
Proof.
  induction l as [|c l IH]; simpl; [auto |]. intros Hp.
  apply andb_true_iff in Hp as [Hc Hl]. destruct (IH Hl) as [I1 I2].
  unfold not_space_at in Hc. apply negb_true_iff, orb_false_iff in Hc as [Hs Ha].
  rewrite Hs, I2. split; [| reflexivity].
  destruct (ascii_dec c "@"); [| exact I1].
  subst c. discriminate.
Qed.

Lemma email_shape_facts l :
  email_shape l ->
  count_occ ascii_dec l "@"%char = 1%nat
  /\ forallb (fun c => negb (is_space c)) l = true
  /\ In "."%char l.
Proof.
  intros (a & b & c & -> & _ & _ & _ & Ha & Hb & Hc).
  apply no_at in Ha as [A1 A2], Hb as [B1 B2], Hc as [C1 C2].
  split; [| split].
  - rewrite count_occ_app. simpl. rewrite count_occ_app. simpl. lia.
  - rewrite forallb_app. simpl. rewrite forallb_app. simpl. now rewrite A2, B2, C2.
  - apply in_app_iff. right. right. apply in_app_iff. right. now left.
Qed.

Section OwnRules.
Context `{Host}.

(** X1: a value that holds whitespace only counts as missing, whatever
    the type of the control: validation then fails exactly when the control
    is required, with the message for a required field.  A value with
    something else in it passes when the type is none of [email], [tel] and
    [datetime-local]. *)
Theorem blank_value_rule (clock : Z) (f : field) :
  (truthy (trim (f_value f)) = false <-> forallb is_space (chars (f_value f)) = true)
  /\ (truthy (trim (f_value f)) = false ->
      checkField clock f
      = if f_required f then (false, msg_required) else (true, EmptyString))
  /\ (truthy (trim (f_value f)) = true ->
      f_type f <> "email" -> f_type f <> "tel" -> f_type f <> "datetime-local" ->
      checkField clock f = (true, EmptyString)).
Proof.
  split; [apply trim_blank |]. split.
  - intros Hv. unfold checkField. rewrite Hv. simpl.
    rewrite !andb_false_r, andb_true_r. now destruct (f_required f).
  - intros Hv He Ht Hd. unfold checkField. rewrite Hv.
    apply String.eqb_neq in He, Ht, Hd. rewrite He, Ht, Hd.
    simpl. now rewrite andb_false_r.
Qed.

(** X2: on an email control whose trimmed value is not empty, validation
    passes exactly when the trimmed value is a local part, an [@], a domain,
    a dot and an ending, each non-empty and free of whitespace and [@], and
    fails with the email message otherwise; whether the control is required
    plays no part.  An accepted address holds exactly one [@], no whitespace
    and a dot. *)
Theorem email_validation (clock : Z) (f : field) :
  f_type f = "email" ->
  truthy (trim (f_value f)) = true ->
  (checkField clock f = (false, msg_email) <-> ~ email_shape (chars (trim (f_value f))))
  /\ (checkField clock f = (true, EmptyString) <-> email_shape (chars (trim (f_value f))))
  /\ (email_shape (chars (trim (f_value f))) ->
      count_occ ascii_dec (chars (trim (f_value f))) "@"%char = 1%nat
      /\ forallb (fun c => negb (is_space c)) (chars (trim (f_value f))) = true
      /\ In "."%char (chars (trim (f_value f)))).
Proof.
  intros Hty Hv.
  assert (Hc : checkField clock f =
               if test emailRegex (trim (f_value f))
               then (true, EmptyString) else (false, msg_email)).
  { unfold checkField. rewrite Hty, Hv. simpl. rewrite andb_false_r. simpl.
    now destruct (test emailRegex _). }
  rewrite Hc. destruct (test emailRegex _) eqn:Ht.
  - apply email_test in Ht. repeat split; try discriminate; try tauto;
      now apply email_shape_facts.
  - assert (Hn : ~ email_shape (chars (trim (f_value f)))).
    { intros Hs. apply email_test in Hs. congruence. }
    repeat split; try discriminate; try tauto.
Qed.

(** X3: on a date control whose trimmed value is not empty, validation
    fails with the date message exactly when the value parses to a time
    before the start of the current day.  A time later the same day passes
    even when it is before the clock, and a value that is no date passes. *)
Theorem date_validation (clock : Z) (f : field) :
  f_type f = "datetime-local" ->
  truthy (trim (f_value f)) = true ->
  (Date_parse (trim (f_value f)) = None -> checkField clock f = (true, EmptyString))
  /\ (forall t, Date_parse (trim (f_value f)) = Some t ->
        (t < startOfDay clock -> checkField clock f = (false, msg_date))
        /\ (startOfDay clock <= t -> checkField clock f = (true, EmptyString))).
Proof.
  intros Hty Hv.
  assert (Hc : checkField clock f =
               if date_lt (Date_parse (trim (f_value f))) (Some (startOfDay clock))
               then (false, msg_date) else (true, EmptyString)).
  { unfold checkField. rewrite Hty, Hv. simpl. rewrite andb_false_r. simpl.
    now destruct (date_lt _ _). }
  rewrite Hc. split.
  - now intros ->.
  - intros t ->. simpl. split; intros Ht.
    + apply Z.ltb_lt in Ht. now rewrite Ht.
    + apply Z.ltb_ge in Ht. now rewrite Ht.
Qed.
End OwnRules.

(** [blank_value_rule] on a required name that holds blanks only. *)
Lemma blank_value_rule_witness :
  checkField (H := isoHost) 0 (text_field "name" true "   ") = (false, msg_required).
Proof.
  exact (proj1 (proj2 (blank_value_rule (H := isoHost) 0
                         (text_field "name" true "   "))) eq_refl).
Defined.

(** [email_validation] on a well-formed address. *)
Lemma email_validation_witness :
  email_shape (chars (trim (f_value (email_field true "user@example.com")))).
Proof.
  exact (proj1 (proj1 (proj2 (email_validation (H := isoHost) 0
                                (email_field true "user@example.com")
                                eq_refl eq_refl))) eq_refl).
Defined.

(** [date_validation] on a date in the past. *)
Lemma date_validation_witness :
  checkField (H := isoHost) 1900000000000 (date_field "checkin" true "2020-01-01T10:00")
  = (false, msg_date).
Proof.
  refine (proj1 (proj2 (date_validation (H := isoHost) 1900000000000
                          (date_field "checkin" true "2020-01-01T10:00")
                          eq_refl eq_refl) 1577872800000 _) _).
  - vm_compute. reflexivity.
  - vm_compute. reflexivity.
Defined.

(** ** Error marks and annotations *)

(** Beside a control that is a child of the group, no other child holds it. *)
Lemma direct_free k kids :
  existsb (is_field_key k) kids = true ->
  distinct (flat_kids keys kids) = true ->
  List.Forall (fun n => is_field n = true \/ ~ In k (keys n)) kids.
Proof.
  induction kids as [|n r IH]; intros Hk Hd; [constructor |].
  simpl in Hk, Hd. apply distinct_app in Hd as (Hdn & Hdr & Hdis).
  destruct (existsb (is_field_key k) r) eqn:Hr.
  - constructor; [| now apply IH].
    destruct n as [k' f | m | ks]; [now left | right; intros [] | right].
    intros Hin. apply (Hdis k Hin). apply in_flat_kids.
    destruct (direct_in k r Hr) as [f Hf]. exists (Field k f). split; [exact Hf | now left].
  - rewrite orb_false_r in Hk. destruct n as [k' f | m | ks]; try discriminate.
    simpl in Hk. apply Nat.eqb_eq in Hk. subst k'.
    constructor; [now left |]. apply List.Forall_forall. intros x Hx. right.
    intros Hin. apply (Hdis k); [now left |]. apply in_flat_kids. eauto.
Qed.

Lemma free_no_annotations k kids :
  List.Forall (fun n => is_field n = true \/ ~ In k (keys n)) kids ->
  flat_kids (annotations k) kids = [].
Proof.
  intros Hall. apply flat_kids_nil. rewrite List.Forall_forall in *.
  intros n Hn. destruct (Hall n Hn) as [Hf | Ha].
  - destruct n; try discriminate. reflexivity.
  - now apply absent_key.
Qed.

Lemma free_update k g kids :
  List.Forall (fun n => is_field n = true \/ ~ In k (keys n)) kids ->
  List.Forall (fun n => is_field n = true \/ ~ In k (keys n))
    (List.map (update_field k g) kids).
Proof.
  intros Hall. rewrite List.Forall_forall in *. intros n' Hn'.
  apply in_map_iff in Hn' as (n & <- & Hn). destruct (Hall n Hn) as [Hf | Ha].
  - left. destruct n; try discriminate. simpl. now destruct (Nat.eqb _ _).
  - right. destruct (absent_key k n Ha) as (-> & _). exact Ha.
Qed.

Lemma free_in_parent_id k g kids :
  List.Forall (fun n => is_field n = true \/ ~ In k (keys n)) kids ->
  List.map (in_parent k g) kids = kids.
Proof.
  intros Hall. apply map_id_on. rewrite List.Forall_forall in *. intros n Hn.
  destruct (Hall n Hn) as [Hf | Ha].
  - destruct n; try discriminate. reflexivity.
  - now apply absent_key.
Qed.

Lemma keys_cut_feedback n n' : cut_feedback n = Some n' -> keys n' = keys n.
Proof.
  intros Hc. unfold keys. f_equal.
  exact (blind_cut_feedback fields (fun _ => eq_refl) fields_box n n' Hc).
Qed.

Lemma cut_kids_forall (Q : node -> Prop) kids kids' :
  (forall n n', Q n -> cut_feedback n = Some n' -> Q n') ->
  cut_kids cut_feedback kids = Some kids' ->
  List.Forall Q kids -> List.Forall Q kids'.
Proof.
  intros HQ. revert kids'. induction kids as [|n r IH]; intros kids' Hc Hall;
    simpl in Hc; [discriminate |].
  apply List.Forall_cons_iff in Hall as [Hn Hr].
  destruct n as [k f | m | ks].
  - simpl in Hc. destruct (cut_kids cut_feedback r) as [r'|]; simpl in Hc; [| discriminate].
    injection Hc as <-. constructor; [exact Hn | now apply IH].
  - injection Hc as <-. exact Hr.
  - destruct (cut_feedback (Box ks)) as [n'|] eqn:En.
    + injection Hc as <-. constructor; [now apply (HQ (Box ks)) | exact Hr].
    + destruct (cut_kids cut_feedback r) as [r'|]; simpl in Hc; [| discriminate].
      injection Hc as <-. constructor; [exact Hn | now apply IH].
Qed.

Lemma free_remove_first k kids :
  List.Forall (fun n => is_field n = true \/ ~ In k (keys n)) kids ->
  List.Forall (fun n => is_field n = true \/ ~ In k (keys n)) (remove_first_feedback kids).
Proof.
  intros Hall. unfold remove_first_feedback.
  destruct (cut_kids cut_feedback kids) as [kids'|] eqn:Ec; [| exact Hall].
  apply (cut_kids_forall _ kids kids'); [| exact Ec | exact Hall].
  intros n n' [Hf | Ha] Hc.
  - destruct n; discriminate.
  - right. now rewrite (keys_cut_feedback _ _ Hc).
Qed.

Section AnyPass.
Variables (k : nat) (b : bool) (g : list node -> list node)
  (post : list string -> list string).
Hypothesis g_direct : forall k' kids,
  existsb (is_field_key k') (g kids) = existsb (is_field_key k') kids.
Hypothesis g_feedbacks : forall kids,
  flat_kids feedbacks (g kids) = post (flat_kids feedbacks kids).
Hypothesis g_free : forall kids,
  List.Forall (fun n => is_field n = true \/ ~ In k (keys n)) kids ->
  List.Forall (fun n => is_field n = true \/ ~ In k (keys n)) (g kids).

(** One pass over a form whose controls are distinct rewrites the
    annotations of control [k] by [post]. *)
Lemma pass_annotations t :
  distinct (keys t) = true -> In k (keys t) -> is_field t = false ->
  annotations k (in_parent k g (update_field k (with_invalid b) t))
  = post (annotations k t).
Proof.
  induction t as [k0 f | m | kids IH] using node_rect'; intros Hd Hin Hf;
    try discriminate; [destruct Hin |].
  rewrite keys_box in Hd, Hin. rewrite (pass_box k b g).
  destruct (existsb (is_field_key k) kids) eqn:Hk.
  - pose proof (direct_free k kids Hk Hd) as Hfree.
    pose proof (free_update k (with_invalid b) kids Hfree) as Hfree1.
    rewrite (free_in_parent_id k g _ Hfree1).
    rewrite !annotations_box, g_direct, direct_update_field, Hk.
    rewrite (free_no_annotations k _ (g_free _ Hfree1)),
      (free_no_annotations k _ Hfree), !app_nil_r, g_feedbacks.
    f_equal. rewrite flat_kids_map. apply flat_kids_ext, List.Forall_forall.
    intros n _. apply feedbacks_update_field.
  - set (op := fun n => in_parent k g (update_field k (with_invalid b) n)).
    assert (Hk' : existsb (is_field_key k) (List.map op kids) = false).
    { rewrite <- Hk. clear. induction kids as [|n r IHr]; [reflexivity |].
      simpl. rewrite IHr. f_equal. unfold op.
      destruct n as [k' f | m | ks]; simpl; try reflexivity.
      - destruct (Nat.eqb k' k) eqn:E; simpl; now rewrite ?E.
      - destruct (existsb _ (List.map _ ks)); reflexivity. }
    rewrite !annotations_box, Hk', Hk. simpl.
    apply (group_self k op post).
    + intros n Hn. now apply (pass_absent k b g).
    + rewrite List.Forall_forall in *. intros n Hn Hdn Hkn.
      apply IH; auto. destruct n as [k' f | m | ks]; try reflexivity.
      exfalso. simpl in Hkn. destruct Hkn as [-> | []].
      assert (existsb (is_field_key k) kids = true); [| congruence].
      apply existsb_exists. exists (Field k f). split; [exact Hn |].
      simpl. apply Nat.eqb_refl.
    + exact Hd.
    + exact Hin.
Qed.
End AnyPass.

Lemma annotations_clearFieldError k t :
  distinct (keys t) = true -> In k (keys t) -> is_field t = false ->
  annotations k (clearFieldError k t) = tl (annotations k t).
Proof.
  apply (pass_annotations k false remove_first_feedback (@tl string)).
  - intros k' kids. apply direct_remove_first_feedback.
  - apply feedbacks_remove_first.
  - apply free_remove_first.
Qed.

Lemma annotations_showFieldError k m t :
  distinct (keys t) = true -> In k (keys t) -> is_field t = false ->
  annotations k (showFieldError k m t) = tl (annotations k t) ++ [m].
Proof.
  intros Hd Hin Hf. unfold showFieldError.
  rewrite (pass_annotations k true (fun l => l ++ [Feedback m]) (fun a => a ++ [m])).
  - now rewrite annotations_clearFieldError.
  - intros k' kids. rewrite existsb_app. simpl. now rewrite !orb_false_r.
  - intros kids. rewrite flat_kids_app. simpl. reflexivity.
  - intros kids Hall. apply List.Forall_app. split; [exact Hall |].
    constructor; [| constructor]. right. intros [].
  - now rewrite keys_clearFieldError.
  - now rewrite keys_clearFieldError.
  - now rewrite is_field_clearFieldError.
Qed.

Lemma find_key_other k k' (g : field -> field) (l : list (nat * field)) :
  k' <> k ->
  List.find (fun kf => Nat.eqb (fst kf) k')
    (List.map (fun kf => if Nat.eqb (fst kf) k then (fst kf, g (snd kf)) else kf) l)
  = List.find (fun kf => Nat.eqb (fst kf) k') l.
Proof.
  intros Hne. induction l as [|[k0 f0] l IH]; [reflexivity |]. simpl.
  destruct (Nat.eqb k0 k) eqn:E; simpl.
  - apply Nat.eqb_eq in E. subst k0.
    destruct (Nat.eqb k k') eqn:E'; [apply Nat.eqb_eq in E'; congruence | exact IH].
  - destruct (Nat.eqb k0 k'); [reflexivity | exact IH].
Qed.

Lemma find_key_self k (g : field -> field) (l : list (nat * field)) :
  snd <$> List.find (fun kf => Nat.eqb (fst kf) k)
    (List.map (fun kf => if Nat.eqb (fst kf) k then (fst kf, g (snd kf)) else kf) l)
  = g <$> (snd <$> List.find (fun kf => Nat.eqb (fst kf) k) l).
Proof.
  induction l as [|[k0 f0] l IH]; [reflexivity |]. simpl.
  destruct (Nat.eqb k0 k) eqn:E; simpl; rewrite E; [reflexivity | exact IH].
Qed.

Lemma field_of_update k k' g t :
  field_of k' (update_field k g t)
  = if Nat.eqb k' k then g <$> field_of k t else field_of k' t.
Proof.
  unfold field_of. rewrite fields_update_field.
  destruct (Nat.eqb k' k) eqn:E.
  - apply Nat.eqb_eq in E. subst k'. apply find_key_self.
  - apply Nat.eqb_neq in E. now rewrite find_key_other.
Qed.

Lemma field_of_clearFieldError k k' t :
  field_of k' (clearFieldError k t)
  = if Nat.eqb k' k then with_invalid false <$> field_of k t else field_of k' t.
Proof.
  unfold field_of. rewrite fields_clearFieldError.
  destruct (Nat.eqb k' k) eqn:E.
  - apply Nat.eqb_eq in E. subst k'. apply find_key_self.
  - apply Nat.eqb_neq in E. now rewrite find_key_other.
Qed.

Lemma field_of_showFieldError_at k k' m t :
  field_of k' (showFieldError k m t)
  = if Nat.eqb k' k then with_invalid true <$> field_of k t else field_of k' t.
Proof.
  unfold field_of. rewrite fields_showFieldError.
  destruct (Nat.eqb k' k) eqn:E.
  - apply Nat.eqb_eq in E. subst k'. apply find_key_self.
  - apply Nat.eqb_neq in E. now rewrite find_key_other.
Qed.

(** X6: in a form whose controls are distinct, [showFieldError] on a
    control drops the first annotation inside the parent of the control, if
    there is one, and appends the message as the last: a parent without
    annotation has one afterwards, a parent with several keeps as many.  The
    control is marked invalid; the other controls and all values are
    untouched. *)
Theorem showFieldError_effect (k : nat) (m : string) (t : node) :
  distinct (keys t) = true -> In k (keys t) -> is_field t = false ->
  annotations k (showFieldError k m t) = tl (annotations k t) ++ [m]
  /\ length (annotations k (showFieldError k m t))
     = Nat.max 1 (length (annotations k t))
  /\ f_invalid <$> field_of k (showFieldError k m t) = Some true
  /\ (forall k', k' <> k -> field_of k' (showFieldError k m t) = field_of k' t)
  /\ data (showFieldError k m t) = data t.
Proof.
  intros Hd Hin Hf.
  pose proof (annotations_showFieldError k m t Hd Hin Hf) as Ha.
  split; [exact Ha |]. split; [| split; [| split]].
  - rewrite Ha, length_app. simpl. destruct (annotations k t); simpl; lia.
  - rewrite field_of_showFieldError_at. rewrite Nat.eqb_refl.
    destruct (field_of_key k t Hin) as [f ->]. reflexivity.
  - intros k' Hne. rewrite field_of_showFieldError_at.
    apply Nat.eqb_neq in Hne. now rewrite Hne.
  - apply skeleton_data, skeleton_showFieldError.
Qed.

(** [showFieldError_effect] on the name control of a form with wrappers. *)
Lemma showFieldError_effect_witness :
  annotations 1 (showFieldError 1 msg_required (wrapped_form EmptyString))
  = tl (annotations 1 (wrapped_form EmptyString)) ++ [msg_required].
Proof.
  exact (proj1 (showFieldError_effect 1 msg_required (wrapped_form EmptyString)
                  eq_refl (or_introl eq_refl) eq_refl)).
Defined.

Lemma flat_kids_nil_inv {R} (g : node -> list R) (l : list node) :
  flat_kids g l = [] -> List.Forall (fun n => g n = []) l.
Proof.
  induction l as [|n r IH]; simpl; intros Hl; [constructor |].
  apply app_eq_nil in Hl as [Hn Hr]. constructor; [exact Hn | now apply IH].
Qed.

Lemma remove_first_none kids :
  flat_kids feedbacks kids = [] -> remove_first_feedback kids = kids.
Proof.
  intros Hf. unfold remove_first_feedback.
  assert (Hall := feedbacks_cut_kids kids).
  destruct (cut_kids cut_feedback kids) as [kids'|]; [| reflexivity].
  destruct Hall as [m Hm].
  - apply List.Forall_forall. intros n _. apply feedbacks_cut_feedback.
  - rewrite Hf in Hm. discriminate.
Qed.

Lemma in_parent_same k g t :
  (forall kids, flat_kids feedbacks kids = [] -> g kids = kids) ->
  annotations k t = [] -> in_parent k g t = t.
Proof.
  intros Hg. induction t as [k0 f | m | kids IH] using node_rect'; intros Ha;
    try reflexivity.
  rewrite annotations_box in Ha. apply app_eq_nil in Ha as [Hown Hin].
  apply flat_kids_nil_inv in Hin.
  assert (Hmap : List.map (in_parent k g) kids = kids).
  { apply map_id_on. rewrite List.Forall_forall in *. intros n Hn.
    apply IH; auto. }
  simpl. rewrite Hmap. destruct (existsb (is_field_key k) kids); [| reflexivity].
  now rewrite Hg.
Qed.

Lemma update_same k g t :
  (forall f, In (k, f) (fields t) -> g f = f) -> update_field k g t = t.
Proof.
  induction t as [k0 f | m | kids IH] using node_rect'; intros Hg; try reflexivity.
  - simpl. destruct (Nat.eqb k0 k) eqn:E; [| reflexivity].
    apply Nat.eqb_eq in E. subst. rewrite Hg; [reflexivity | now left].
  - simpl. f_equal. apply map_id_on. rewrite List.Forall_forall in *.
    intros n Hn. apply IH; [exact Hn |]. intros f Hf. apply Hg.
    change (fields (Box kids)) with (flat_kids fields kids).
    apply in_flat_kids. eauto.
Qed.

Lemma distinct_unique (l : list (nat * field)) k f1 f2 :
  distinct (List.map fst l) = true -> In (k, f1) l -> In (k, f2) l -> f1 = f2.
Proof.
  induction l as [|[k0 f0] l IH]; intros Hd H1 H2; [destruct H1 |].
  simpl in Hd. apply andb_true_iff in Hd as [Hn Hd].
  apply negb_true_iff in Hn.
  assert (Hout : forall f, In (k0, f) l -> False).
  { intros f Hf. assert (existsb (Nat.eqb k0) (List.map fst l) = true); [| congruence].
    apply existsb_exists. exists k0. split; [| apply Nat.eqb_refl].
    apply in_map_iff. exists (k0, f). auto. }
  destruct H1 as [E1 | H1], H2 as [E2 | H2].
  - congruence.
  - injection E1 as -> ->. exfalso. eauto.
  - injection E2 as -> ->. exfalso. eauto.
  - now apply IH.
Qed.

Lemma field_of_distinct k f t :
  distinct (keys t) = true -> In (k, f) (fields t) -> field_of k t = Some f.
Proof.
  intros Hd Hin.
  assert (Hk : In k (keys t)) by (apply in_map_iff; exists (k, f); auto).
  destruct (field_of_key k t Hk) as [f' Hf']. rewrite Hf'. f_equal.
  apply field_of_in in Hf' as [Hf' _].
  exact (distinct_unique _ k f' f Hd Hf' Hin).
Qed.

Lemma with_invalid_same f : f_invalid f = false -> with_invalid false f = f.
Proof. destruct f. simpl. now intros ->. Qed.

(** X7: in a form whose controls are distinct, [clearFieldError] on a
    control removes its invalid mark and exactly one annotation, the first
    inside the parent of the control; the other controls and all values are
    untouched, and on a control without mark and without annotation the form
    stays as it is. *)
Theorem clearFieldError_effect (k : nat) (t : node) :
  distinct (keys t) = true -> In k (keys t) -> is_field t = false ->
  annotations k (clearFieldError k t) = tl (annotations k t)
  /\ f_invalid <$> field_of k (clearFieldError k t) = Some false
  /\ (forall k', k' <> k -> field_of k' (clearFieldError k t) = field_of k' t)
  /\ data (clearFieldError k t) = data t
  /\ (annotations k t = [] -> f_invalid <$> field_of k t = Some false ->
      clearFieldError k t = t).
Proof.
  intros Hd Hin Hf. split; [now apply annotations_clearFieldError |].
  split; [| split; [| split]].
  - rewrite field_of_clearFieldError, Nat.eqb_refl.
    destruct (field_of_key k t Hin) as [f ->]. reflexivity.
  - intros k' Hne. rewrite field_of_clearFieldError.
    apply Nat.eqb_neq in Hne. now rewrite Hne.
  - apply skeleton_data, skeleton_clearFieldError.
  - intros Ha Hm. unfold clearFieldError.
    rewrite (update_same k (with_invalid false) t).
    + apply in_parent_same; [apply remove_first_none | exact Ha].
    + intros f Hkf. rewrite (field_of_distinct k f t Hd Hkf) in Hm.
      injection Hm as Hm. now apply with_invalid_same.
Qed.

(** [clearFieldError_effect] on a control that shows no error. *)
Lemma clearFieldError_effect_witness :
  clearFieldError 1 (wrapped_form EmptyString) = wrapped_form EmptyString.
Proof.
  exact (proj2 (proj2 (proj2 (proj2
           (clearFieldError_effect 1 (wrapped_form EmptyString)
              eq_refl (or_introl eq_refl) eq_refl)))) eq_refl eq_refl).
Defined.

Lemma keys_update_field k g t : keys (update_field k g t) = keys t.
Proof.
  unfold keys. rewrite fields_update_field, List.map_map.
  apply List.map_ext. intros [k0 f0]. simpl. now destruct (Nat.eqb k0 k).
Qed.

Lemma is_field_update_field k g t : is_field (update_field k g t) = is_field t.
Proof. destruct t; simpl; try reflexivity. now destruct (Nat.eqb _ _). Qed.

Lemma annotations_update_field k k' g t :
  annotations k' (update_field k g t) = annotations k' t.
Proof.
  induction t as [k0 f | m | kids IH] using node_rect'; simpl; try reflexivity.
  - now destruct (Nat.eqb k0 k).
  - rewrite direct_update_field. f_equal.
    + destruct (existsb (is_field_key k') kids); [| reflexivity].
      rewrite flat_kids_map. apply flat_kids_ext, List.Forall_forall.
      intros n _. apply feedbacks_update_field.
    + rewrite flat_kids_map. now apply flat_kids_ext.
Qed.

Section Listeners.
Context `{Host}.

(** X8: the [input] listener of a booking control: once the user has set
    the control to [v], the control holds [v] as typed and has lost its
    invalid mark, one annotation of its parent is gone, and no other control
    has changed. *)
Theorem input_listener (s : State) (b : Booking) (k : nat) (v : string) (f : field) :
  booking s = Some b ->
  distinct (keys (bk_form b)) = true ->
  is_field (bk_form b) = false ->
  field_of k (bk_form b) = Some f ->
  exists form',
    step (Input k v) s = set_booking (Some (mkBooking form' (bk_button b))) s
    /\ field_of k form' = Some (with_invalid false (with_value v f))
    /\ (forall k', k' <> k -> field_of k' form' = field_of k' (bk_form b))
    /\ annotations k form' = tl (annotations k (bk_form b))
    /\ keys form' = keys (bk_form b).
Proof.
  intros Hb Hd Hroot Hf.
  exists (clearFieldError k (update_field k (with_value v) (bk_form b))).
  split; [simpl; unfold onInput; now rewrite Hb |].
  split; [| split; [| split]].
  - now rewrite field_of_clearFieldError, Nat.eqb_refl, field_of_update,
      Nat.eqb_refl, Hf.
  - intros k' Hne. apply Nat.eqb_neq in Hne.
    now rewrite field_of_clearFieldError, Hne, field_of_update, Hne.
  - rewrite annotations_clearFieldError.
    + now rewrite annotations_update_field.
    + now rewrite keys_update_field.
    + rewrite keys_update_field. now apply field_of_in in Hf.
    + now rewrite is_field_update_field.
  - now rewrite keys_clearFieldError, keys_update_field.
Qed.

(** X4: validation never edits the form data: after [validateField] on
    any control, after [validateBookingForm], and after the [blur] listener,
    the controls are the same, in the same order, with the same values and
    attributes; only invalid marks and annotations differ. *)
Theorem validation_keeps_data (clock : Z) (form : node) :
  data (fst (validateBookingForm clock form)) = data form
  /\ (forall k, data (fst (validateField clock k form)) = data form)
  /\ (forall k s b, booking s = Some b ->
        exists form',
          step (Blur k) s = set_booking (Some (mkBooking form' (bk_button b))) s
          /\ data form' = data (bk_form b)).
Proof.
  split; [| split].
  - apply skeleton_data, validateBookingForm_spec.
  - intros k. apply skeleton_data, validateField_spec.
  - intros k s b Hb. exists (fst (validateField (now s) k (bk_form b))).
    split; [simpl; unfold onBlur; now rewrite Hb |].
    apply skeleton_data, validateField_spec.
Qed.

(** X5: full-form validation succeeds exactly when every required control
    passes its own rules and the date-range test reports nothing.  Controls
    that are not required are not looked at: a malformed optional value does
    not block the submission. *)
Theorem submit_verdict (clock : Z) (form : node) :
  distinct (keys form) = true ->
  (snd (validateBookingForm clock form) = true <->
   (forall k f, In (k, f) (fields form) -> f_required f = true ->
                fst (checkField clock f) = true)
   /\ dateRangeError form = None).
Proof.
  intros Hd. destruct (validateBookingForm_spec clock form) as [_ ->].
  rewrite andb_true_iff, forallb_forall. unfold requiredFields, verdict.
  split.
  - intros [Hall Hr]. split; [| now destruct (dateRangeError form)].
    intros k f Hin Hreq.
    assert (Hk : In k (List.map fst (List.filter (fun kf => f_required (snd kf)) (fields form)))).
    { apply in_map_iff. exists (k, f). split; [reflexivity |].
      apply filter_In. auto. }
    specialize (Hall k Hk). now rewrite (field_of_distinct k f form Hd Hin) in Hall.
  - intros [Hall ->]. split; [| reflexivity]. intros k Hk.
    apply in_map_iff in Hk as ([k' f] & <- & Hin). apply filter_In in Hin as [Hin Hreq].
    simpl in *. rewrite (field_of_distinct k' f form Hd Hin). now apply (Hall k' f).
Qed.
End Listeners.

(** [input_listener] on the name control of the booking form. *)
Lemma input_listener_witness :
  exists form',
    field_of 1 form'
    = Some (with_invalid false (with_value "Ann" (text_field "name" true EmptyString))).
Proof.
  destruct (input_listener (H := isoHost)
              (init (booking_page (wrapped_form EmptyString)))
              (mkBooking (wrapped_form EmptyString) (mkButton "BOOK NOW" false))
              1 "Ann" (text_field "name" true EmptyString)
              eq_refl eq_refl eq_refl eq_refl) as (form' & _ & Hf & _).
  exists form'. exact Hf.
Defined.

(** [validation_keeps_data] on a blur of the empty name control. *)
Lemma validation_keeps_data_witness :
  exists form', data form' = data (wrapped_form EmptyString).
Proof.
  destruct (proj2 (proj2 (validation_keeps_data (H := isoHost) 0
                            (wrapped_form EmptyString)))
              1%nat (init (booking_page (wrapped_form EmptyString)))
              (mkBooking (wrapped_form EmptyString) (mkButton "BOOK NOW" false))
              eq_refl) as (form' & _ & Hd).
  exists form'. exact Hd.
Defined.

(** [submit_verdict] on a form that validates. *)
Lemma submit_verdict_witness :
  dateRangeError (H := isoHost) (wrapped_form "Ann") = None.
Proof.
  exact (proj2 (proj1 (submit_verdict (H := isoHost) 0 (wrapped_form "Ann") eq_refl)
                  eq_refl)).
Defined.

Lemma field_key_named f :
  truthy (f_name f) || truthy (f_id f) = true <-> field_key f <> EmptyString.
Proof.
  unfold field_key. destruct (truthy (f_name f)) eqn:En; simpl.
  - apply truthy_true in En. tauto.
  - now rewrite truthy_true.
Qed.

Lemma find_rev_in {A} (p : A -> bool) (l : list A) x :
  List.find p (rev l) = Some x -> In x l /\ p x = true.
Proof.
  intros Hf. apply find_some in Hf as [Hin Hp]. split; [now apply in_rev | exact Hp].
Qed.

(** X9: every entry of the collected data is the value of some control of
    the form, filed under its name, or under its id when the name is empty;
    no entry has the empty key or the key [__proto__].  Conversely every
    control with a name or an id (other than [__proto__]) has its key in the
    data, with the value of a control filed under that key. *)
Theorem collected_data (form : node) :
  (forall key v,
      collectFormData form !! key = Some v ->
      key <> EmptyString /\ key <> "__proto__"
      /\ exists k f, In (k, f) (fields form) /\ field_key f = key /\ f_value f = v)
  /\ (forall k f,
         In (k, f) (fields form) ->
         field_key f <> EmptyString -> field_key f <> "__proto__" ->
         exists k' f', In (k', f') (fields form) /\ field_key f' = field_key f
                       /\ collectFormData form !! field_key f = Some (f_value f'))
  /\ (forall f, field_key f = if truthy (f_name f) then f_name f else f_id f).
Proof.
  assert (Hsome : forall key v, key <> "__proto__" ->
            collectFormData form !! key = Some v ->
            key <> EmptyString
            /\ exists k f, In (k, f) (fields form) /\ field_key f = key /\ f_value f = v).
  { intros key v Hp. rewrite (collect_lookup form key Hp).
    destruct (List.find _ _) as [[key' v']|] eqn:Ef; [| discriminate].
    simpl. intros [= <-]. apply find_rev_in in Ef as [Hin He]. simpl in He.
    apply String.eqb_eq in He. subst key'. unfold named_values in Hin.
    apply in_map_iff in Hin as ([k f] & [= <- <-] & Hin).
    apply filter_In in Hin as [Hin Hn]. simpl in *.
    split; [now apply field_key_named | eauto]. }
  split; [| split].
  - intros key v Hl. destruct (String.eqb key "__proto__") eqn:E.
    + apply String.eqb_eq in E. subst key. unfold collectFormData in Hl.
      rewrite collect_no_proto in Hl; [discriminate | apply lookup_empty].
    + apply String.eqb_neq in E. destruct (Hsome key v E Hl). auto.
  - intros k f Hin Hne Hp. rewrite (collect_lookup form _ Hp).
    destruct (List.find _ _) as [[key' v']|] eqn:Ef.
    + apply find_rev_in in Ef as [Hin' He]. simpl in He.
      apply String.eqb_eq in He. subst key'. unfold named_values in Hin'.
      apply in_map_iff in Hin' as ([k' f'] & [= Hk <-] & Hin').
      apply filter_In in Hin' as [Hin' _]. simpl in *. eauto.
    + exfalso. pose proof (find_none _ _ Ef (field_key f, f_value f)) as Hn.
      simpl in Hn. rewrite String.eqb_refl in Hn.
      assert (true = false); [apply Hn | discriminate].
      apply in_rev. rewrite rev_involutive. unfold named_values.
      apply in_map_iff. exists (k, f). split; [reflexivity |].
      apply filter_In. split; [exact Hin |]. now apply field_key_named.
  - reflexivity.
Qed.

(** [collected_data] on the name control. *)
Lemma collected_data_witness :
  exists k' f',
    In (k', f') (fields (wrapped_form "Ann"))
    /\ field_key f' = "name"
    /\ collectFormData (wrapped_form "Ann") !! "name" = Some (f_value f').
Proof.
  refine (proj1 (proj2 (collected_data (wrapped_form "Ann")))
            1%nat (text_field "name" true "Ann") (or_introl eq_refl) _ _);
    discriminate.
Defined.

Section FieldOutcome.
Context `{Host}.

(** X18: [validateField] on a control of a form with distinct controls
    returns the verdict of the rules on that control, marks the control
    invalid exactly when the verdict is negative, and replaces the first
    annotation of the parent of the control by the error message, or by
    nothing when the control passes; no other control changes. *)
Theorem validateField_effect (clock : Z) (k : nat) (t : node) (f : field) :
  distinct (keys t) = true -> is_field t = false -> field_of k t = Some f ->
  snd (validateField clock k t) = fst (checkField clock f)
  /\ annotations k (fst (validateField clock k t))
     = tl (annotations k t) ++ error_of clock f
  /\ f_invalid <$> field_of k (fst (validateField clock k t))
     = Some (negb (fst (checkField clock f)))
  /\ (forall k', k' <> k ->
        field_of k' (fst (validateField clock k t)) = field_of k' t).
Proof.
  intros Hd Hroot Hf. pose proof (field_of_in k t f Hf) as [_ Hin].
  unfold validateField, error_of. rewrite Hf.
  destruct (checkField clock f) as [[|] msg]; cbn [fst snd negb].
  - split; [reflexivity |]. split; [| split].
    + now rewrite annotations_clearFieldError, app_nil_r.
    + now rewrite field_of_clearFieldError, Nat.eqb_refl, Hf.
    + intros k' Hne. apply Nat.eqb_neq in Hne.
      now rewrite field_of_clearFieldError, Hne.
  - split; [reflexivity |]. split; [| split].
    + now rewrite annotations_showFieldError.
    + now rewrite field_of_showFieldError_at, Nat.eqb_refl, Hf.
    + intros k' Hne. apply Nat.eqb_neq in Hne.
      now rewrite field_of_showFieldError_at, Hne.
Qed.
End FieldOutcome.

(** [validateField_effect] on an empty required name. *)
Lemma validateField_effect_witness :
  snd (validateField (H := isoHost) 0 1 (wrapped_form EmptyString)) = false.
Proof.
  exact (proj1 (validateField_effect (H := isoHost) 0 1 (wrapped_form EmptyString)
                  (text_field "name" true EmptyString) eq_refl eq_refl eq_refl)).
Defined.

(** ** The life of a notification *)

Lemma pop_timer_one t : pop_timer [t] = Some (t, []).
Proof. reflexivity. Qed.

Lemma pop_timer_first a b :
  due a <= due b -> pop_timer [a; b] = Some (a, [b]).
Proof.
  intros Hle. cbn [pop_timer]. apply Z.ltb_ge in Hle. now rewrite Hle.
Qed.


Section Lifecycle.
Context `{Host}.

(** What the page shows of a timer that fires. *)
Lemma fire_view s t rest :
  pop_timer (timers s) = Some (t, rest) ->
  now (step Fire s) = Z.max (now s) (due t)
  /\ match cb t with
     | SlideIn k =>
         notes (step Fire s) = set_transform k slid_in (notes s)
         /\ timers (step Fire s) = rest
     | AutoHide k =>
         if attached k s
         then notes (step Fire s) = set_transform k slid_out (notes s)
              /\ timers (step Fire s)
                 = rest ++ [mkTimer (Z.max (now s) (due t) + 300) (Detach k)]
         else notes (step Fire s) = notes s /\ timers (step Fire s) = rest
     | Detach k =>
         notes (step Fire s)
         = List.filter (fun n => negb (Nat.eqb (n_key n) k)) (notes s)
         /\ timers (step Fire s) = rest
     | _ => True
     end.
Proof.
  intros Ep. unfold step, fire. rewrite Ep.
  destruct (cb t) as [o | o | k | k | k]; unfold run_callback.
  - unfold bookingDone. split_state s; auto.
  - unfold newsletterDone. split_state s; auto.
  - proj_simpl. auto.
  - change (attached k (set_now (Z.max (now s) (due t)) (set_timers rest s)))
      with (attached k s).
    destruct (attached k s); unfold hideNotification, setTimeout; proj_simpl; auto.
  - proj_simpl. auto.
Qed.



End Lifecycle.


Lemma keys_fresh_notify m ty s :
  keys_fresh s -> keys_fresh (state_of (showNotification m ty s)).
Proof.
  intros [Ht Hn]. unfold keys_fresh.
  destruct (showNotification_effect m ty s) as (-> & -> & _ & ->).
  split.
  - apply List.Forall_app. split.
    + eapply List.Forall_impl; [| exact Ht]. intros t. cbn beta.
      destruct (callback_key (cb t)); [lia | auto].
    + constructor; [cbn [cb callback_key]; lia |].
      destruct (has_close _); constructor; [cbn [cb callback_key]; lia | constructor].
  - constructor; [cbn [banner n_key]; lia | constructor].
Qed.

Lemma keys_fresh_same s s' :
  fresh s' = fresh s -> incl (timers s') (timers s) -> incl (notes s') (notes s) ->
  keys_fresh s -> keys_fresh s'.
Proof.
  intros Hf Ht Hn [Kt Kn]. unfold keys_fresh. rewrite Hf.
  rewrite !List.Forall_forall in *.
  split; [intros t Hin; apply Kt, Ht, Hin | intros n Hin; apply Kn, Hn, Hin].
Qed.

Lemma keys_fresh_timer s c d :
  match callback_key c with Some k => (k < fresh s)%nat | None => True end ->
  keys_fresh s -> keys_fresh (setTimeout c d s).
Proof.
  intros Hc [Kt Kn]. unfold keys_fresh, setTimeout. proj_simpl. split; [| exact Kn].
  apply List.Forall_app. split; [exact Kt |]. constructor; [exact Hc | constructor].
Qed.

Lemma set_transform_incl k v l x :
  In x (set_transform k v l) -> exists y, In y l /\ n_key x = n_key y.
Proof.
  unfold set_transform. intros Hin. apply in_map_iff in Hin as (y & <- & Hy).
  exists y. split; [exact Hy |]. now destruct (Nat.eqb (n_key y) k).
Qed.

Lemma keys_fresh_proj s s' :
  fresh s' = fresh s -> timers s' = timers s -> notes s' = notes s ->
  keys_fresh s -> keys_fresh s'.
Proof. unfold keys_fresh. now intros -> -> ->. Qed.

Lemma bookingDone_surface o s :
  fresh (state_of (bookingDone o s)) = fresh (state_of (showNotification msg_booked "success" s))
  /\ timers (state_of (bookingDone o s)) = timers (state_of (showNotification msg_booked "success" s))
  /\ notes (state_of (bookingDone o s)) = notes (state_of (showNotification msg_booked "success" s)).
Proof. unfold msg_booked. split_state s; auto. Qed.

Lemma newsletterDone_surface o s :
  fresh (state_of (newsletterDone o s))
  = fresh (state_of (showNotification msg_subscribed "success" s))
  /\ timers (state_of (newsletterDone o s))
     = timers (state_of (showNotification msg_subscribed "success" s))
  /\ notes (state_of (newsletterDone o s))
     = notes (state_of (showNotification msg_subscribed "success" s)).
Proof. unfold msg_subscribed. split_state s; auto. Qed.

Lemma keys_fresh_callback c s :
  match callback_key c with Some k => (k < fresh s)%nat | None => True end ->
  keys_fresh s -> keys_fresh (state_of (run_callback c s)).
Proof.
  intros Hc Hs. destruct c as [o | o | k | k | k]; unfold run_callback.
  - destruct (bookingDone_surface o s) as (Hf & Ht & Hn).
    apply (keys_fresh_proj _ _ Hf Ht Hn). now apply keys_fresh_notify.
  - destruct (newsletterDone_surface o s) as (Hf & Ht & Hn).
    apply (keys_fresh_proj _ _ Hf Ht Hn). now apply keys_fresh_notify.
  - cbn [state_of]. destruct Hs as [Kt Kn]. split; [exact Kt |]. proj_simpl.
    rewrite !List.Forall_forall in *. intros x Hx.
    apply set_transform_incl in Hx as (y & Hy & ->). now apply Kn.
  - cbn [state_of]. destruct (attached k s); [| exact Hs].
    unfold hideNotification. apply keys_fresh_timer; [exact Hc |].
    destruct Hs as [Kt Kn]. split; [exact Kt |]. proj_simpl.
    rewrite !List.Forall_forall in *. intros x Hx.
    apply set_transform_incl in Hx as (y & Hy & ->). now apply Kn.
  - cbn [state_of]. destruct Hs as [Kt Kn]. split; [exact Kt |]. proj_simpl.
    rewrite !List.Forall_forall in *. intros x Hx.
    apply filter_In in Hx as [Hx _]. now apply Kn.
Qed.

Section Superseded.
Context `{Host}.

Lemma step_keys_fresh e s : keys_fresh s -> keys_fresh (step e s).
Proof.
  intros Hs.
  assert (Hsame : forall s', fresh s' = fresh s -> timers s' = timers s ->
                             notes s' = notes s -> keys_fresh s').
  { intros s' Hf Ht Hn. now apply (keys_fresh_proj s s'). }
  destruct e; unfold step.
  - unfold handleBookingSubmission, submitBookingForm.
    destruct (booking s) as [b|]; [| exact Hs].
    destruct (validateBookingForm (now s) (bk_form b)) as [form [|]]; proj_simpl.
    + apply keys_fresh_timer; [exact I |]. now apply Hsame.
    + now apply Hsame.
  - unfold onBlur. destruct (booking s); [now apply Hsame | exact Hs].
  - unfold onInput. destruct (booking s); [now apply Hsame | exact Hs].
  - destruct (newsletter s); [now apply Hsame | exact Hs].
  - unfold handleNewsletterSubmission.
    destruct (newsletter s) as [f|]; [| exact Hs].
    destruct (emailInput (nl_form f)) as [[k input]|]; [| exact Hs].
    destruct (negb (truthy (trim (f_value input)))); [now apply keys_fresh_notify |].
    destruct (negb (test emailRegex (trim (f_value input))));
      [now apply keys_fresh_notify |].
    destruct (nl_button f); [| exact Hs]. cbn [state_of].
    apply keys_fresh_timer; [exact I |]. now apply Hsame.
  - now apply keys_fresh_notify.
  - unfold closeClick.
    destruct (List.find _ (notes s)) as [n|] eqn:Ef; [| exact Hs].
    destruct (query_class _ _); [| exact Hs].
    apply (keys_fresh_callback (AutoHide k) s) in Hs as Hs'.
    + unfold run_callback in Hs'. cbn [state_of] in Hs'.
      assert (Ha : attached k s = true).
      { unfold attached. apply existsb_exists. apply find_some in Ef. eauto. }
      now rewrite Ha in Hs'.
    + cbn [callback_key]. apply find_some in Ef as [Hin Hk].
      apply Nat.eqb_eq in Hk. subst k. destruct Hs as [_ Kn].
      rewrite List.Forall_forall in Kn. now apply Kn.
  - unfold requestParallaxUpdate. proj_simpl.
    destruct (parallax s) as [p|]; [| now apply Hsame].
    destruct (negb (ticking p)); now apply Hsame.
  - unfold frame. apply Hsame.
    + now rewrite (iter_updateParallax_keeps fresh)
        by (intros s'; unfold updateParallax; now destruct (parallax s')).
    + now rewrite (iter_updateParallax_keeps timers)
        by (intros s'; unfold updateParallax; now destruct (parallax s')).
    + now rewrite (iter_updateParallax_keeps notes)
        by (intros s'; unfold updateParallax; now destruct (parallax s')).
  - unfold fire. destruct (pop_timer (timers s)) as [[t rest]|] eqn:Ep; [| exact Hs].
    destruct (pop_timer_spec _ _ _ Ep) as (Hin & Hrest & _).
    apply keys_fresh_callback.
    + proj_simpl. destruct Hs as [Kt _]. rewrite List.Forall_forall in Kt.
      apply (Kt t Hin).
    + apply (keys_fresh_same s); [reflexivity | | | exact Hs]; proj_simpl.
      * intros x Hx. now apply Hrest.
      * intros x Hx. exact Hx.
  - unfold wait. destruct (d <? 0); [exact Hs |].
    destruct (pop_timer (timers s)) as [[t rest]|]; now apply Hsame.
  - now apply Hsame.
  - now apply Hsame.
  - now apply Hsame.
Qed.

Lemma init_keys_fresh p : keys_fresh (init p).
Proof. split; constructor. Qed.

(** X11: the timers of a notification that has been superseded leave its
    successor alone.  In every state the controller reaches, when a new
    notification is shown and a slide-in, auto-hide or removal timer set for
    an earlier banner fires next, the new banner stays in the page as it is
    and no timer is added. *)
Theorem superseded_timers (pg : Page) (es : list event) (m ty : string)
  (t : timer) (rest : list timer) :
  let s := run es (init pg) in
  let s' := step (Notify m ty) s in
  In t (timers s) -> callback_key (cb t) <> None ->
  pop_timer (timers s') = Some (t, rest) ->
  notes s' = [banner (fresh s) m ty]
  /\ notes (step Fire s') = notes s'
  /\ timers (step Fire s') = rest.
Proof.
  intros s s' Hin Hkey Ep.
  assert (Hs : keys_fresh s).
  { apply (run_invariant keys_fresh); [apply step_keys_fresh | apply init_keys_fresh]. }
  assert (Hn : notes s' = [banner (fresh s) m ty]).
  { unfold s', step. now destruct (showNotification_effect m ty s) as (-> & _). }
  split; [exact Hn |].
  destruct Hs as [Kt _]. rewrite List.Forall_forall in Kt. specialize (Kt t Hin).
  destruct (fire_view s' t rest Ep) as (_ & V).
  destruct (cb t) as [o | o | k | k | k]; cbn [callback_key] in *; try congruence.
  - destruct V as [-> ->]. split; [| reflexivity]. rewrite Hn.
    unfold set_transform. cbn [List.map banner n_key].
    destruct (Nat.eqb (fresh s) k) eqn:E; [| reflexivity].
    apply Nat.eqb_eq in E. lia.
  - assert (Ha : attached k s' = false).
    { unfold attached. rewrite Hn. cbn [existsb banner n_key].
      destruct (Nat.eqb (fresh s) k) eqn:E; [| reflexivity].
      apply Nat.eqb_eq in E. lia. }
    rewrite Ha in V. destruct V as [-> ->]. auto.
  - destruct V as [-> ->]. split; [| reflexivity]. rewrite Hn.
    cbn [List.filter banner n_key].
    destruct (Nat.eqb (fresh s) k) eqn:E; [| reflexivity].
    apply Nat.eqb_eq in E. lia.
Qed.
End Superseded.

(** [superseded_timers] on the slide-in timer of a replaced banner. *)
Lemma superseded_timers_witness :
  notes (step (H := isoHost) Fire
           (run (H := isoHost) [Notify "a" "info"; Notify "b" "info"] (init plain_page)))
  = notes (run (H := isoHost) [Notify "a" "info"; Notify "b" "info"] (init plain_page)).
Proof.
  refine (proj1 (proj2 (superseded_timers (H := isoHost) plain_page
                          [Notify "a" "info"] "b" "info"
                          (mkTimer 100 (SlideIn 4))
                          [mkTimer 5000 (AutoHide 4); mkTimer 100 (SlideIn 5);
                           mkTimer 5000 (AutoHide 5)] _ _ _))).
  - vm_compute. left. reflexivity.
  - discriminate.
  - vm_compute. reflexivity.
Defined.

Section Unbound.
Context `{Host}.

Lemma step_no_parallax e s :
  parallax s = None /\ raf s = 0%nat ->
  parallax (step e s) = None /\ raf (step e s) = 0%nat.
Proof.
  intros [Hp Hr].
  destruct e; unfold step;
    try (split_state s; subst; proj_simpl; auto; fail).
  - destruct s. proj_simpl. subst. unfold requestParallaxUpdate. proj_simpl. auto.
  - unfold fire. destruct (pop_timer (timers s)) as [[t rest]|]; [| auto].
    destruct (run_callback_parallax (cb t)
                (set_now (Z.max (now s) (due t)) (set_timers rest s)))
      as (-> & -> & _).
    auto.
Qed.

(** X12: the scroll listener is bound exactly when the page has a parallax
    image and the reader has not asked for reduced motion.  When it is not
    bound no event ever queues a frame request, so no image is ever
    moved. *)
Theorem parallax_opt_out (pg : Page) :
  (parallax (init pg) = None <-> pg_images pg = [] \/ pg_reducedMotion pg = true)
  /\ (pg_images pg = [] \/ pg_reducedMotion pg = true ->
      forall es, parallax (run es (init pg)) = None /\ raf (run es (init pg)) = 0%nat).
Proof.
  assert (Hinit : parallax (init pg) = None
                  <-> pg_images pg = [] \/ pg_reducedMotion pg = true).
  { unfold init. proj_simpl. unfold setupParallaxEffect.
    destruct (pg_images pg) as [|i l]; cbn [length Nat.ltb Nat.leb]; [tauto |].
    destruct (pg_reducedMotion pg); cbn [negb]; split; auto; try discriminate.
    intros [|]; discriminate. }
  split; [exact Hinit |]. intros Hoff es.
  apply (run_invariant (fun s => parallax s = None /\ raf s = 0%nat)).
  - apply step_no_parallax.
  - split; [now apply Hinit | reflexivity].
Qed.
End Unbound.

(** [parallax_opt_out] on a page whose reader asks for reduced motion. *)
Lemma parallax_opt_out_witness :
  raf (run (H := isoHost) [Scroll 100; Frame; Scroll 250] (init still_page)) = 0%nat.
Proof.
  exact (proj2 (proj2 (parallax_opt_out (H := isoHost) still_page)
                  (or_intror eq_refl) [Scroll 100; Frame; Scroll 250])).
Defined.

Lemma pop_timer_head t rest :
  List.Forall (fun u => due t <= due u) rest -> pop_timer (t :: rest) = Some (t, rest).
Proof.
  intros Hall. cbn [pop_timer].
  destruct (pop_timer rest) as [[u r']|] eqn:Ep.
  - destruct (pop_timer_spec _ _ _ Ep) as (Hin & _).
    rewrite List.Forall_forall in Hall. specialize (Hall u Hin).
    apply Z.ltb_ge in Hall. now rewrite Hall.
  - destruct rest as [|x r]; [reflexivity |]. cbn [pop_timer] in Ep.
    destruct (pop_timer r) as [[u r']|]; [destruct (due u <? due x) |]; discriminate.
Qed.

Lemma requiredFields_data t t' : data t = data t' -> requiredFields t = requiredFields t'.
Proof.
  unfold requiredFields, data. intros Hd.
  assert (Hx : forall l, List.map fst (List.filter (fun kf => f_required (snd kf)) l)
                         = List.map fst (List.filter (fun kf => f_required (snd kf))
                                           (List.map erase l))).
  { induction l as [|[k f] l IH]; [reflexivity |]. simpl.
    destruct (f_required f); simpl; now rewrite IH. }
  now rewrite (Hx (fields t)), (Hx (fields t')), Hd.
Qed.

Lemma bookingDone_now o s : now (state_of (bookingDone o s)) = now s.
Proof. split_state s; auto. Qed.

Section Resubmission.
Context `{Host}.

Lemma validate_flag_stable clock t t' :
  skeleton t = skeleton t' ->
  snd (validateBookingForm clock t) = snd (validateBookingForm clock t').
Proof.
  intros Hsk.
  destruct (validateBookingForm_spec clock t) as [_ ->].
  destruct (validateBookingForm_spec clock t') as [_ ->].
  rewrite (dateRangeError_stable t t' Hsk),
    (requiredFields_data t t' (skeleton_data _ _ Hsk)).
  f_equal. apply forallb_pointwise. intros k.
  apply verdict_data. now apply skeleton_data.
Qed.

Lemma submit_view s b :
  booking s = Some b ->
  snd (validateBookingForm (now s) (bk_form b)) = true ->
  booking (step BookingSubmit s)
  = Some (mkBooking (fst (validateBookingForm (now s) (bk_form b)))
            (mkButton "SUBMITTING..." true))
  /\ timers (step BookingSubmit s)
     = timers s ++ [mkTimer (now s + 2000) (BookingDone (b_text (bk_button b)))]
  /\ now (step BookingSubmit s) = now s
  /\ fresh (step BookingSubmit s) = fresh s.
Proof.
  intros Hb Hok. unfold step, handleBookingSubmission. rewrite Hb.
  destruct (validateBookingForm (now s) (bk_form b)) as [form ok].
  cbn [fst snd] in *. subst ok. unfold submitBookingForm, setTimeout. proj_simpl.
  auto.
Qed.

Lemma fire_booking_view s t rest o b :
  pop_timer (timers s) = Some (t, rest) -> cb t = BookingDone o ->
  booking s = Some b ->
  booking (step Fire s)
  = Some (mkBooking (reset_form (bk_form b)) (mkButton o false))
  /\ timers (step Fire s)
     = rest ++ [mkTimer (Z.max (now s) (due t) + 100) (SlideIn (fresh s));
                mkTimer (Z.max (now s) (due t) + 5000) (AutoHide (fresh s))]
  /\ now (step Fire s) = Z.max (now s) (due t)
  /\ notes (step Fire s) = [banner (fresh s) msg_booked "success"].
Proof.
  intros Ep Hcb Hb. unfold step, fire. rewrite Ep, Hcb. unfold run_callback.
  set (s0 := set_now (Z.max (now s) (due t)) (set_timers rest s)).
  assert (Hb0 : booking s0 = Some b) by exact Hb.
  destruct (bookingDone_effect o s0 b Hb0) as (Hbk & Hn & _).
  destruct (bookingDone_surface o s0) as (_ & Ht & _).
  destruct (showNotification_effect msg_booked "success" s0) as (_ & _ & _ & Ht').
  rewrite has_close_booked in Ht'. rewrite Ht' in Ht.
  split; [exact Hbk |]. split; [exact Ht |]. split; [| exact Hn].
  apply bookingDone_now.
Qed.

(** X13: when the submission handler runs a second time on a valid form
    before the delay of the first run has elapsed, the second run reads the
    pending label as the original text of the button: once both timers have
    fired the button is enabled again and still reads [SUBMITTING...]. *)
Theorem resubmission_label (s : State) (b : Booking) :
  booking s = Some b ->
  timers s = [] ->
  snd (validateBookingForm (now s) (bk_form b)) = true ->
  let s' := run [BookingSubmit; BookingSubmit; Fire; Fire] s in
  bk_button <$> booking s' = Some (mkButton "SUBMITTING..." false)
  /\ now s' = now s + 2000
  /\ timers (run [BookingSubmit; BookingSubmit] s)
     = [mkTimer (now s + 2000) (BookingDone (b_text (bk_button b)));
        mkTimer (now s + 2000) (BookingDone "SUBMITTING...")].
Proof.
  intros Hb Ht Hok. unfold run. cbn [fold_left].
  destruct (submit_view s b Hb Hok) as (B1 & T1 & C1 & _).
  rewrite Ht in T1. cbn [app] in T1.
  set (form1 := fst (validateBookingForm (now s) (bk_form b))) in *.
  set (s1 := step BookingSubmit s) in *. clearbody s1.
  assert (Hok1 : snd (validateBookingForm (now s1) form1) = true).
  { rewrite C1, <- Hok. apply validate_flag_stable.
    apply validateBookingForm_spec. }
  destruct (submit_view s1 _ B1 Hok1) as (B2 & T2 & C2 & _).
  cbn [bk_form bk_button b_text] in *. rewrite T1, C1 in T2. rewrite C1 in C2.
  cbn [app] in T2.
  set (form2 := fst (validateBookingForm (now s1) form1)) in *. clearbody form2.
  set (s2 := step BookingSubmit s1) in *. clearbody s2.
  assert (P2 : pop_timer (timers s2)
               = Some (mkTimer (now s + 2000) (BookingDone (b_text (bk_button b))),
                       [mkTimer (now s + 2000) (BookingDone "SUBMITTING...")])).
  { rewrite T2. apply pop_timer_first. cbn [due]. lia. }
  destruct (fire_booking_view s2 _ _ _ _ P2 eq_refl B2) as (B3 & T3 & C3 & _).
  cbn [due bk_form] in *. rewrite C2 in T3, C3.
  replace (Z.max (now s) (now s + 2000)) with (now s + 2000) in * by lia.
  cbn [app] in T3. set (s3 := step Fire s2) in *. clearbody s3.
  assert (P3 : pop_timer (timers s3)
               = Some (mkTimer (now s + 2000) (BookingDone "SUBMITTING..."),
                       [mkTimer (now s + 2000 + 100) (SlideIn (fresh s2));
                        mkTimer (now s + 2000 + 5000) (AutoHide (fresh s2))])).
  { rewrite T3. apply pop_timer_head. repeat constructor; cbn [due]; lia. }
  destruct (fire_booking_view s3 _ _ _ _ P3 eq_refl B3) as (B4 & _ & C4 & _).
  cbn [due] in *. rewrite C3 in C4. rewrite B4. cbn [fmap option_fmap option_map bk_button].
  repeat split; [lia | exact T2].
Qed.
End Resubmission.

(** [resubmission_label] on the guests form. *)
Lemma resubmission_label_witness :
  bk_button <$> booking (run (H := isoHost) [BookingSubmit; BookingSubmit; Fire; Fire]
                           (init guests_page))
  = Some (mkButton "SUBMITTING..." false).
Proof.
  refine (proj1 (resubmission_label (H := isoHost) (init guests_page)
                   (mkBooking
                      (Box [Box [Field 2 (mkField TagInput "number" "guests" "guests"
                                            true "2" "1" false)]])
                      (mkButton "BOOK NOW" false))
                   eq_refl eq_refl _)).
  vm_compute. reflexivity.
Defined.

Section Unclosable.
Context `{Host}.

Lemma fire_idle s : timers s = [] -> step Fire s = s.
Proof. intros Ht. unfold step, fire. now rewrite Ht. Qed.

Lemma fires_idle n s : timers s = [] -> run (repeat Fire n) s = s.
Proof.
  intros Ht. induction n as [|n IH]; [reflexivity |].
  cbn [repeat run fold_left]. rewrite (fire_idle s Ht). exact IH.
Qed.

(** X19: a message whose markup leaves the banner without its close
    control makes [showNotification] throw where it binds the click
    listener, after the slide-in timer is set and before the auto-hide timer
    is.  Shown while no timer is pending, such a banner slides in and then
    stays: no timer is left, however often timers are let fire.  The cause
    is the interpolation of the message into the markup, as in C10. *)
Theorem unclosable_notification (s : State) (m ty : string) (n : nat) :
  timers s = [] ->
  has_close (banner (fresh s) m ty) = false ->
  showNotification m ty s
  = Threw (setTimeout (SlideIn (fresh s)) 100
             (set_fresh (S (fresh s)) (set_notes [banner (fresh s) m ty] s)))
  /\ timers (step (Notify m ty) s) = [mkTimer (now s + 100) (SlideIn (fresh s))]
  /\ notes (run (Notify m ty :: repeat Fire (S n)) s)
     = [mkNote (fresh s) (n_class (banner (fresh s) m ty))
          (n_kids (banner (fresh s) m ty)) slid_in]
  /\ timers (run (Notify m ty :: repeat Fire (S n)) s) = [].
Proof.
  intros Ht Hc.
  assert (Hthrow : showNotification m ty s
                   = Threw (setTimeout (SlideIn (fresh s)) 100
                              (set_fresh (S (fresh s))
                                 (set_notes [banner (fresh s) m ty] s)))).
  { unfold has_close, banner in Hc. cbn [n_kids] in Hc.
    unfold showNotification, banner. cbn [n_kids].
    now destruct (query_class _ _). }
  split; [exact Hthrow |].
  destruct (showNotification_effect m ty s) as (N1 & _ & C1 & T1).
  rewrite Hc, Ht in T1. cbn [app] in T1.
  split; [exact T1 |].
  cbn [repeat run fold_left].
  fold (run (repeat Fire n) (step Fire (step (Notify m ty) s))).
  change (step (Notify m ty) s) with (state_of (showNotification m ty s)).
  set (s1 := state_of (showNotification m ty s)) in *. clearbody s1.
  assert (P1 : pop_timer (timers s1)
               = Some (mkTimer (now s + 100) (SlideIn (fresh s)), []))
    by now rewrite T1.
  destruct (fire_view s1 _ _ P1) as (_ & N2 & T2). cbn [cb] in N2, T2.
  rewrite N1 in N2. unfold set_transform in N2. cbn [List.map banner n_key] in N2.
  rewrite Nat.eqb_refl in N2.
  rewrite (fires_idle n _ T2). auto.
Qed.
End Unclosable.

(** [unclosable_notification] on a message that opens a comment. *)
Lemma unclosable_notification_witness :
  timers (run (H := isoHost) [Notify "<!--" "info"; Fire; Fire; Fire] (init plain_page)) = [].
Proof.
  refine (proj2 (proj2 (proj2 (unclosable_notification (H := isoHost)
                                 (init plain_page) "<!--" "info" 2 eq_refl _)))).
  vm_compute. reflexivity.
Defined.

(** ** Debounce *)

Section DebounceFacts.
Context {A : Type}.
Variable wait : Z.

Lemma delay_nonneg ms : 0 <= delay_of ms.
Proof. unfold delay_of. lia. Qed.

Lemma d_step_sound (e : uevent A) (s : Debounced A) : d_sound s -> d_sound (d_step wait e s).
Proof.
  intros Hs. destruct e as [a | | d]; cbn [d_step].
  - right. exists (d_next s), (d_now s + delay_of wait), a.
    unfold executedFunction. cbn [d_pending d_timeout d_now].
    split; [| split; [reflexivity | pose proof (delay_nonneg wait); lia]].
    destruct Hs as [-> | (id & due & a' & -> & -> & _)].
    + now destruct (d_timeout s).
    + cbn [clearTimeout List.filter fst]. now rewrite Nat.eqb_refl.
  - destruct Hs as [Hp | (id & due & a' & Hp & Ht & Hd)]; rewrite Hp; cbn [pop_due].
    + now left.
    + left. unfold later. cbn [d_pending d_timeout]. now destruct (d_timeout s).
  - destruct (d <? 0) eqn:Ed; [exact Hs |]. apply Z.ltb_ge in Ed.
    destruct Hs as [Hp | (id & due & a' & Hp & Ht & Hd)]; rewrite Hp; cbn [pop_due].
    + now left.
    + right. exists id, due, a'. cbn [d_pending d_timeout d_now].
      repeat split; [exact Ht | lia].
Qed.

Lemma d_run_sound es (s : Debounced A) : d_sound s -> d_sound (d_run wait es s).
Proof.
  revert s. induction es as [|e es IH]; intros s Hs; [exact Hs |].
  apply IH, d_step_sound, Hs.
Qed.

Lemma d_run_app es1 es2 (s : Debounced A) :
  d_run wait (es1 ++ es2) s = d_run wait es2 (d_run wait es1 s).
Proof. unfold d_run. apply fold_left_app. Qed.

Lemma d_quiet es (s : Debounced A) :
  forallb (fun e => negb (is_fire e)) es = true ->
  d_calls (d_run wait es s) = d_calls s.
Proof.
  revert s. induction es as [|e es IH]; intros s Hq; [reflexivity |].
  cbn [forallb] in Hq. apply andb_true_iff in Hq as [He Hq].
  cbn [d_run fold_left]. fold (d_run wait es (d_step wait e s)). rewrite (IH _ Hq).
  destruct e as [a | | d]; try discriminate; cbn [d_step].
  - reflexivity.
  - destruct (d <? 0); reflexivity.
Qed.

(** X14: a debounced function never calls the wrapped function itself:
    every call cancels the pending timer and sets a new one, so at most one
    timer is pending.  After any run of calls and waiting during which no
    timer fires, a last call and the firing of its timer make exactly one
    call of the wrapped function, with the arguments of the last call, at the
    time of the last call plus the delay. *)
Theorem debounce_trailing (t0 : Z) (es : list (uevent A)) :
  let s := d_run wait es (debounce t0) in
  (length (d_pending s) <= 1)%nat
  /\ (forall a,
         d_calls (d_step wait (UCall a) s) = d_calls s
         /\ d_pending (d_step wait (UCall a) s)
            = [(d_next s, (d_now s + delay_of wait, a))])
  /\ (forall quiet a,
         forallb (fun e => negb (is_fire e)) quiet = true ->
         let s1 := d_run wait quiet s in
         let s2 := d_run wait (quiet ++ [UCall a; UFire]) s in
         d_calls s2 = (d_now s1 + delay_of wait, a) :: d_calls s
         /\ d_pending s2 = []).
Proof.
  intros s.
  assert (Hs : d_sound s) by (apply d_run_sound; now left).
  assert (Hcall : forall (s' : Debounced A) a, d_sound s' ->
            d_calls (d_step wait (UCall a) s') = d_calls s'
            /\ d_pending (d_step wait (UCall a) s')
               = [(d_next s', (d_now s' + delay_of wait, a))]).
  { intros s' a Hs'. cbn [d_step]. unfold executedFunction.
    cbn [d_calls d_pending]. split; [reflexivity |].
    destruct Hs' as [-> | (id & due & a' & -> & -> & _)].
    - now destruct (d_timeout s').
    - cbn [clearTimeout List.filter fst]. now rewrite Nat.eqb_refl. }
  split; [| split].
  - destruct Hs as [-> | (id & due & a' & -> & _)]; simpl; lia.
  - intros a. now apply Hcall.
  - intros quiet a Hq s1 s2. unfold s2. rewrite d_run_app. fold s1.
    assert (Hs1 : d_sound s1) by now apply d_run_sound.
    destruct (Hcall s1 a Hs1) as [Hc Hp].
    cbn [d_run fold_left]. set (s' := d_step wait (UCall a) s1) in *.
    assert (Hnow : d_now s' = d_now s1) by reflexivity.
    assert (Hto : d_timeout s' = Some (d_next s1)) by reflexivity.
    clearbody s'. cbn [d_step]. rewrite Hp. cbn [pop_due].
    unfold later. cbn [d_calls d_pending d_now d_timeout]. rewrite Hto, Hc, Hnow.
    pose proof (delay_nonneg wait).
    replace (Z.max (d_now s1) (d_now s1 + delay_of wait))
      with (d_now s1 + delay_of wait) by lia.
    split; [| reflexivity]. f_equal. unfold s1. now apply d_quiet.
Qed.
End DebounceFacts.

(** [debounce_trailing] on two calls 100 ms apart. *)
Lemma debounce_trailing_witness :
  d_calls (d_run 250 [UCall "a"; UWait 100; UCall "b"; UFire] (debounce 0))
  = [(350, "b")].
Proof.
  exact (proj1 (proj2 (proj2 (debounce_trailing 250 0 []))
                  [UCall "a"; UWait 100] "b" eq_refl)).
Defined.

(** ** Throttle *)

Section ThrottleFacts.
Context {A : Type}.
Variable limit : Z.

Lemma t_step_sound (e : uevent A) (s : Throttled A) :
  t_sound limit s -> t_sound limit (t_step limit e s).
Proof.
  intros [Hsp Hfl]. pose proof (delay_nonneg limit) as Hd.
  destruct e as [a | | d]; cbn [t_step].
  - unfold throttled. destruct (t_inThrottle s) eqn:Ef; cbn [negb].
    + split; [exact Hsp | now rewrite Ef].
    + destruct Hfl as [Hp Hlast]. split; cbn [t_calls t_inThrottle t_pending t_now].
      * cbn [List.map fst]. destruct (t_calls s) as [|[t a'] r]; [exact I |].
        cbn [List.map fst spaced] in *. auto.
      * exists (t_now s), a, (t_calls s). rewrite Hp. repeat split. lia.
  - destruct (t_inThrottle s) eqn:Ef.
    + destruct Hfl as (t & a & rest & Hc & Hp & Hn). rewrite Hp. cbn [pop_min].
      split; cbn [t_calls t_inThrottle t_pending t_now]; [exact Hsp |].
      split; [reflexivity |]. rewrite Hc. lia.
    + destruct Hfl as [Hp Hlast]. rewrite Hp. cbn [pop_min].
      split; [exact Hsp | now rewrite Ef].
  - destruct (d <? 0) eqn:Ed; [split; [exact Hsp | exact Hfl] |].
    apply Z.ltb_ge in Ed. split; cbn [t_calls t_inThrottle t_pending t_now]; [exact Hsp |].
    destruct (t_inThrottle s).
    + destruct Hfl as (t & a & rest & Hc & Hp & Hn). exists t, a, rest.
      rewrite Hp. cbn [pop_min]. repeat split; [exact Hc | lia].
    + destruct Hfl as [Hp Hlast]. rewrite Hp. cbn [pop_min]. split; [reflexivity |].
      destruct (t_calls s) as [|[t a] r]; [exact I | lia].
Qed.

Lemma t_run_sound es (s : Throttled A) :
  t_sound limit s -> t_sound limit (t_run limit es s).
Proof.
  revert s. induction es as [|e es IH]; intros s Hs; [exact Hs |].
  apply IH, t_step_sound, Hs.
Qed.

(** X15: a throttled function calls the wrapped function at once when the
    flag is clear, and drops every call made while the flag is set: such a
    call changes nothing and is not made up for later.  The flag is set
    exactly while its timer is pending, at most one timer is pending, and
    any two calls of the wrapped function lie at least the delay apart. *)
Theorem throttle_spacing (t0 : Z) (es : list (uevent A)) :
  let s := t_run limit es (throttle t0) in
  spaced (delay_of limit) (List.map fst (t_calls s))
  /\ (length (t_pending s) <= 1)%nat
  /\ (t_inThrottle s = true <-> t_pending s <> [])
  /\ (forall a : A, t_inThrottle s = true -> t_step limit (UCall a) s = s)
  /\ (forall a : A, t_inThrottle s = false ->
        t_calls (t_step limit (UCall a) s) = (t_now s, a) :: t_calls s)
  /\ (forall a : A, t_calls (t_step limit (UCall a) (throttle t0)) = [(t0, a)]).
Proof.
  intros s.
  assert (Hs : t_sound limit s).
  { apply t_run_sound. split; [exact I |]. cbn. auto. }
  destruct Hs as [Hsp Hfl]. split; [exact Hsp |].
  split; [| split; [| split; [| split]]].
  - destruct (t_inThrottle s).
    + destruct Hfl as (t & a & rest & _ & -> & _). simpl. lia.
    + destruct Hfl as [-> _]. simpl. lia.
  - destruct (t_inThrottle s).
    + destruct Hfl as (t & a & rest & _ & -> & _). split; [discriminate | reflexivity].
    + destruct Hfl as [-> _]. split; [discriminate | congruence].
  - intros a Hf. cbn [t_step]. unfold throttled. now rewrite Hf.
  - intros a Hf. cbn [t_step]. unfold throttled. now rewrite Hf.
  - reflexivity.
Qed.
End ThrottleFacts.

(** [throttle_spacing] on a second call within the delay. *)
Lemma throttle_spacing_witness :
  t_step 1000 (UCall "b") (t_run 1000 [UCall "a"] (throttle 0))
  = t_run 1000 [UCall "a"] (throttle 0).
Proof.
  exact (proj1 (proj2 (proj2 (proj2 (throttle_spacing 1000 0 [UCall "a"])))) "b" eq_refl).
Defined.

(** ** Cards *)

Lemma cards_run_at es : forall cards i c,
  cards !! i = Some c ->
  cards_run es cards !! i
  = Some (mkCard (last_hover i es (c_transform c)) (c_tabindex c) (c_role c)
            (c_clicks c + activations i es)).
Proof.
  induction es as [|[j e] es IH]; intros cards i c Hc.
  - cbn [cards_run fold_left last_hover activations List.filter length].
    rewrite Nat.add_0_r, Hc. now destruct c.
  - cbn [cards_run fold_left]. fold (cards_run es (cards_step (j, e) cards)).
    unfold cards_step. cbn [fst snd].
    destruct (Nat.eqb j i) eqn:E.
    + apply Nat.eqb_eq in E. subst j. rewrite Hc.
      assert (Hi : (i < length cards)%nat) by (apply lookup_lt_is_Some; eauto).
      rewrite (IH _ i (fst (card_listener e c)))
        by (now apply list_lookup_insert_eq).
      unfold activations. cbn [last_hover List.filter fst snd].
      rewrite Nat.eqb_refl. cbn [andb].
      destruct e as [| | key]; cbn [card_listener fst c_transform c_tabindex c_role c_clicks];
        try reflexivity.
      destruct (String.eqb key "Enter" || String.eqb key " ");
        cbn [fst c_transform c_tabindex c_role c_clicks length]; [| reflexivity].
      f_equal. f_equal. lia.
    + assert (Hstep : (match cards !! j with
                       | Some c0 => <[j := fst (card_listener e c0)]> cards
                       | None => cards
                       end) !! i = Some c).
      { apply Nat.eqb_neq in E. destruct (cards !! j); [| exact Hc].
        now rewrite list_lookup_insert_ne. }
      rewrite (IH _ i c Hstep). unfold activations.
      cbn [last_hover List.filter fst snd]. rewrite E. reflexivity.
Qed.

(** X16: binding gives every card the tab index 0 and the role of a
    button.  After any sequence of mouse and key events the card at index
    [i] shows the transform of the last mouse event on it (lifted on enter,
    back on leave), has fired one click for every key press on it with Enter
    or the space bar, the only keys whose default action is prevented, and
    events on other cards have not touched it. *)
Theorem card_interactions (cards : list card) (es : list (nat * card_event))
  (i : nat) (c : card) :
  cards !! i = Some c ->
  cards_run es (bindCardInteractions cards) !! i
  = Some (mkCard (last_hover i es (c_transform c)) (Some "0") (Some "button")
            (c_clicks c + activations i es))
  /\ length (cards_run es (bindCardInteractions cards)) = length cards
  /\ (forall key c', snd (card_listener (KeyDown key) c') = true
                     <-> key = "Enter" \/ key = " ").
Proof.
  intros Hc. split; [| split].
  - rewrite (cards_run_at es _ i (bindCard c)); [reflexivity |].
    unfold bindCardInteractions. now rewrite list_lookup_fmap, Hc.
  - unfold bindCardInteractions.
    assert (Hlen : forall cs, length (cards_run es cs) = length cs).
    { induction es as [|ie es IH]; intros cs; [reflexivity |].
      cbn [cards_run fold_left]. fold (cards_run es (cards_step ie cs)).
      rewrite IH. unfold cards_step. destruct (cs !! fst ie); [| reflexivity].
      apply length_insert. }
    now rewrite Hlen, length_map.
  - intros key c'. cbn [card_listener].
    destruct (String.eqb key "Enter") eqn:E1; cbn [orb].
    + apply String.eqb_eq in E1. cbn [snd]. tauto.
    + destruct (String.eqb key " ") eqn:E2; cbn [snd].
      * apply String.eqb_eq in E2. tauto.
      * apply String.eqb_neq in E1, E2. split; [discriminate | tauto].
Qed.

(** [card_interactions] on a card that is entered, activated and left. *)
Lemma card_interactions_witness :
  cards_run [(0%nat, MouseEnter); (0%nat, KeyDown "Enter"); (0%nat, MouseLeave)]
    (bindCardInteractions [mkCard EmptyString None None 0]) !! 0%nat
  = Some (mkCard "translateY(0)" (Some "0") (Some "button") 1).
Proof.
  exact (proj1 (card_interactions [mkCard EmptyString None None 0]
                  [(0%nat, MouseEnter); (0%nat, KeyDown "Enter"); (0%nat, MouseLeave)]
                  0 (mkCard EmptyString None None 0) eq_refl)).
Defined.

(** ** Anchor links *)

Lemma starts_with_spec p s : starts_with p s = true <-> exists b, s = p ++ b.
Proof.
  revert s. induction p as [|c p IH]; intros s; cbn [starts_with].
  - split; [eauto | reflexivity].
  - destruct s as [|d s].
    + split; [discriminate | intros [b Hb]; discriminate].
    + rewrite andb_true_iff, Ascii.eqb_eq, IH. split.
      * intros [-> [b ->]]. now exists b.
      * intros [b [= -> ->]]. eauto.
Qed.

Lemma includes_chars_spec sub s :
  includes_chars sub s = true <-> exists a b, s = a ++ sub ++ b.
Proof.
  induction s as [|d s IH]; cbn [includes_chars]; rewrite orb_true_iff, starts_with_spec.
  - split.
    + intros [[b Hb] | Hf]; [| discriminate]. now exists [], b.
    + intros (a & b & Hab). left. destruct a; [| discriminate]. now exists b.
  - rewrite IH. split.
    + intros [[b Hb] | (a & b & ->)]; [now exists [], b | now exists (d :: a), b].
    + intros ([|x a] & b & Hab); [left; now exists b |].
      injection Hab as -> ->. right. eauto.
Qed.

Section AnchorFacts.
Variable querySelector : string -> found.

(** X17: a click on an in-page link is left to the browser exactly when
    the [href] is [#] alone or holds [Modal], in that spelling.  For every
    other link the default action is prevented, and the page scrolls exactly
    when the selector [href] finds an element: a link whose target is
    missing does nothing at all. *)
Theorem anchor_click (href : string) :
  (prevented (anchorClick querySelector href) = false
   <-> href = "#" \/ exists a b, chars href = a ++ chars "Modal" ++ b)
  /\ (forall el, scrolled (anchorClick querySelector href) = Some el
                 <-> prevented (anchorClick querySelector href) = true
                     /\ querySelector href = Target el)
  /\ (prevented (anchorClick querySelector href) = true ->
      querySelector href = NoTarget ->
      anchorClick querySelector href = mkClick true None false).
Proof.
  unfold anchorClick, includes.
  destruct (String.eqb href "#") eqn:E1; cbn [negb andb].
  - apply String.eqb_eq in E1. cbn [prevented scrolled].
    intuition (try discriminate; try congruence).
  - apply String.eqb_neq in E1.
    destruct (includes_chars (chars "Modal") (chars href)) eqn:E2; cbn [negb].
    + apply includes_chars_spec in E2. cbn [prevented scrolled].
      intuition (try discriminate; try congruence).
    + assert (Hn : ~ exists a b, chars href = a ++ chars "Modal" ++ b).
      { intros Hx. apply includes_chars_spec in Hx. congruence. }
      destruct (querySelector href) as [el0 | |]; cbn [prevented scrolled];
        intuition (try discriminate; try congruence).
Qed.
End AnchorFacts.

(** [anchor_click] on a link whose target is missing. *)
Lemma anchor_click_witness :
  anchorClick (fun _ => NoTarget) "#rooms" = mkClick true None false.
Proof.
  exact (proj2 (proj2 (anchor_click (fun _ => NoTarget) "#rooms")) eq_refl eq_refl).
Defined.
